(** * OpenClaw agent dashboard: the telemetry aggregation layer

    A shallow embedding of the server-side routines of the dashboard
    (process bridge, per-route cache, status and health derivation,
    activity normalisation and query, cron summaries, redaction) and
    the properties of the written specification stated over it.

    Conventions of the embedding.
    - A JavaScript string is a [string]; each character stands for one
      UTF-16 code unit in the range 0..255, so [String.length] is the
      [.length] of the source.
    - A JavaScript number is an integer of [Z] (counters, sizes and
      millisecond instants are integers in the payloads).
    - [undefined] is [None] of an option; a thrown exception is [None]
      of the result of a fallible function (each such function says so).
    - An object is the list of its own enumerable entries, in the order
      of [Object.entries]. *)

From Stdlib Require Import ZArith List String Ascii Bool Lia Arith.
From Stdlib Require Import Sorting.Sorted Sorting.Permutation.
From Stdlib Require Import DecimalString.
From Stdlib Require DecimalNat.
Import ListNotations.

Local Open Scope string_scope.
Local Open Scope list_scope.

(** ** JavaScript string primitives used by the routes *)

Module JS.

Definition code (c : ascii) : nat := nat_of_ascii c.

Definition between (lo hi : nat) (c : ascii) : bool :=
  (lo <=? code c)%nat && (code c <=? hi)%nat.

(** [\s] of a regular expression, also the set removed by [trim]:
    tab, line feed, vertical tab, form feed, carriage return, space and
    the no-break space. *)
Definition is_space (c : ascii) : bool :=
  between 9 13 c || (code c =? 32)%nat || (code c =? 160)%nat.

Definition is_digit (c : ascii) : bool := between 48 57 c.
Definition is_upper (c : ascii) : bool := between 65 90 c.
Definition is_lower (c : ascii) : bool := between 97 122 c.

(** [\w] *)
Definition is_word (c : ascii) : bool :=
  is_digit c || is_upper c || is_lower c || (code c =? 95)%nat.

(** Case folding of the [i] flag: only the letters A-Z and a-z are
    identified (no other code unit canonicalises to an ASCII letter). *)
Definition fold_char (c : ascii) : ascii :=
  if is_upper c then ascii_of_nat (code c + 32) else c.

(** [String.prototype.toLowerCase] on one code unit below 256. *)
Definition lower_char (c : ascii) : ascii :=
  if is_upper c || between 192 214 c || between 216 222 c
  then ascii_of_nat (code c + 32) else c.

Fixpoint map_string (f : ascii -> ascii) (s : string) : string :=
  match s with
  | EmptyString => EmptyString
  | String c t => String (f c) (map_string f t)
  end.

Definition toLowerCase (s : string) : string := map_string lower_char s.
Definition fold_case (s : string) : string := map_string fold_char s.

(** [s.startsWith(p)] *)
Definition startsWith (s p : string) : bool := String.prefix p s.

(** [s.includes(p)] *)
Fixpoint includes (s p : string) : bool :=
  String.prefix p s ||
  match s with
  | EmptyString => false
  | String _ t => includes t p
  end.

(** [s.indexOf(p)]; [None] is the source's [-1]. *)
Fixpoint indexOf (s p : string) : option nat :=
  if String.prefix p s then Some 0%nat
  else match s with
       | EmptyString => None
       | String _ t => option_map S (indexOf t p)
       end.

(** [s.slice(n)] for [0 <= n]. *)
Fixpoint sliceFrom (n : nat) (s : string) : string :=
  match n, s with
  | O, _ => s
  | S k, EmptyString => EmptyString
  | S k, String _ t => sliceFrom k t
  end.

(** [s.slice(0, n)] for [0 <= n]. *)
Definition sliceTo (n : nat) (s : string) : string := String.substring 0 n s.

Fixpoint dropWhile (p : ascii -> bool) (s : string) : string :=
  match s with
  | EmptyString => EmptyString
  | String c t => if p c then dropWhile p t else s
  end.

Definition trimStart (s : string) : string := dropWhile is_space s.

Fixpoint trimEnd (s : string) : string :=
  match s with
  | EmptyString => EmptyString
  | String c t =>
      match trimEnd t with
      | EmptyString => if is_space c then EmptyString else String c EmptyString
      | t' => String c t'
      end
  end.

Definition trim (s : string) : string := trimEnd (trimStart s).

(** [s.split(sep)] for a separator that is not empty.  [skip] counts the
    characters of a separator occurrence still to be passed over, [cur]
    holds the current piece in reverse. *)
Fixpoint splitGo (sep s : string) (skip : nat) (cur : list ascii) : list string :=
  match s with
  | EmptyString => [string_of_list_ascii (rev cur)]
  | String c t =>
      match skip with
      | S k => splitGo sep t k cur
      | O =>
          if String.prefix sep s
          then string_of_list_ascii (rev cur)
                 :: splitGo sep t (String.length sep - 1) []
          else splitGo sep t 0 (c :: cur)
      end
  end.

Definition split (s sep : string) : list string := splitGo sep s 0 [].

(** Rendering of a non-negative integer in a template literal. *)
Definition natToString (n : nat) : string :=
  NilZero.string_of_uint (Nat.to_uint n).

(** Truthiness of a string: the empty string is falsy. *)
Definition nonEmpty (s : string) : bool :=
  match s with EmptyString => false | _ => true end.

(** [a || b] on strings. *)
Definition orElse (a b : string) : string := if nonEmpty a then a else b.

End JS.

(** ** Raw snapshots: the values [JSON.parse] can return *)

#[warnings="-register-all"]
Inductive json : Type :=
| JNull
| JBool (b : bool)
| JNum (n : Z)
| JStr (s : string)
| JArr (items : list json)
| JObj (entries : list (string * json)).

Module Json.

(** Structural induction that reaches below arrays and objects. *)
Section Induction.
Variable P : json -> Prop.
Hypothesis Hnull : P JNull.
Hypothesis Hbool : forall b, P (JBool b).
Hypothesis Hnum : forall n, P (JNum n).
Hypothesis Hstr : forall s, P (JStr s).
Hypothesis Harr : forall l, Forall P l -> P (JArr l).
Hypothesis Hobj : forall l, Forall (fun kv => P (snd kv)) l -> P (JObj l).

Fixpoint json_ind' (v : json) : P v :=
  match v with
  | JNull => Hnull
  | JBool b => Hbool b
  | JNum n => Hnum n
  | JStr s => Hstr s
  | JArr l =>
      Harr l ((fix items (l : list json) : Forall P l :=
                 match l with
                 | [] => Forall_nil _
                 | x :: r => Forall_cons x (json_ind' x) (items r)
                 end) l)
  | JObj l =>
      Hobj l ((fix fields (l : list (string * json))
                 : Forall (fun kv => P (snd kv)) l :=
                 match l with
                 | [] => Forall_nil _
                 | kv :: r => Forall_cons kv (json_ind' (snd kv)) (fields r)
                 end) l)
  end.
End Induction.

(** Truthiness ([!v], [v ? a : b], [a && b]). *)
Definition truthy (v : json) : bool :=
  match v with
  | JNull => false
  | JBool b => b
  | JNum n => negb (n =? 0)%Z
  | JStr s => JS.nonEmpty s
  | JArr _ | JObj _ => true
  end.

Definition truthyOpt (o : option json) : bool :=
  match o with Some v => truthy v | None => false end.

(** [v === true] *)
Definition isTrue (o : option json) : bool :=
  match o with Some (JBool true) => true | _ => false end.

(** [v === "s"] *)
Definition isString (o : option json) (s : string) : bool :=
  match o with Some (JStr t) => (t =? s)%string | _ => false end.

Fixpoint indexed {A} (i : nat) (l : list A) : list (string * A) :=
  match l with
  | [] => []
  | x :: r => (JS.natToString i, x) :: indexed (S i) r
  end.

Definition chars (s : string) : list json :=
  map (fun c => JStr (String c EmptyString)) (list_ascii_of_string s).

(** Own enumerable entries, as [Object.entries] lists them: the fields of
    an object, the indexed elements of an array, the indexed characters
    of a string, nothing for a number or a boolean. *)
Definition ownEntries (v : json) : list (string * json) :=
  match v with
  | JObj l => l
  | JArr l => indexed 0 l
  | JStr s => indexed 0 (chars s)
  | _ => []
  end.

(** [Object.keys(v)] *)
Definition keys (v : json) : list string := map fst (ownEntries v).

Fixpoint assoc (k : string) (l : list (string * json)) : option json :=
  match l with
  | [] => None
  | (k', v) :: r => if (k' =? k)%string then Some v else assoc k r
  end.

(** [v.k] and [v[k]] for a value [v] that is neither [null] nor
    [undefined], and a name [k] that no prototype defines: an own entry,
    or the [length] of an array or string. *)
Definition prop (v : json) (k : string) : option json :=
  match assoc k (ownEntries v) with
  | Some x => Some x
  | None =>
      if (k =? "length")%string then
        match v with
        | JArr l => Some (JNum (Z.of_nat (List.length l)))
        | JStr s => Some (JNum (Z.of_nat (String.length s)))
        | _ => None
        end
      else None
  end.

(** [o?.k], also [o.k] where [o] cannot be nullish. *)
Definition get (o : option json) (k : string) : option json :=
  match o with
  | None | Some JNull => None
  | Some v => prop v k
  end.

(** [o ?? d] *)
Definition orDefault (o : option json) (d : json) : json :=
  match o with
  | None | Some JNull => d
  | Some v => v
  end.

(** [a ?? b] where [b] may itself be [undefined]. *)
Definition orOpt (a b : option json) : option json :=
  match a with
  | None | Some JNull => b
  | Some v => Some v
  end.

(** [(o?.k ?? {})]: a section of a snapshot, empty when absent. *)
Definition section (o : option json) (k : string) : json :=
  orDefault (get o k) (JObj []).

End Json.

(** ** Process bridge *)

(** What [execSync] does for one command: it returns the captured
    standard output when the process exits with code zero, and throws
    when the process exits with another code or is killed at the
    timeout. *)
Inductive ExecOutcome : Type :=
| Completed (stdout : string)
| ExitedNonZero (exitCode : Z)
| TimedOut.

Module Bridge.

Section WithParser.
(** [JSON.parse]: [None] when it throws [SyntaxError]. *)
Variable parse : string -> option json.

(** [runCLI] of src/app/api/status/route.ts (the same text stands in
    the system, agents, channels and config routes). *)
Definition runCLI (o : ExecOutcome) : option json :=
  match o with
  | Completed out =>
      match JS.indexOf out "{" with
      | None => None
      | Some jsonStart => parse (JS.sliceFrom jsonStart out)
      end
  | ExitedNonZero _ | TimedOut => None
  end.

(** [execJSON] of src/app/api/activity/route.ts. *)
Definition execJSON (o : ExecOutcome) : option json :=
  match o with
  | Completed out => parse (JS.trim out)
  | ExitedNonZero _ | TimedOut => None
  end.
End WithParser.

End Bridge.

(** ** Status and health *)

Inductive Health : Type := healthy | degraded | unhealthy.

(** The services of the platform a derivation reads: the host figures
    of the [os] and [process] modules, the clock, the rendering of
    dates and [JSON.parse]. *)
Record Platform : Type := {
  processUptime : Z;   (* Math.floor(process.uptime()) *)
  osUptime : Z;        (* Math.floor(os.uptime()) *)
  usedMemMb : Z;       (* Math.round((os.totalmem() - os.freemem()) / 1024 / 1024) *)
  totalMemMb : Z;      (* Math.round(os.totalmem() / 1024 / 1024) *)
  cpuLoadPercent : Z;  (* Math.min(Math.round((os.loadavg()[0] / os.cpus().length) * 100), 100) *)
  osPlatform : string; (* os.platform() *)
  nowISO : string;     (* new Date().toISOString() *)
  dateISO : json -> option string;
                       (* new Date(v).toISOString(); None: RangeError *)
  jsonParse : string -> option json
                       (* JSON.parse(text); None: SyntaxError *)
}.

(** The placeholder of absent strings. *)
Definition placeholder : string := "—".

Module Snapshot.

(** [heartbeatAgents.find(a => a.agentId === 'main')].  The outer [None]
    is a [TypeError]: the value has no callable [find], or an element
    visited before a match is [null]. *)
Fixpoint findMainIn (l : list json) : option (option json) :=
  match l with
  | [] => Some None
  | JNull :: _ => None
  | a :: r =>
      if Json.isString (Json.prop a "agentId") "main" then Some (Some a)
      else findMainIn r
  end.

Definition findMain (heartbeatAgents : json) : option (option json) :=
  match heartbeatAgents with
  | JArr l => findMainIn l
  | _ => None
  end.

(** [lastUpdated ? new Date(lastUpdated).toISOString()
                 : new Date().toISOString()]; [None]: [RangeError]. *)
Definition lastHeartbeatOf (pf : Platform) (sessions : json) : option string :=
  let recentSessions := Json.orDefault (Json.prop sessions "recent") (JArr []) in
  let lastUpdated := Json.get (Json.prop recentSessions "0") "updatedAt" in
  match lastUpdated with
  | Some v => if Json.truthy v then dateISO pf v else Some (nowISO pf)
  | None => Some (nowISO pf)
  end.

End Snapshot.

(** *** src/app/api/status/route.ts: health from the channel probes *)

Module StatusRoute.

Record ParsedHealth : Type := {
  allProbesOk : bool;
  anyProbeOk : bool;
  channels : list string
}.

(** [channels[name]?.probe?.ok] *)
Definition probeOf (channels : json) (name : string) : option json :=
  Json.get (Json.get (Json.prop channels name) "probe") "ok".

(** [channels[name]?.probe?.ok === true] *)
Definition probeOk (channels : json) (name : string) : bool :=
  Json.isTrue (probeOf channels name).

(** [channels[name]?.configured && channels[name]?.probe?.ok] *)
Definition configuredAndOk (channels : json) (name : string) : bool :=
  Json.truthyOpt (Json.get (Json.prop channels name) "configured")
  && Json.truthyOpt (probeOf channels name).

Definition parseHealth (healthData : option json) : ParsedHealth :=
  if negb (Json.truthyOpt healthData) then
    {| allProbesOk := false; anyProbeOk := false; channels := [] |}
  else
    let channels := Json.section healthData "channels" in
    let channelNames := Json.keys channels in
    let probeResults := map (probeOk channels) channelNames in
    {| allProbesOk :=
         (0 <? List.length probeResults)%nat && forallb (fun b => b) probeResults;
       anyProbeOk := existsb (fun b => b) probeResults;
       channels := filter (configuredAndOk channels) channelNames |}.

Definition deriveHealth (health : ParsedHealth) : Health :=
  if allProbesOk health then healthy
  else if anyProbeOk health then degraded
  else unhealthy.

Record StatusData : Type := {
  version : json;
  uptime : Z;
  health : Health;
  activeChannels : list string;
  lastHeartbeat : string;
  memoryUsageMb : Z;
  cpuPercent : Z;
  memoryFiles : json;
  memoryChunks : json;
  memoryBackend : json;
  platform : json;
  heartbeatEvery : json;
  gatewayVersion : json;
  gatewayReachable : json
}.

(** [buildStatus]; [None] when the derivation throws: [runtimeShort]
    carries a value other than a string (no [match] method), the
    heartbeat agents are not an array of objects, or the date of the
    most recent session cannot be rendered. *)
Definition buildStatus (pf : Platform) (statusData healthData : option json)
  : option StatusData :=
  let health := parseHealth healthData in
  let gateway := Json.section statusData "gateway" in
  let gatewaySelf := Json.orDefault (Json.prop gateway "self") (JObj []) in
  let update := Json.section statusData "update" in
  let registry := Json.orDefault (Json.prop update "registry") (JObj []) in
  let osData := Json.section statusData "os" in
  let memData := Json.section statusData "memory" in
  let gatewayService := Json.section statusData "gatewayService" in
  let sessions := Json.section statusData "sessions" in
  let heartbeat := Json.section statusData "heartbeat" in
  let heartbeatAgents := Json.orDefault (Json.prop heartbeat "agents") (JArr []) in
  let version :=
    Json.orDefault
      (Json.orOpt (Json.prop registry "latestVersion") (Json.prop gatewaySelf "version"))
      (JStr placeholder) in
  let runtimeText := Json.orDefault (Json.prop gatewayService "runtimeShort") (JStr "") in
  match runtimeText with
  | JStr _ =>
      match Snapshot.lastHeartbeatOf pf sessions with
      | None => None
      | Some lastHeartbeat =>
          match Snapshot.findMain heartbeatAgents with
          | None => None
          | Some mainAgent =>
              Some {|
                version := version;
                uptime := processUptime pf;
                health := deriveHealth health;
                activeChannels := channels health;
                lastHeartbeat := lastHeartbeat;
                memoryUsageMb := usedMemMb pf;
                cpuPercent := cpuLoadPercent pf;
                memoryFiles := Json.orDefault (Json.prop memData "files") (JNum 0);
                memoryChunks := Json.orDefault (Json.prop memData "chunks") (JNum 0);
                memoryBackend := Json.orDefault (Json.prop memData "backend") (JStr "builtin");
                platform := Json.orDefault (Json.prop osData "label") (JStr (osPlatform pf));
                heartbeatEvery := Json.orDefault (Json.get mainAgent "every") (JStr placeholder);
                gatewayVersion := Json.orDefault (Json.prop gatewaySelf "version") (JStr placeholder);
                gatewayReachable := Json.orDefault (Json.prop gateway "reachable") (JBool false)
              |}
          end
      end
  | _ => None
  end.

(** The module-level [cache] and the answers of the handler. *)
Record CacheEntry : Type := { data : StatusData; ts : Z }.

Inductive Response : Type :=
| Payload (data : StatusData) (timestamp : string) (cached stale : bool)
    (* status 200, { data, timestamp, cached?, stale? }: a flag is [true]
       when the key is written, [false] when it is left out *)
| Failure (error : string) (status : Z).
    (* { error } with an HTTP error status *)

Definition CACHE_TTL : Z := 30000.

(** [GET]: the answer and the cache it leaves.  [now] is [Date.now()],
    [exec] is what [execSync] does for each command at this call. *)
Definition GET (pf : Platform) (cache : option CacheEntry) (now : Z)
    (exec : string -> ExecOutcome) : Response * option CacheEntry :=
  let fresh :=
    match cache with
    | Some c => (now - ts c <? CACHE_TTL)%Z
    | None => false
    end in
  match cache, fresh with
  | Some c, true => (Payload (data c) (nowISO pf) true false, cache)
  | _, _ =>
      let statusData := Bridge.runCLI (jsonParse pf) (exec "openclaw status --json") in
      let healthData := Bridge.runCLI (jsonParse pf) (exec "openclaw health --json") in
      match buildStatus pf statusData healthData with
      | Some d => (Payload d (nowISO pf) false false, Some {| data := d; ts := now |})
      | None =>
          match cache with
          | Some c => (Payload (data c) (nowISO pf) true true, cache)
          | None => (Failure "Failed to fetch status" 500, None)
          end
      end
  end.

End StatusRoute.

(** *** The status route read from the channel summary
    (second document of src/app/api/daily/route.ts) *)

Module StatusSummaryRoute.

(** [/^\w[\w\s]*?:\s+configured/.test(s)]: a word character, then word
    and blank characters up to the first colon, at least one blank,
    then the word [configured]. *)
Definition configuredLine (s : string) : bool :=
  match s with
  | EmptyString => false
  | String c t =>
      JS.is_word c &&
      match JS.dropWhile (fun d => JS.is_word d || JS.is_space d) t with
      | String ":" u =>
          match u with
          | String d _ =>
              JS.is_space d && String.prefix "configured" (JS.dropWhile JS.is_space u)
          | EmptyString => false
          end
      | _ => false
      end
  end.

(** The lines of [channelSummary] as strings; [None] when an element is
    not a string ([line.trim] is then a [TypeError]). *)
Fixpoint asLines (l : list json) : option (list string) :=
  match l with
  | [] => Some []
  | JStr s :: r => option_map (cons s) (asLines r)
  | _ :: _ => None
  end.

Definition channelOfLine (line : string) : string :=
  JS.toLowerCase (JS.trim (hd EmptyString (JS.split line ":"))).

(** [parseChannelSummary]; [None] when the value is not an array of
    strings. *)
Definition parseChannelSummary (channelSummary : json) : option (list string) :=
  match channelSummary with
  | JArr l =>
      option_map
        (fun lines =>
           map channelOfLine (filter (fun line => configuredLine (JS.trim line)) lines))
        (asLines l)
  | _ => None
  end.

Record StatusData : Type := {
  version : json;
  uptime : Z;
  health : Health;
  activeChannels : list string;
  lastHeartbeat : string;
  memoryUsageMb : Z;
  totalMemMb' : Z;
  cpuPercent : Z;
  memoryFiles : json;
  memoryChunks : json;
  memoryBackend : json;
  platform : json;
  heartbeatEvery : json;
  gatewayVersion : json;
  gatewayReachable : json
}.

(** The health rule written in [buildStatus]. *)
Definition healthRule (gatewayReachable : json) (activeChannels : list string) : Health :=
  if negb (Json.truthy gatewayReachable) then unhealthy
  else if (0 <? List.length activeChannels)%nat then healthy
  else degraded.

(** [buildStatus]; [None] when the derivation throws: the channel
    summary is not an array of strings, the heartbeat agents are not an
    array of objects, or the date of the most recent session cannot be
    rendered. *)
Definition buildStatus (pf : Platform) (statusData : option json) : option StatusData :=
  let gateway := Json.section statusData "gateway" in
  let gatewaySelf := Json.orDefault (Json.prop gateway "self") (JObj []) in
  let update := Json.section statusData "update" in
  let registry := Json.orDefault (Json.prop update "registry") (JObj []) in
  let osData := Json.section statusData "os" in
  let memData := Json.section statusData "memory" in
  let sessions := Json.section statusData "sessions" in
  let heartbeat := Json.section statusData "heartbeat" in
  let heartbeatAgents := Json.orDefault (Json.prop heartbeat "agents") (JArr []) in
  let channelSummary := Json.orDefault (Json.get statusData "channelSummary") (JArr []) in
  let version :=
    Json.orDefault
      (Json.orOpt (Json.prop gatewaySelf "version") (Json.prop registry "latestVersion"))
      (JStr placeholder) in
  let gatewayReachable := Json.orDefault (Json.prop gateway "reachable") (JBool false) in
  match parseChannelSummary channelSummary with
  | None => None
  | Some activeChannels =>
      match Snapshot.lastHeartbeatOf pf sessions with
      | None => None
      | Some lastHeartbeat =>
          match Snapshot.findMain heartbeatAgents with
          | None => None
          | Some mainAgent =>
              Some {|
                version := version;
                uptime := osUptime pf;
                health := healthRule gatewayReachable activeChannels;
                activeChannels := activeChannels;
                lastHeartbeat := lastHeartbeat;
                memoryUsageMb := usedMemMb pf;
                totalMemMb' := totalMemMb pf;
                cpuPercent := cpuLoadPercent pf;
                memoryFiles := Json.orDefault (Json.prop memData "files") (JNum 0);
                memoryChunks := Json.orDefault (Json.prop memData "chunks") (JNum 0);
                memoryBackend := Json.orDefault (Json.prop memData "backend") (JStr "builtin");
                platform := Json.orDefault (Json.prop osData "label") (JStr (osPlatform pf));
                heartbeatEvery := Json.orDefault (Json.get mainAgent "every") (JStr placeholder);
                gatewayVersion := Json.orDefault (Json.prop gatewaySelf "version") (JStr placeholder);
                gatewayReachable := gatewayReachable
              |}
          end
      end
  end.

End StatusSummaryRoute.

(** ** Activity feed (src/app/api/activity/route.ts) *)

Module ActivityType.
Inductive t : Type := message | task | cron | heartbeat | memory | tool | error.

Definition name (x : t) : string :=
  match x with
  | message => "message" | task => "task" | cron => "cron"
  | heartbeat => "heartbeat" | memory => "memory" | tool => "tool"
  | error => "error"
  end.
End ActivityType.

Module ChannelType.
Inductive t : Type :=
  slack | discord | telegram | imessage | signal | terminal | api | cron | web.

Definition name (x : t) : string :=
  match x with
  | slack => "slack" | discord => "discord" | telegram => "telegram"
  | imessage => "imessage" | signal => "signal" | terminal => "terminal"
  | api => "api" | cron => "cron" | web => "web"
  end.
End ChannelType.

Module ActivityStatus.
Inductive t : Type := success | error | pending | running.
End ActivityStatus.

(** ** Numbers as [parseInt] returns them

    A query parameter read by [parseInt] is a whole number, [NaN] (no
    digits) or an infinity (a text of more digits than a double can
    hold).  Whole numbers are held as the integers they are, [-0] as
    [0], and their arithmetic is the exact one, which is that of the
    source for values below 2^53 in magnitude. *)
Module Num.

Inductive t : Type :=
| Int (z : Z)
| NaN
| Inf (negative : bool).

(** [a + b] *)
Definition add (a b : t) : t :=
  match a, b with
  | NaN, _ | _, NaN => NaN
  | Int x, Int y => Int (x + y)
  | Inf s, Int _ | Int _, Inf s => Inf s
  | Inf s, Inf s' => if Bool.eqb s s' then Inf s else NaN
  end.

(** [a - b] *)
Definition sub (a b : t) : t :=
  add a match b with
        | Int y => Int (- y)
        | NaN => NaN
        | Inf s => Inf (negb s)
        end.

(** [a * b]: zero times an infinity is [NaN]. *)
Definition mul (a b : t) : t :=
  match a, b with
  | NaN, _ | _, NaN => NaN
  | Int x, Int y => Int (x * y)
  | Inf s, Int y | Int y, Inf s =>
      if (y =? 0)%Z then NaN else Inf (xorb s (y <? 0)%Z)
  | Inf s, Inf s' => Inf (xorb s s')
  end.

(** [a < b]: false as soon as one side is [NaN]. *)
Definition ltb (a b : t) : bool :=
  match a, b with
  | NaN, _ | _, NaN => false
  | Int x, Int y => (x <? y)%Z
  | Int _, Inf s => negb s
  | Inf s, Int _ => s
  | Inf s, Inf s' => s && negb s'
  end.

(** [a <= b] *)
Definition leb (a b : t) : bool :=
  match a, b with
  | NaN, _ | _, NaN => false
  | Int x, Int y => (x <=? y)%Z
  | Int _, Inf s => negb s
  | Inf s, Int _ => s
  | Inf s, Inf s' => s || negb s'
  end.

End Num.

(** An instant, in milliseconds since the epoch. *)
Definition Time : Type := Z.

(** The [timestamp] of an entry is a text in the source.  It is
    represented by what the comparator of the sort reads from it
    through [new Date(ts).getTime()]: the instant it denotes, or, for a
    text that [Date] cannot read ([getTime] is then [NaN]), the text
    itself. *)
Inductive Stamp : Type :=
| At (t : Time)
| NotADate (text : string).

(** [new Date(ts).getTime()], [None] for [NaN]. *)
Definition instant (s : Stamp) : option Time :=
  match s with
  | At t => Some t
  | NotADate _ => None
  end.

Module ActivityRoute.

(** The values interpolated into the [details] text of an entry. *)
Inductive Details : Type :=
| SessionDetails (model : string) (tokens : Z)
    (* `Model: ${model} | Tokens: ${tokens.toLocaleString()}` *)
| CronDetails (schedule : string) (enabled : bool)
    (* `Schedule: ${schedule} | Enabled: ${enabled}` *)
| MemoryDetails (today : string).
    (* `Source: memory/${today}.md` *)

Record ActivityEntry : Type := {
  id : string;
  timestamp : Stamp;
  type : ActivityType.t;
  channel : ChannelType.t;
  summary : string;
  status : ActivityStatus.t;
  agentId : option string;
  tokensUsed : option Z;
  details : Details
}.

(** One element of [data.sessions], as the route declares it. *)
Record Session : Type := {
  key : string;
  kind : string;
  updatedAt : Z;
  sessionId : string;
  model : option string;
  totalTokens : option Z;
  inputTokens : option Z;
  outputTokens : option Z
}.

Record Schedule : Type := {
  schedKind : string;
  schedExpr : option string;
  schedEveryMs : option Z
}.

(** One element of [cronData.jobs], as the route declares it.
    [jobLastRunAt] is [None] when the field is absent, and otherwise
    the text of the field, held as [Stamp] holds a timestamp: the route
    declares it a text and copies it into the entry as it is. *)
Record CronJob : Type := {
  jobId : string;
  jobName : option string;
  jobEnabled : bool;
  jobSchedule : option Schedule;
  jobLastRunAt : option Stamp;
  jobLastRunStatus : option string
}.

(** [n || d] on an optional number. *)
Definition numOr (o : option Z) (d : Z) : Z :=
  match o with
  | Some n => if (n =? 0)%Z then d else n
  | None => d
  end.

(** [s || d] on an optional string. *)
Definition strOr (o : option string) (d : string) : string :=
  match o with
  | Some s => JS.orElse s d
  | None => d
  end.

(** [new Date(ms)] is a valid date within 8.64e15 ms of the epoch;
    [toISOString] throws [RangeError] otherwise. *)
Definition validTime (ms : Z) : bool := (Z.abs ms <=? 8640000000000000)%Z.

(** The classification of a session key: type, channel and summary. *)
Definition classify (key : string) : ActivityType.t * ChannelType.t * string :=
  if JS.includes key "cron" then
    let cronId :=
      strOr (option_map (JS.sliceTo 8) (nth_error (JS.split key "cron:") 1)) "unknown" in
    (ActivityType.cron, ChannelType.cron, ("Cron job " ++ cronId)%string)
  else if JS.includes key "spawn" then
    let label := strOr (nth_error (JS.split key "spawn:") 1) "subagent" in
    (ActivityType.task, ChannelType.terminal, ("Sub-agent: " ++ label)%string)
  else if JS.includes key "telegram" then
    (ActivityType.message, ChannelType.telegram, "Telegram conversation")
  else if JS.includes key "discord" then
    (ActivityType.message, ChannelType.discord, "Discord conversation")
  else if JS.includes key "imessage" then
    (ActivityType.message, ChannelType.imessage, "iMessage conversation")
  else if (key =? "agent:main:main")%string then
    (ActivityType.message, ChannelType.telegram, "Main session (Telegram)")
  else
    (ActivityType.message, ChannelType.terminal, ("Session: " ++ key)%string).

(** The entry pushed for one session (the body of the first loop). *)
Definition sessionEntry (sess : Session) : ActivityEntry :=
  let key := JS.orElse (key sess) "" in
  let '(type, channel, summary) := classify key in
  let tokens :=
    numOr (totalTokens sess)
          (numOr (inputTokens sess) 0 + numOr (outputTokens sess) 0)%Z in
  {| id := JS.orElse (sessionId sess) key;
     timestamp := At (updatedAt sess);
     type := type;
     channel := channel;
     summary := summary;
     status := ActivityStatus.success;
     agentId :=
       if JS.includes key "agent:main" then Some "main"
       else nth_error (JS.split key ":") 1;
     tokensUsed := if (tokens =? 0)%Z then None else Some tokens;
     details := SessionDetails (strOr (model sess) "unknown") tokens |}.

(** The first loop.  It stands in a [try]: the first session whose date
    cannot be rendered ends it, and the entries pushed so far remain. *)
Fixpoint sessionEntries (sessions : list Session) : list ActivityEntry :=
  match sessions with
  | [] => []
  | sess :: rest =>
      if validTime (updatedAt sess)
      then sessionEntry sess :: sessionEntries rest
      else []
  end.

(** [job.lastRunAt] where it is truthy: a text that is not empty (a
    text that [Date] reads is never empty). *)
Definition lastRunOf (job : CronJob) : option Stamp :=
  match jobLastRunAt job with
  | Some (At t) => Some (At t)
  | Some (NotADate text) => if JS.nonEmpty text then Some (NotADate text) else None
  | None => None
  end.

Definition cronEntry (job : CronJob) (lastRunAt : Stamp) : ActivityEntry :=
  {| id := ("cron_" ++ jobId job)%string;
     timestamp := lastRunAt;
     type := ActivityType.cron;
     channel := ChannelType.cron;
     summary := ("Cron: " ++ strOr (jobName job) (jobId job))%string;
     status :=
       match jobLastRunStatus job with
       | Some s => if (s =? "error")%string then ActivityStatus.error
                   else ActivityStatus.success
       | None => ActivityStatus.success
       end;
     agentId := None;
     tokensUsed := None;
     details :=
       CronDetails
         (match jobSchedule job with
          | Some sc => JS.orElse (strOr (schedExpr sc) (schedKind sc)) "unknown"
          | None => "unknown"
          end)
         (jobEnabled job) |}.

(** The second loop: one entry for each job with a recorded last run,
    whose text becomes the timestamp as it is. *)
Fixpoint cronEntries (jobs : list CronJob) : list ActivityEntry :=
  match jobs with
  | [] => []
  | job :: rest =>
      match lastRunOf job with
      | Some t => cronEntry job t :: cronEntries rest
      | None => cronEntries rest
      end
  end.

Definition newline : string := String (ascii_of_nat 10) EmptyString.

(** [l.startsWith('## ') || l.startsWith('### ')] *)
Definition isHeading (l : string) : bool :=
  JS.startsWith l "## " || JS.startsWith l "### ".

(** [content.split('\n').filter(...)] *)
Definition headingLines (content : string) : list string :=
  filter isHeading (JS.split content newline).

(** [line.replace(/^#+\s*/, '')] *)
Definition stripHashes (line : string) : string :=
  match line with
  | String "#" _ =>
      JS.dropWhile JS.is_space
        (JS.dropWhile (fun c => (JS.code c =? 35)%nat) line)
  | _ => line
  end.

Definition memoryEntry (today : string) (i : nat) (line : string) (now : Time)
  : ActivityEntry :=
  {| id := ("mem_" ++ today ++ "_" ++ JS.natToString i)%string;
     timestamp := At now;
     type := ActivityType.memory;
     channel := ChannelType.terminal;
     summary := ("Memory: " ++ stripHashes line)%string;
     status := ActivityStatus.success;
     agentId := None;
     tokensUsed := None;
     details := MemoryDetails today |}.

(** The body of the third loop for [i = start, start + 1, ...] over the
    lines still to visit; [clock i] is the instant [new Date()] returns
    in iteration [i]. *)
Fixpoint memoryLoop (today : string) (clock : nat -> Time) (i : nat)
    (lines : list string) : list ActivityEntry :=
  match lines with
  | [] => []
  | line :: rest =>
      memoryEntry today i line (clock i) :: memoryLoop today clock (S i) rest
  end.

(** The third block.  [todayFile] is the content of the note of the
    day, [None] when the file does not exist or cannot be read.  The
    loop runs for [i < Math.min(lines.length, 5)]. *)
Definition memoryEntries (today : string) (todayFile : option string)
    (clock : nat -> Time) : list ActivityEntry :=
  match todayFile with
  | None => []
  | Some content =>
      let lines := headingLines content in
      memoryLoop today clock 0 (firstn (Nat.min (List.length lines) 5) lines)
  end.

(** The comparator of the sort, [time(b) - time(a)]; [None] is [NaN]. *)
Definition compare (a b : ActivityEntry) : option Z :=
  match instant (timestamp b), instant (timestamp a) with
  | Some tb, Some ta => Some (tb - ta)%Z
  | _, _ => None
  end.

(** The timestamp of an entry can be read as a date. *)
Definition dated (e : ActivityEntry) : bool :=
  match timestamp e with
  | At _ => true
  | NotADate _ => false
  end.

(** [e] stays before [y]: the comparator does not put [y] first. *)
Definition staysBefore (e y : ActivityEntry) : bool :=
  match compare e y with
  | Some d => (d <=? 0)%Z
  | None => true
  end.

(** The stable arrangement by descending instant, by insertion from the
    right. *)
Fixpoint insertDesc (e : ActivityEntry) (l : list ActivityEntry) : list ActivityEntry :=
  match l with
  | [] => [e]
  | y :: r =>
      if staysBefore e y then e :: l
      else y :: insertDesc e r
  end.

Fixpoint stableDesc (l : list ActivityEntry) : list ActivityEntry :=
  match l with
  | [] => []
  | e :: r => insertDesc e (stableDesc r)
  end.

(** What the engine does with an array whose comparator is not
    consistent: the order it leaves, as the list of the positions taken
    in turn, from the instants the comparator reads. *)
Definition Engine : Type := list (option Time) -> list nat.

(** An order names every position from 0 to [n - 1] once. *)
Definition validOrder (order : list nat) (n : nat) : bool :=
  (List.length order =? n)%nat
  && forallb (fun i => existsb (Nat.eqb i) order) (seq 0 n).

Definition pick {A} (l : list A) (i : nat) : list A :=
  match nth_error l i with
  | Some x => [x]
  | None => []
  end.

(** The elements in the order given; an order that is none leaves the
    list as it is. *)
Definition arrange {A} (order : list nat) (l : list A) : list A :=
  if validOrder order (List.length l) then flat_map (pick l) order else l.

(** [entries.sort((a, b) => time(b) - time(a))].  When every timestamp
    can be read as a date the comparator is consistent and the sort,
    which is stable, has one result: the stable arrangement by
    descending instant.  As soon as one cannot, the comparator returns
    [NaN], it is not consistent, and the language leaves the order to
    the engine: the result is some arrangement of the entries. *)
Definition sortDesc (engine : Engine) (l : list ActivityEntry) : list ActivityEntry :=
  if forallb dated l then stableDesc l
  else arrange (engine (map (fun e => instant (timestamp e)) l)) l.

(** The filter with the [seen] set. *)
Fixpoint dedupeFrom (seen : list string) (l : list ActivityEntry) : list ActivityEntry :=
  match l with
  | [] => []
  | e :: r =>
      if existsb (String.eqb (id e)) seen then dedupeFrom seen r
      else e :: dedupeFrom (id e :: seen) r
  end.

Definition dedupe (l : list ActivityEntry) : list ActivityEntry := dedupeFrom [] l.

(** Merge and finalise: what [getSessionActivity] computes on a cache
    miss from the entries of its three sources. *)
Definition normalize (engine : Engine)
    (fromSessions fromCron fromMemory : list ActivityEntry)
  : list ActivityEntry :=
  dedupe (sortDesc engine (fromSessions ++ fromCron ++ fromMemory)).



Definition CACHE_TTL : Z := 3000.


(** The query parameters of [GET]: [qType], [qChannel] and [qSearch] are
    what [searchParams.get] returns ([None] for [null]); [page] and
    [pageSize] are the numbers [parseInt] returns. *)
Record Query : Type := {
  qType : option string;
  qChannel : option string;
  qSearch : option string;
  page : Num.t;
  pageSize : Num.t
}.

Record Page : Type := {
  items : list ActivityEntry;
  total : Z;
  pageNo : Num.t;
  pageLen : Num.t;
  hasMore : bool
}.

(** [if (p) entries = entries.filter(f)]: a parameter that is absent or
    empty filters nothing. *)
Definition filterIf (p : option string) (f : string -> ActivityEntry -> bool)
    (entries : list ActivityEntry) : list ActivityEntry :=
  match p with
  | Some s => if JS.nonEmpty s then filter (f s) entries else entries
  | None => entries
  end.

Definition typeIs (t : string) (e : ActivityEntry) : bool :=
  (ActivityType.name (type e) =? t)%string.

Definition channelIs (c : string) (e : ActivityEntry) : bool :=
  (ChannelType.name (channel e) =? c)%string.

(** The predicate of the search filter; [search] is already in lower
    case. *)
Definition searchHit (search : string) (e : ActivityEntry) : bool :=
  JS.includes (JS.toLowerCase (summary e)) search
  || JS.includes (ActivityType.name (type e)) search
  || match agentId e with
     | Some a => JS.includes (JS.toLowerCase a) search
     | None => false
     end.

(** The position a bound of [slice] stands for in an array of length
    [len]: [NaN] is read as 0, a negative bound counts from the end, a
    bound past the end stops at the end. *)
Definition position (len : Z) (bound : Num.t) : Z :=
  match bound with
  | Num.NaN => 0
  | Num.Int z => if (z <? 0)%Z then Z.max (len + z) 0 else Z.min z len
  | Num.Inf true => 0
  | Num.Inf false => len
  end.

(** [arr.slice(start, end)]; an empty range gives the empty array. *)
Definition slice {A} (l : list A) (from to : Num.t) : list A :=
  let len := Z.of_nat (List.length l) in
  let k := position len from in
  let fin := position len to in
  firstn (Z.to_nat (fin - k)) (skipn (Z.to_nat k) l).

(** The body of [GET] over the feed [getSessionActivity] returned. *)
Definition query (feed : list ActivityEntry) (q : Query) : Page :=
  let search := option_map JS.toLowerCase (qSearch q) in
  let entries := filterIf (qType q) typeIs feed in
  let entries := filterIf (qChannel q) channelIs entries in
  let entries := filterIf search searchHit entries in
  let total := Z.of_nat (List.length entries) in
  let start := Num.mul (Num.sub (page q) (Num.Int 1)) (pageSize q) in
  {| items := slice entries start (Num.add start (pageSize q));
     total := total;
     pageNo := page q;
     pageLen := pageSize q;
     hasMore := Num.ltb (Num.add start (pageSize q)) (Num.Int total) |}.

End ActivityRoute.

(** ** Cron summaries of the system route
    (src/app/api/system/route.ts and src/unnamed/part_002) *)

Module SystemRoute.

Record JobSchedule : Type := {
  kind : string;
  expr : string;
  tz : option string
}.

(** [job.state]; [null] and a missing field are both [None]. *)
Record JobState : Type := {
  lastRunAtMs : option Z;
  nextRunAtMs : option Z;
  stLastStatus : option string;
  lastDurationMs : option Z;
  stConsecutiveErrors : option Z
}.

(** One element of [cronData.jobs], as the route declares it. *)
Record Job : Type := {
  jobId : string;
  jobName : string;
  jobEnabled : bool;
  jobSchedule : option JobSchedule;
  jobState : option JobState;
  jobMessage : option string       (* job.payload?.message *)
}.

Record HeartbeatAgent : Type := {
  agentId : string;
  agentEnabled : bool;
  every : string;
  everyMs : option Z
}.

(** One element of the derived [cronJobs]; [lastRun] and [nextRun] are
    the instants whose ISO text the source stores, [None] for [null]. *)
Record CronJobSummary : Type := {
  id : string;
  name : string;
  schedule : string;
  description : string;
  lastRun : option Time;
  nextRun : option Time;
  lastStatus : string;
  totalRuns : Z;
  successRate : Z;
  enabled : bool;
  consecutiveErrors : Z
}.

Definition emptyState : JobState :=
  {| lastRunAtMs := None; nextRunAtMs := None; stLastStatus := None;
     lastDurationMs := None; stConsecutiveErrors := None |}.

(** [state.consecutiveErrors === 0 ? 100
      : Math.max(0, 100 - (state.consecutiveErrors ?? 0) * 20)] *)
Definition successRateOf (consecutiveErrors : option Z) : Z :=
  match consecutiveErrors with
  | Some 0%Z => 100
  | _ =>
      Z.max 0 (100 - (match consecutiveErrors with Some n => n | None => 0 end) * 20)
  end.

(** [ms ? new Date(ms).toISOString() : null]; the outer [None] is the
    [RangeError] of a date out of range. *)
Definition isoOrNull (ms : option Z) : option (option Time) :=
  match ms with
  | None => Some None
  | Some t =>
      if (t =? 0)%Z then Some None
      else if ActivityRoute.validTime t then Some (Some t)
      else None
  end.

(** The function mapped over [cronData.jobs]. *)
Definition summarize (job : Job) : option CronJobSummary :=
  let state := match jobState job with Some s => s | None => emptyState end in
  let scheduleExpr :=
    match jobSchedule job with
    | Some sc => if (kind sc =? "cron")%string then expr sc else kind sc
    | None => "manual"
    end in
  let lastStatus :=
    match stLastStatus state with
    | Some s => if (s =? "ok")%string then "success" else s
    | None => "unknown"
    end in
  let description := match jobMessage job with Some m => m | None => "" end in
  match isoOrNull (lastRunAtMs state), isoOrNull (nextRunAtMs state) with
  | Some lastRun, Some nextRun =>
      Some {|
        id := jobId job;
        name := jobName job;
        schedule := scheduleExpr;
        description := JS.sliceTo 120 description;
        lastRun := lastRun;
        nextRun := nextRun;
        lastStatus := lastStatus;
        totalRuns := 0;
        successRate := successRateOf (stConsecutiveErrors state);
        enabled := jobEnabled job;
        consecutiveErrors :=
          match stConsecutiveErrors state with Some n => n | None => 0%Z end
      |}
  | _, _ => None
  end.

(** [jobs.map(...)]: it throws as soon as one job does. *)
Fixpoint summarizeAll (jobs : list Job) : option (list CronJobSummary) :=
  match jobs with
  | [] => Some []
  | job :: rest =>
      match summarize job, summarizeAll rest with
      | Some s, Some l => Some (s :: l)
      | _, _ => None
      end
  end.

Definition heartbeatJob (a : HeartbeatAgent) : CronJobSummary :=
  {| id := ("heartbeat-" ++ agentId a)%string;
     name := ("Heartbeat (" ++ agentId a ++ ")")%string;
     schedule := ("every " ++ every a)%string;
     description := "Periodic health check and context update";
     lastRun := None;
     nextRun := None;
     lastStatus := "unknown";
     totalRuns := 0;
     successRate := 100;
     enabled := true;
     consecutiveErrors := 0 |}.

(** The body of the [forEach]: push the synthetic job unless a job of
    that id is already in [cronJobs]. *)
Definition addHeartbeat (cronJobs : list CronJobSummary) (a : HeartbeatAgent)
  : list CronJobSummary :=
  if existsb (fun j => (id j =? "heartbeat-" ++ agentId a)%string) cronJobs
  then cronJobs
  else cronJobs ++ [heartbeatJob a].

(** The [cronJobs] of [buildSystemData]; [None] when a date of a job
    state is out of range. *)
Definition cronJobs (jobs : list Job) (heartbeatAgents : list HeartbeatAgent)
  : option (list CronJobSummary) :=
  option_map
    (fun mapped => fold_left addHeartbeat (filter agentEnabled heartbeatAgents) mapped)
    (summarizeAll jobs).

End SystemRoute.

(** ** Redaction of the config route (src/unnamed/part_003) *)

Module ConfigRoute.

Definition REDACTED : string := "[REDACTED]".

(** The alternatives of the two patterns. *)
Definition valueTerms : list string :=
  ["token"; "secret"; "key"; "password"; "auth"; "bearer"; "credential"].

Definition keyTerms : list string :=
  ["token"; "secret"; "key"; "password"; "auth"; "bearer"; "credential"; "apikey"].

(** [/t1|t2|.../i.test(s)] *)
Definition testTerms (terms : list string) (s : string) : bool :=
  existsb (JS.includes (JS.fold_case s)) terms.

(** One character of the class [[0-9a-f]] under the [i] flag. *)
Definition isHexChar (c : ascii) : bool :=
  JS.is_digit c || JS.between 97 102 (JS.fold_char c).

Fixpoint allChars (p : ascii -> bool) (s : string) : bool :=
  match s with
  | EmptyString => true
  | String c t => p c && allChars p t
  end.

(** [/^[0-9a-f]{20,}$/i.test(s)] *)
Definition testLongHex (s : string) : bool :=
  (20 <=? String.length s)%nat && allChars isHexChar s.

Definition redactString (value : string) : string :=
  if testTerms valueTerms value && (8 <? String.length value)%nat then REDACTED
  else if testLongHex value then REDACTED
  else value.

(** [result[k] = x] on the object under construction.  Keys arrive
    pairwise distinct, so an assignment adds an entry, except for the
    key [__proto__]: that assignment reaches the accessor inherited
    from [Object.prototype] and adds no own entry. *)
Definition assignOwn (k : string) (x : json) (rest : list (string * json))
  : list (string * json) :=
  if (k =? "__proto__")%string then rest else (k, x) :: rest.

Fixpoint redact (value : json) : json :=
  match value with
  | JStr s => JStr (redactString s)
  | JArr l => JArr (map redact l)
  | JObj l =>
      JObj ((fix entries (l : list (string * json)) : list (string * json) :=
               match l with
               | [] => []
               | (k, v) :: r =>
                   assignOwn k
                     (if testTerms keyTerms k then JStr REDACTED else redact v)
                     (entries r)
               end) l)
  | JNull | JBool _ | JNum _ => value
  end.

(** The loop over [Object.entries(value)], named for the statements. *)
Fixpoint redactEntries (l : list (string * json)) : list (string * json) :=
  match l with
  | [] => []
  | (k, v) :: r =>
      assignOwn k (if testTerms keyTerms k then JStr REDACTED else redact v)
        (redactEntries r)
  end.

End ConfigRoute.

(** ** Notions of the written specification, and sample inputs *)

Module Spec.

(** The gateway is reachable: the flag of the status snapshot, [false]
    when absent. *)
Definition reachable (statusData : option json) : bool :=
  Json.truthy
    (Json.orDefault (Json.prop (Json.section statusData "gateway") "reachable")
                    (JBool false)).

(** The channels object of a health snapshot, and its flags. *)
Definition channelsOf (healthData : option json) : json :=
  Json.section healthData "channels".

Definition configured (channels : json) (name : string) : bool :=
  Json.truthyOpt (Json.get (Json.prop channels name) "configured").

(** [a] is not earlier than [b]: both timestamps are dates, and the
    instant of [b] is not after that of [a]. *)
Definition notEarlier (a b : ActivityRoute.ActivityEntry) : Prop :=
  match instant (ActivityRoute.timestamp a), instant (ActivityRoute.timestamp b) with
  | Some ta, Some tb => (tb <= ta)%Z
  | _, _ => False
  end.

(** The feed is sorted by timestamp, latest first. *)
Definition descending (l : list ActivityRoute.ActivityEntry) : Prop :=
  StronglySorted notEarlier l.

(** Every timestamp can be read as a date. *)
Definition allDated (l : list ActivityRoute.ActivityEntry) : Prop :=
  Forall (fun e => ActivityRoute.dated e = true) l.

Definition sameId (e x : ActivityRoute.ActivityEntry) : bool :=
  (ActivityRoute.id x =? ActivityRoute.id e)%string.


(** Deduplication by [id] keeping the first occurrence: an entry stays,
    and every later entry of the same [id] goes. *)
Fixpoint keepFirst (l : list ActivityRoute.ActivityEntry)
  : list ActivityRoute.ActivityEntry :=
  match l with
  | [] => []
  | e :: r => e :: filter (fun x => negb (sameId e x)) (keepFirst r)
  end.

(** A filter parameter: absent or empty it constrains nothing, otherwise
    the field must equal it. *)
Definition wanted (p : option string) (actual : string) : bool :=
  match p with
  | Some s => if JS.nonEmpty s then (actual =? s)%string else true
  | None => true
  end.

(** The search matches when the text, in lower case, occurs in the
    summary, the type or the agent id, each in lower case. *)
Definition searchMatch (search : option string) (e : ActivityRoute.ActivityEntry)
  : bool :=
  match search with
  | Some s =>
      if JS.nonEmpty s then
        let needle := JS.toLowerCase s in
        JS.includes (JS.toLowerCase (ActivityRoute.summary e)) needle
        || JS.includes (JS.toLowerCase (ActivityType.name (ActivityRoute.type e))) needle
        || match ActivityRoute.agentId e with
           | Some a => JS.includes (JS.toLowerCase a) needle
           | None => false
           end
      else true
  | None => true
  end.

(** The conjunctive filter of a query. *)
Definition matches (q : ActivityRoute.Query) (e : ActivityRoute.ActivityEntry) : bool :=
  wanted (ActivityRoute.qType q) (ActivityType.name (ActivityRoute.type e))
  && wanted (ActivityRoute.qChannel q) (ChannelType.name (ActivityRoute.channel e))
  && searchMatch (ActivityRoute.qSearch q) e.

(** The success rate as a function of the count of consecutive errors. *)
Definition rateOfErrors (n : Z) : Z := Z.max 0 (100 - 20 * n).

(** The count of consecutive errors of a cron job record: that of its
    state, zero when the state or the count is missing. *)
Definition errorCount (job : SystemRoute.Job) : Z :=
  match SystemRoute.jobState job with
  | Some st =>
      match SystemRoute.stConsecutiveErrors st with
      | Some n => n
      | None => 0%Z
      end
  | None => 0%Z
  end.

(** The sensitive terms of the redaction. *)
Definition sensitiveTerms : list string :=
  ["token"; "secret"; "key"; "password"; "auth"; "bearer"; "credential"; "apikey"].

(** A text contains a sensitive term: with its letters A-Z read as a-z,
    some term occurs in it. *)
Definition containsTerm (s : string) : Prop :=
  exists term pre post,
    In term sensitiveTerms /\ JS.fold_case s = (pre ++ term ++ post)%string.

(** Hexadecimal digits, in lower case only and in either case. *)
Definition lowerHexDigit (c : ascii) : bool :=
  JS.is_digit c || JS.between 97 102 c.

Definition hexDigit (c : ascii) : bool :=
  JS.is_digit c || JS.between 97 102 c || JS.between 65 70 c.

Definition pureLowerHex (s : string) : bool := ConfigRoute.allChars lowerHexDigit s.
Definition pureHex (s : string) : bool := ConfigRoute.allChars hexDigit s.

(** The strings the content heuristics catch. *)
Definition caughtByContent (s : string) : Prop :=
  (8 < String.length s /\ containsTerm s)
  \/ (20 <= String.length s /\ pureHex s = true).

(** An entry of a redacted mapping against the entry it comes from. *)
Definition redactedEntry (kv kv' : string * json) : Prop :=
  fst kv' = fst kv
  /\ (containsTerm (fst kv) -> snd kv' = JStr ConfigRoute.REDACTED)
  /\ (~ containsTerm (fst kv) -> snd kv' = ConfigRoute.redact (snd kv)).

(** What the two bridge calls of the status route return. *)
Definition statusOf (pf : Platform) (exec : string -> ExecOutcome) : option json :=
  Bridge.runCLI (jsonParse pf) (exec "openclaw status --json").

Definition healthOf (pf : Platform) (exec : string -> ExecOutcome) : option json :=
  Bridge.runCLI (jsonParse pf) (exec "openclaw health --json").

(** The entry of the status cache, if any, is past its time to live. *)
Definition expired (cache : option StatusRoute.CacheEntry) (now : Z) : Prop :=
  forall c, cache = Some c -> (StatusRoute.CACHE_TTL <= now - StatusRoute.ts c)%Z.


(** An entry whose [id] is not in the seen set. *)
Definition unseen (seen : list string) (x : ActivityRoute.ActivityEntry) : bool :=
  negb (existsb (String.eqb (ActivityRoute.id x)) seen).

(** A normalised feed: descending, with unique [id]s. *)
Definition feedOk (l : list ActivityRoute.ActivityEntry) : Prop :=
  descending l /\ NoDup (map ActivityRoute.id l).

(** A summary whose rate is the function of its count. *)
Definition rated (s : SystemRoute.CronJobSummary) : Prop :=
  SystemRoute.successRate s = rateOfErrors (SystemRoute.consecutiveErrors s).





End Spec.

Module Samples.

Definition quote : string := String (ascii_of_nat 34) EmptyString.

(** The text [{"gatewayService":{"runtimeShort":5}}]. *)
Definition badStatusText : string :=
  ("{" ++ quote ++ "gatewayService" ++ quote ++ ":{"
       ++ quote ++ "runtimeShort" ++ quote ++ ":5}}")%string.

Definition badStatus : json :=
  JObj [("gatewayService", JObj [("runtimeShort", JNum 5)])].

(** A parser that knows the empty object and the empty array. *)
Definition parseTiny (s : string) : option json :=
  if (s =? "{}")%string then Some (JObj [])
  else if (s =? "[]")%string then Some (JArr [])
  else None.

(** A parser that knows one text. *)
Definition parseOne (text : string) (tree : json) (s : string) : option json :=
  if (s =? text)%string then Some tree else None.

Definition host (parse : string -> option json) : Platform :=
  {| processUptime := 120;
     osUptime := 86400;
     usedMemMb := 2048;
     totalMemMb := 8192;
     cpuLoadPercent := 12;
     osPlatform := "linux";
     nowISO := "2026-02-18T10:00:00.000Z";
     dateISO := fun _ => Some "2026-02-18T09:59:00.000Z";
     jsonParse := parse |}.

Definition pf : Platform := host (parseOne badStatusText badStatus).

(** A status snapshot with the gateway down, and one with it up. *)
Definition gatewayDown : option json :=
  Some (JObj [("gateway", JObj [("reachable", JBool false)]);
              ("channelSummary", JArr [JStr "Telegram: configured"])]).

Definition gatewayUp : option json :=
  Some (JObj [("gateway", JObj [("reachable", JBool true)]);
              ("channelSummary", JArr [JStr "Telegram: configured"])]).

(** A health snapshot whose only channel probes ok. *)
Definition oneChannelOk : option json :=
  Some (JObj [("channels",
               JObj [("telegram",
                      JObj [("configured", JBool true);
                            ("probe", JObj [("ok", JBool true)])])])]).

(** A health snapshot whose only channel is configured and fails its
    probe. *)
Definition oneChannelFailing : option json :=
  Some (JObj [("channels",
               JObj [("telegram",
                      JObj [("configured", JBool true);
                            ("probe", JObj [("ok", JBool false);
                                            ("error", JStr "timeout")])])])]).

(** A health snapshot with one configured channel that probes ok and
    one channel that is neither configured nor probed. *)
Definition oneOkOneUnconfigured : option json :=
  Some (JObj [("channels",
               JObj [("telegram",
                      JObj [("configured", JBool true);
                            ("probe", JObj [("ok", JBool true)])]);
                     ("discord", JObj [("configured", JBool false)])])]).

(** An entry left in the cache of the status route by an earlier call. *)
Definition lastGood : StatusRoute.CacheEntry :=
  {| StatusRoute.data :=
       {| StatusRoute.version := JStr "2026.2.1";
          StatusRoute.uptime := 60;
          StatusRoute.health := healthy;
          StatusRoute.activeChannels := ["telegram"];
          StatusRoute.lastHeartbeat := "2026-02-18T09:00:00.000Z";
          StatusRoute.memoryUsageMb := 2000;
          StatusRoute.cpuPercent := 10;
          StatusRoute.memoryFiles := JNum 3;
          StatusRoute.memoryChunks := JNum 40;
          StatusRoute.memoryBackend := JStr "builtin";
          StatusRoute.platform := JStr "linux";
          StatusRoute.heartbeatEvery := JStr "30m";
          StatusRoute.gatewayVersion := JStr "2026.2.1";
          StatusRoute.gatewayReachable := JBool true |};
     StatusRoute.ts := 1000 |}.

(** Two session records of one session id, updated at two instants,
    and a job with a recorded run. *)
Definition sessionAt (updatedAt : Z) : ActivityRoute.Session :=
  {| ActivityRoute.key := "agent:main:main";
     ActivityRoute.kind := "direct";
     ActivityRoute.updatedAt := updatedAt;
     ActivityRoute.sessionId := "sess-1";
     ActivityRoute.model := Some "sonnet";
     ActivityRoute.totalTokens := Some 1200%Z;
     ActivityRoute.inputTokens := None;
     ActivityRoute.outputTokens := None |}.

Definition nightlyJob : ActivityRoute.CronJob :=
  {| ActivityRoute.jobId := "nightly";
     ActivityRoute.jobName := Some "Nightly digest";
     ActivityRoute.jobEnabled := true;
     ActivityRoute.jobSchedule := None;
     ActivityRoute.jobLastRunAt := Some (At 1500%Z);
     ActivityRoute.jobLastRunStatus := Some "ok" |}.

(** A job whose last run is recorded by a text that is no date, and a
    job that ran at a later instant. *)
Definition undatedJob : ActivityRoute.CronJob :=
  {| ActivityRoute.jobId := "nightly";
     ActivityRoute.jobName := None;
     ActivityRoute.jobEnabled := true;
     ActivityRoute.jobSchedule := None;
     ActivityRoute.jobLastRunAt := Some (NotADate "yesterday");
     ActivityRoute.jobLastRunStatus := None |}.

Definition lateJob : ActivityRoute.CronJob :=
  {| ActivityRoute.jobId := "late";
     ActivityRoute.jobName := None;
     ActivityRoute.jobEnabled := true;
     ActivityRoute.jobSchedule := None;
     ActivityRoute.jobLastRunAt := Some (At 3000%Z);
     ActivityRoute.jobLastRunStatus := None |}.

(** An engine that leaves an array with an inconsistent comparator as
    it is. *)
Definition keepOrder : ActivityRoute.Engine :=
  fun instants => seq 0 (List.length instants).

(** An engine that reverses such an array. *)
Definition reverseOrder : ActivityRoute.Engine :=
  fun instants => rev (seq 0 (List.length instants)).

(** A small feed and a query for its cron entries. *)
Definition smallFeed : list ActivityRoute.ActivityEntry :=
  ActivityRoute.normalize keepOrder
    (ActivityRoute.sessionEntries [sessionAt 1000; sessionAt 2000])
    (ActivityRoute.cronEntries [nightlyJob]) [].

Definition cronQuery : ActivityRoute.Query :=
  {| ActivityRoute.qType := Some "cron";
     ActivityRoute.qChannel := None;
     ActivityRoute.qSearch := Some "NIGHT";
     ActivityRoute.page := Num.Int 1;
     ActivityRoute.pageSize := Num.Int 25 |}.

(** A note of the day with six section titles. *)
Definition sixHeadings : string :=
  String.concat ActivityRoute.newline
    ["# Notes"; "## A"; "## B"; "### C"; "## D"; "## E"; "## F"].

(** Two jobs, the second with more consecutive errors, and an agent
    with the heartbeat on. *)
Definition jobWithErrors (name : string) (errors : option Z) : SystemRoute.Job :=
  {| SystemRoute.jobId := name;
     SystemRoute.jobName := name;
     SystemRoute.jobEnabled := true;
     SystemRoute.jobSchedule := None;
     SystemRoute.jobState :=
       Some {| SystemRoute.lastRunAtMs := Some 1000%Z;
               SystemRoute.nextRunAtMs := None;
               SystemRoute.stLastStatus := Some "ok";
               SystemRoute.lastDurationMs := None;
               SystemRoute.stConsecutiveErrors := errors |};
     SystemRoute.jobMessage := None |}.

Definition mainHeartbeat : SystemRoute.HeartbeatAgent :=
  {| SystemRoute.agentId := "main";
     SystemRoute.agentEnabled := true;
     SystemRoute.every := "30m";
     SystemRoute.everyMs := Some 1800000%Z |}.

(** A security section with a flagged key, a plain key, a raw token in
    upper case and a nested list. *)
Definition securityAudit : json :=
  JObj [("apiKey", JStr "abc123");
        ("hostname", JStr "box1");
        ("fingerprint", JStr "ABCDEF0123456789ABCD");
        ("notes", JArr [JStr "rotate the password soon"; JNum 3])].

(** Standard output with a diagnostic line before the payload. *)
Definition noisy : string :=
  ("Doctor warnings: 1" ++ String (ascii_of_nat 10) "{}")%string.

End Samples.

(** ** Token usage of the system route
    ([tokenUsage] in [buildSystemData], src/unnamed/part_002) *)

Module TokenUsage.

(** The numbers of the source are doubles.  A token count is a whole
    number, held as the integer it is; [round z] is the double nearest
    to the integer [z], the one with the even mantissa when two are as
    near: every integer up to 2^53 in magnitude is a double, above it
    only the multiples of a power of two are. *)
Definition round (z : Z) : Z :=
  let a := Z.abs z in
  if (a <=? 2 ^ 53)%Z then z
  else
    let e := (Z.log2 a - 52)%Z in
    let q := (a / 2 ^ e)%Z in
    let r := (a mod 2 ^ e)%Z in
    let half := (2 ^ (e - 1))%Z in
    let q' :=
      if (r <? half)%Z then q
      else if (half <? r)%Z then (q + 1)%Z
      else if Z.even q then q else (q + 1)%Z in
    (Z.sgn z * (q' * 2 ^ e))%Z.

(** [a + b] on doubles that hold whole numbers (sums stay far below
    the largest double). *)
Definition plus (a b : Z) : Z := round (a + b).

(** One element of [sessionsData.sessions], as the route declares it;
    an absent or [null] field is [None]. *)
Record UsageSession : Type := {
  sModel : option string;
  inputTokens : option Z;
  outputTokens : option Z;
  totalTokens : option Z
}.

(** One value of [byModelMap]. *)
Record ModelUsage : Type := {
  model : string;
  input : Z;
  output : Z;
  total : Z;
  sessions : Z
}.

Record Totals : Type := {
  totalInput : Z;
  totalOutput : Z;
  totalBoth : Z;      (* totals.total *)
  totalSessions : Z   (* totals.sessions *)
}.

Record Usage : Type := {
  byModel : list ModelUsage;
  totals : Totals
}.

(** [n ?? d] *)
Definition orNum (o : option Z) (d : Z) : Z :=
  match o with Some n => n | None => d end.

(** [prev = byModelMap.get(model) ?? { model, 0, 0, 0, 0 }], the four
    additions, and [byModelMap.set(model, prev)]: the entry of a known
    model is updated where it stands, a new model goes to the end.  The
    count of sessions is exact: an array holds fewer than 2^32
    elements. *)
Fixpoint record (m : list ModelUsage) (name : string) (inp out tot : Z)
  : list ModelUsage :=
  match m with
  | [] =>
      [{| model := name; input := plus 0 inp; output := plus 0 out;
          total := plus 0 tot; sessions := 0 + 1 |}]
  | u :: r =>
      if (model u =? name)%string
      then {| model := name; input := plus (input u) inp;
              output := plus (output u) out;
              total := plus (total u) tot; sessions := sessions u + 1 |} :: r
      else u :: record r name inp out tot
  end.

(** The body of the loop over [sessionsList], on the state
    (map, totalInput, totalOutput). *)
Definition step (st : list ModelUsage * Z * Z) (s : UsageSession)
  : list ModelUsage * Z * Z :=
  let '(m, totalIn, totalOut) := st in
  let name := match sModel s with Some n => n | None => "unknown" end in
  let inp := orNum (inputTokens s) 0 in
  let out := orNum (outputTokens s) 0 in
  let tot := match totalTokens s with Some t => t | None => plus inp out end in
  (record m name inp out tot, plus totalIn inp, plus totalOut out).

(** [[...byModelMap.values()].sort((a, b) => b.total - a.total)]: the
    stable arrangement by descending total (the difference of two
    doubles has the sign of the exact difference). *)
Fixpoint insertByTotal (u : ModelUsage) (l : list ModelUsage) : list ModelUsage :=
  match l with
  | [] => [u]
  | y :: r =>
      if (total y <=? total u)%Z then u :: l
      else y :: insertByTotal u r
  end.

Fixpoint sortByTotal (l : list ModelUsage) : list ModelUsage :=
  match l with
  | [] => []
  | u :: r => insertByTotal u (sortByTotal r)
  end.

Definition tokenUsage (sessionsList : list UsageSession) : Usage :=
  let '(m, totalIn, totalOut) := fold_left step sessionsList ([], 0%Z, 0%Z) in
  {| byModel := sortByTotal m;
     totals := {| totalInput := totalIn;
                  totalOutput := totalOut;
                  totalBoth := plus totalIn totalOut;
                  totalSessions := Z.of_nat (List.length sessionsList) |} |}.

(** The exact sum of a column of [byModel]. *)
Definition sumOf (f : ModelUsage -> Z) (l : list ModelUsage) : Z :=
  fold_right (fun u acc => (f u + acc)%Z) 0%Z l.

(** The total a session counts for, [totalTokens] where present and
    input plus output otherwise, as an exact number. *)
Definition sessionTotal (s : UsageSession) : Z :=
  orNum (totalTokens s) (orNum (inputTokens s) 0 + orNum (outputTokens s) 0).

Definition sessionModel (s : UsageSession) : string :=
  match sModel s with Some n => n | None => "unknown" end.

(** An entry of the map with no negative figure. *)
Definition nonneg (u : ModelUsage) : Prop :=
  (0 <= input u /\ 0 <= output u /\ 0 <= total u)%Z.

(** The exact sum of a figure over the sessions. *)
Definition over (f : UsageSession -> Z) (l : list UsageSession) : Z :=
  fold_right (fun s acc => (f s + acc)%Z) 0%Z l.

Definition inputOf (s : UsageSession) : Z := orNum (inputTokens s) 0.
Definition outputOf (s : UsageSession) : Z := orNum (outputTokens s) 0.

(** The counts are in the range where the additions of the source are
    exact: no count is negative, and the tokens of all sessions
    together, input plus output and the totals, stay within 2^53. *)
Definition exactRange (l : list UsageSession) : Prop :=
  Forall (fun s => (0 <= inputOf s /\ 0 <= outputOf s /\ 0 <= sessionTotal s)%Z) l
  /\ (over inputOf l + over outputOf l <= 2 ^ 53)%Z
  /\ (over sessionTotal l <= 2 ^ 53)%Z.

End TokenUsage.

(** ** The channels route read from the health probes
    (src/unnamed/part_001) *)

Module ChannelsRoute.

Inductive ChannelStatus : Type := connected | disconnected | error | unknown.

Record Details : Type := {
  dConfigured : json;
  dRunning : json;
  dProbeOk : bool;
  botUsername : option json;   (* the key is written only for a truthy value *)
  lastError : option json
}.

(** The [name] of a channel, [channelLabels[id] ?? id]: a value of the
    snapshot or the [id], or a member that the labels inherit (a
    function or an object of the engine, such as [constructor]), which
    the lookup reads when the labels have no entry of their own under
    that name. *)
Inductive Label : Type :=
| Text (v : json)
| Inherited (member : string).

Record Channel : Type := {
  id : string;
  name : Label;
  status : ChannelStatus;
  latency : json;
  lastProbe : option string;
  configured : json;
  running : json;
  details : Details
}.

(** [v] when it is truthy, for a key written under [if (v)]. *)
Definition whenTruthy (o : option json) : option json :=
  if Json.truthyOpt o then o else None.

(** [channelLabels[id] ?? id]; [inherits v k] says that the prototype
    chain of the value [v] defines the name [k]. *)
Definition labelOf (inherits : json -> string -> bool) (channelLabels : json)
    (id : string) : Label :=
  match Json.prop channelLabels id with
  | Some v => Text (Json.orDefault (Some v) (JStr id))
  | None => if inherits channelLabels id then Inherited id else Text (JStr id)
  end.

(** The function mapped over [Object.entries(channels)].  [None] when it
    throws: the channel is [null], or the date of its last probe cannot
    be rendered. *)
Definition channelOf (pf : Platform) (inherits : json -> string -> bool)
    (channelLabels : json) (entry : string * json)
  : option Channel :=
  let '(id, ch) := entry in
  match ch with
  | JNull => None
  | _ =>
      let probe := Json.prop ch "probe" in
      let probeOk := Json.isTrue (Json.get probe "ok") in
      let configured := Json.orDefault (Json.prop ch "configured") (JBool false) in
      let running := Json.orDefault (Json.prop ch "running") (JBool false) in
      let status :=
        if negb (Json.truthy configured) then unknown
        else if Json.truthyOpt (Json.get probe "error") then error
        else if probeOk then connected
        else disconnected in
      let lastProbe :=
        match Json.prop ch "lastProbeAt" with
        | Some v => if Json.truthy v then option_map Some (dateISO pf v) else Some None
        | None => Some None
        end in
      match lastProbe with
      | None => None
      | Some lastProbe =>
          Some {|
            id := id;
            name := labelOf inherits channelLabels id;
            status := status;
            latency := Json.orDefault (Json.get probe "elapsedMs") JNull;
            lastProbe := lastProbe;
            configured := configured;
            running := running;
            details :=
              {| dConfigured := configured;
                 dRunning := running;
                 dProbeOk := probeOk;
                 botUsername := whenTruthy (Json.get (Json.get probe "bot") "username");
                 lastError := whenTruthy (Json.prop ch "lastError") |}
          |}
      end
  end.

(** [entries.map(f)] for a function that may throw. *)
Fixpoint mapAll {A B} (f : A -> option B) (l : list A) : option (list B) :=
  match l with
  | [] => Some []
  | x :: r =>
      match f x, mapAll f r with
      | Some y, Some ys => Some (y :: ys)
      | _, _ => None
      end
  end.

Definition buildChannels (pf : Platform) (inherits : json -> string -> bool)
    (healthData : option json) : option (list Channel) :=
  if negb (Json.truthyOpt healthData) then Some []
  else
    let channels := Json.section healthData "channels" in
    let channelLabels := Json.section healthData "channelLabels" in
    mapAll (channelOf pf inherits channelLabels) (Json.ownEntries channels).

Record CacheEntry : Type := { data : list Channel; ts : Z }.

(** The answers of this route are always payloads:
    [{ data, timestamp, cached?, stale? }]. *)
Record Response : Type := {
  rData : list Channel;
  rTimestamp : string;
  rCached : bool;
  rStale : bool
}.

Definition CACHE_TTL : Z := 30000.

Definition GET (pf : Platform) (inherits : json -> string -> bool)
    (cache : option CacheEntry) (now : Z)
    (exec : string -> ExecOutcome) : Response * option CacheEntry :=
  let fresh :=
    match cache with
    | Some c => (now - ts c <? CACHE_TTL)%Z
    | None => false
    end in
  match cache, fresh with
  | Some c, true =>
      ({| rData := data c; rTimestamp := nowISO pf; rCached := true; rStale := false |},
       cache)
  | _, _ =>
      let healthData := Bridge.runCLI (jsonParse pf) (exec "openclaw health --json") in
      match buildChannels pf inherits healthData with
      | Some d =>
          ({| rData := d; rTimestamp := nowISO pf; rCached := false; rStale := false |},
           Some {| data := d; ts := now |})
      | None =>
          match cache with
          | Some c =>
              ({| rData := data c; rTimestamp := nowISO pf;
                  rCached := true; rStale := true |}, cache)
          | None =>
              ({| rData := []; rTimestamp := nowISO pf;
                  rCached := false; rStale := false |}, None)
          end
      end
  end.

End ChannelsRoute.

(** ** Channels read from the channel summary: the channels route of
    src/app/api/agents/route.ts (fourth document) and the channel loop
    of the system route (src/app/api/system/route.ts, src/unnamed/part_002) *)

Module ChannelSummary.

Definition nameChar (c : ascii) : bool := JS.is_word c || JS.is_space c.

Fixpoint takeWhile (p : ascii -> bool) (s : string) : string :=
  match s with
  | EmptyString => EmptyString
  | String c t => if p c then String c (takeWhile p t) else EmptyString
  end.

(** [s.match(/^(\w[\w\s]*?):\s+configured/)]: the first group of the
    match, [None] when the line does not match.  The lazy star stops at
    the first colon, which no character of the group can be. *)
Definition channelMatch (s : string) : option string :=
  match s with
  | EmptyString => None
  | String c t =>
      if JS.is_word c then
        match JS.dropWhile nameChar t with
        | String ":" (String d u) =>
            if JS.is_space d
               && String.prefix "configured" (JS.dropWhile JS.is_space (String d u))
            then Some (String c (takeWhile nameChar t))
            else None
        | _ => None
        end
      else None
  end.

Fixpoint charsOf (s : string) : list string :=
  match s with
  | EmptyString => []
  | String c t => String c EmptyString :: charsOf t
  end.

(** The lines that [for (const line of v)] visits when every one of
    them is trimmed: the elements of an array of strings, the
    characters of a string.  [None] when the loop throws: [v] cannot be
    iterated, or an element is not a string. *)
Definition linesOf (v : json) : option (list string) :=
  match v with
  | JArr l => StatusSummaryRoute.asLines l
  | JStr s => Some (charsOf s)
  | _ => None
  end.

(** *** The system route *)

Record SystemChannel : Type := {
  channel : string;
  channelId : string;
  sStatus : string;
  lastPing : option string;
  latencyMs : Z;
  messagesPerHour : Z;
  sConfigured : bool;
  sRunning : bool;
  probeOk : bool
}.

Definition systemChannel (name : string) : SystemChannel :=
  {| channel := name;
     channelId := JS.toLowerCase name;
     sStatus := "connected";
     lastPing := None;
     latencyMs := 0;
     messagesPerHour := 0;
     sConfigured := true;
     sRunning := true;
     probeOk := true |}.

Definition systemStep (channels : list SystemChannel) (line : string)
  : list SystemChannel :=
  match channelMatch (JS.trim line) with
  | Some name => channels ++ [systemChannel name]
  | None => channels
  end.

(** The [channels] of [buildSystemData]. *)
Definition systemChannels (statusData : option json) : option (list SystemChannel) :=
  let channelSummary := Json.orDefault (Json.get statusData "channelSummary") (JArr []) in
  option_map (fun lines => fold_left systemStep lines []) (linesOf channelSummary).

(** *** The channels route *)

Record Channel : Type := {
  id : string;
  name : string;
  status : ChannelsRoute.ChannelStatus;
  latency : option Z;
  lastProbe : option string;
  configured : bool;
  running : bool;
  accounts : list string       (* [details.accounts] *)
}.

Record Loop : Type := {
  results : list Channel;
  currentChannel : option string;
  accountLines : list string
}.

Definition isSet (currentChannel : option string) : bool :=
  match currentChannel with
  | Some c => JS.nonEmpty c
  | None => false
  end.

Definition flush (st : Loop) : Loop :=
  match currentChannel st with
  | Some c =>
      if JS.nonEmpty c then
        {| results :=
             results st
             ++ [{| id := JS.toLowerCase c;
                    name := c;
                    status := ChannelsRoute.connected;
                    latency := None;
                    lastProbe := None;
                    configured := true;
                    running := true;
                    accounts := accountLines st |}];
           currentChannel := currentChannel st;
           accountLines := [] |}
      else st
  | None => st
  end.

Definition step (st : Loop) (line : string) : Loop :=
  let trimmed := JS.trim line in
  match channelMatch trimmed with
  | Some name =>
      let st' := flush st in
      {| results := results st';
         currentChannel := Some name;
         accountLines := accountLines st' |}
  | None =>
      if isSet (currentChannel st) && JS.startsWith trimmed "- " then
        {| results := results st;
           currentChannel := currentChannel st;
           accountLines := accountLines st ++ [JS.sliceFrom 2 trimmed] |}
      else st
  end.

Definition buildChannels (statusData : option json) : option (list Channel) :=
  if negb (Json.truthyOpt statusData) then Some []
  else
    let channelSummary :=
      Json.orDefault (Json.get statusData "channelSummary") (JArr []) in
    option_map
      (fun lines =>
         results
           (flush (fold_left step lines
                     {| results := []; currentChannel := None; accountLines := [] |})))
      (linesOf channelSummary).

End ChannelSummary.

(** The channel summary read as groups: every header line with the
    account lines up to the next header. *)
Module Groups.

(** The lines before the next header. *)
Fixpoint untilHeader (ts : list string) : list string :=
  match ts with
  | [] => []
  | t :: r =>
      match ChannelSummary.channelMatch t with
      | Some _ => []
      | None => t :: untilHeader r
      end
  end.

Definition accountsIn (ts : list string) : list string :=
  map (JS.sliceFrom 2) (filter (fun t => JS.startsWith t "- ") ts).

Fixpoint groups (ts : list string) : list (string * list string) :=
  match ts with
  | [] => []
  | t :: r =>
      match ChannelSummary.channelMatch t with
      | Some n => (n, accountsIn (untilHeader r)) :: groups r
      | None => groups r
      end
  end.

Definition channelOfGroup (g : string * list string) : ChannelSummary.Channel :=
  {| ChannelSummary.id := JS.toLowerCase (fst g);
     ChannelSummary.name := fst g;
     ChannelSummary.status := ChannelsRoute.connected;
     ChannelSummary.latency := None;
     ChannelSummary.lastProbe := None;
     ChannelSummary.configured := true;
     ChannelSummary.running := true;
     ChannelSummary.accounts := snd g |}.

Definition notColon (c : ascii) : bool := negb (Ascii.eqb c ":").

(** The raw lines of the summary of a snapshot. *)
Definition summaryOf (statusData : option json) : json :=
  Json.orDefault (Json.get statusData "channelSummary") (JArr []).

End Groups.

(** ** The daily summary (src/app/api/daily/route.ts, first document) *)

Module DailyRoute.

(** How many characters a regular expression matches at the start of a
    string, if it matches there. *)
Definition Matcher : Type := string -> option nat.

(** [/a|b|c/]: the first alternative that is a prefix. *)
Definition literals (alts : list string) : Matcher :=
  fun s => option_map String.length (find (fun a => String.prefix a s) alts).

(** [\b] after a word character: the end of the text or a character
    that is not a word character. *)
Definition boundary (rest : string) : bool :=
  match rest with
  | EmptyString => true
  | String c _ => negb (JS.is_word c)
  end.

(** [/\.(a|b|c)\b/] for alternatives that end in a word character: a
    dot, then the first alternative that is a prefix and ends at a
    boundary. *)
Definition extension (alts : list string) : Matcher :=
  fun s =>
    match s with
    | String "." t =>
        option_map (fun a => S (String.length a))
          (find (fun a => String.prefix a t
                          && boundary (JS.sliceFrom (String.length a) t)) alts)
    | _ => None
    end.

(** [(s.match(re) ?? []).length] for a global expression whose matches
    are not empty: the matches are looked for from left to right, each
    search starts where the last match ended.  [skip] counts the
    characters of the last match still to be passed over. *)
Fixpoint countGo (re : Matcher) (s : string) (skip : nat) : nat :=
  match s with
  | EmptyString => 0
  | String _ t =>
      match skip with
      | S k => countGo re t k
      | O =>
          match re s with
          | Some len => S (countGo re t (len - 1))
          | None => countGo re t 0
          end
      end
  end.

Definition count (re : Matcher) (s : string) : Z := Z.of_nat (countGo re s 0).

Definition messageWords : list string :=
  ["telegram"; "discord"; "imessage"; "message"; "chat"].
Definition taskWords : list string :=
  ["completed"; "finished"; "done"; "fixed"; "deployed"; "pushed"; "committed"].
Definition fileExtensions : list string :=
  ["ts"; "js"; "tsx"; "jsx"; "py"; "json"; "md"; "css"; "html"].
Definition cronWords : list string := ["cron"; "schedule"; "heartbeat"].
Definition spawnWords : list string :=
  ["spawn"; "sub-agent"; "subagent"; "kimi"; "ollama"; "delegate"].
Definition errorWords : list string := ["error"; "fail"; "bug"; "issue"; "problem"].

Record Hour : Type := {
  hour : Z;
  messages : Z;
  tasks : Z;
  tokens : Z
}.

Record DailySummary : Type := {
  date : string;
  messagesHandled : Z;
  tasksCompleted : Z;
  filesModified : Z;
  tokensUsed : Z;
  subAgentsSpawned : Z;
  cronJobsRun : Z;
  errorsEncountered : Z;
  topActivities : list string;
  hourlyActivity : list Hour
}.

(** [l.replace(/^## /, '')] *)
Definition dropHashes (l : string) : string :=
  if String.prefix "## " l then JS.sliceFrom 3 l else l.

Definition inDay (h : nat) : bool := (9 <=? h)%nat && (h <=? 22)%nat.

Definition parseDailySummary (content date : string) : DailySummary :=
  let lines := JS.split content ActivityRoute.newline in
  let sections :=
    map (fun l => JS.trim (dropHashes l))
      (filter (fun l => JS.startsWith l "## ") lines) in
  let lower := JS.toLowerCase content in
  let messagesHandled := count (literals messageWords) lower in
  let tasksCompleted := count (literals taskWords) lower in
  let filesModified := count (extension fileExtensions) lower in
  let cronJobsRun := count (literals cronWords) lower in
  let subAgentsSpawned := count (literals spawnWords) lower in
  let errorsEncountered := count (literals errorWords) lower in
  let hourlyActivity :=
    map (fun h =>
           {| hour := Z.of_nat h;
              messages := if inDay h then (messagesHandled / 14)%Z else 0%Z;
              tasks := if inDay h then (tasksCompleted / 14)%Z else 0%Z;
              tokens := 0 |})
      (seq 0 24) in
  {| date := date;
     messagesHandled := Z.max messagesHandled 0;
     tasksCompleted := Z.max tasksCompleted 0;
     filesModified := Z.max filesModified 0;
     tokensUsed := 0;
     subAgentsSpawned := Z.max subAgentsSpawned 0;
     cronJobsRun := Z.max cronJobsRun 0;
     errorsEncountered := Z.max errorsEncountered 0;
     topActivities := firstn 5 sections;
     hourlyActivity := hourlyActivity |}.

(** The sum of a figure over the hours of the day. *)
Definition overDay (f : Hour -> Z) (d : DailySummary) : Z :=
  fold_right Z.add 0%Z (map f (hourlyActivity d)).

End DailyRoute.

(** ** Tags of a memory file (src/app/api/agents/route.ts, third document) *)

Module MemoryRoute.

(** The line terminators among the code units below 256: line feed and
    carriage return.  [.] matches any other character, and [^] with the
    [m] flag matches after each of them. *)
Definition lineEnd (c : ascii) : bool :=
  (JS.code c =? 10)%nat || (JS.code c =? 13)%nat.

(** The text cut at every line terminator; [cur] holds the current
    line in reverse. *)
Fixpoint linesGo (s : string) (cur : list ascii) : list string :=
  match s with
  | EmptyString => [string_of_list_ascii (rev cur)]
  | String c t =>
      if lineEnd c then string_of_list_ascii (rev cur) :: linesGo t []
      else linesGo t (c :: cur)
  end.

(** The first groups of [content.matchAll(/^## (.+)/gm)]: a match
    starts at the start of a line and takes the rest of the line, which
    must not be empty. *)
Definition headings (content : string) : list string :=
  map (JS.sliceFrom 3)
    (filter (fun l => String.prefix "## " l && (3 <? String.length l)%nat)
       (linesGo content [])).

(** [s.replace(/\s+/g, '-')]; [inRun] says that the last character was
    a blank. *)
Fixpoint dashGo (s : string) (inRun : bool) : string :=
  match s with
  | EmptyString => EmptyString
  | String c t =>
      if JS.is_space c then
        if inRun then dashGo t true else String "-" (dashGo t true)
      else String c (dashGo t false)
  end.

Definition dashes (s : string) : string := dashGo s false.

Definition tagOf (heading : string) : string :=
  dashes (JS.toLowerCase (JS.trim heading)).

Definition extractTags (content : string) : list string :=
  firstn 5 (map tagOf (headings content)).

(** Every character of a string passes a test. *)
Fixpoint allOf (p : ascii -> bool) (s : string) : bool :=
  match s with
  | EmptyString => true
  | String c t => p c && allOf p t
  end.

End MemoryRoute.

(** ** Uptime texts of the pages (src/app/page.tsx, src/app/system/page.tsx,
    src/unnamed/part_000) *)

Module Pages.

(** [`${z}`] for an integer. *)
Definition render (z : Z) : string :=
  if (z <? 0)%Z then ("-" ++ JS.natToString (Z.to_nat (- z)))%string
  else JS.natToString (Z.to_nat z).

(** [formatUptime] of the home page and of the system page, on a whole
    number of seconds: [/] with [Math.floor] is the division that
    rounds down, [%] keeps the sign of the dividend. *)
Definition formatUptime (seconds : Z) : string :=
  let d := (seconds / 86400)%Z in
  let h := (Z.rem seconds 86400 / 3600)%Z in
  let m := (Z.rem seconds 3600 / 60)%Z in
  if (0 <? d)%Z then (render d ++ "d " ++ render h ++ "h " ++ render m ++ "m")%string
  else if (0 <? h)%Z then (render h ++ "h " ++ render m ++ "m")%string
  else (render m ++ "m")%string.

(** The digits of a number: those of zero are one zero. *)
Definition nonNil (u : Decimal.uint) : Decimal.uint :=
  match u with Decimal.Nil => Decimal.D0 Decimal.Nil | _ => u end.

End Pages.

Module TopStatusBar.

(** [formatUptime] of the status bar, which shows the seconds of an
    uptime below one day. *)
Definition formatUptime (seconds : Z) : string :=
  let d := (seconds / 86400)%Z in
  let h := (Z.rem seconds 86400 / 3600)%Z in
  let m := (Z.rem seconds 3600 / 60)%Z in
  let s := Z.rem seconds 60 in
  if (0 <? d)%Z then
    (Pages.render d ++ "d " ++ Pages.render h ++ "h " ++ Pages.render m ++ "m")%string
  else if (0 <? h)%Z then
    (Pages.render h ++ "h " ++ Pages.render m ++ "m " ++ Pages.render s ++ "s")%string
  else (Pages.render m ++ "m " ++ Pages.render s ++ "s")%string.

End TopStatusBar.

(** ** Further notions, for the statements about the rest of the code *)

Module More.

(** The same query for another page. *)
Definition withPage (q : ActivityRoute.Query) (p : Z) : ActivityRoute.Query :=
  {| ActivityRoute.qType := ActivityRoute.qType q;
     ActivityRoute.qChannel := ActivityRoute.qChannel q;
     ActivityRoute.qSearch := ActivityRoute.qSearch q;
     ActivityRoute.page := Num.Int p;
     ActivityRoute.pageSize := ActivityRoute.pageSize q |}.

(** The items of the pages 1 to [n], one after the other. *)
Definition pagesUpTo (feed : list ActivityRoute.ActivityEntry)
    (q : ActivityRoute.Query) (n : nat) : list ActivityRoute.ActivityEntry :=
  flat_map
    (fun p => ActivityRoute.items (ActivityRoute.query feed (withPage q (Z.of_nat p))))
    (seq 1 n).

(** A job with a recorded last run. *)
Definition hasRun (job : ActivityRoute.CronJob) : bool :=
  match ActivityRoute.lastRunOf job with Some _ => true | None => false end.

(** A section of the status snapshot is absent, [null] or empty. *)
Definition absent (statusData : option json) (k : string) : Prop :=
  Json.section statusData k = JObj [].

(** The probe flag of a channel is a boolean or is missing. *)
Definition booleanProbe (channels : json) (name : string) : Prop :=
  match StatusRoute.probeOf channels name with
  | None | Some (JBool _) => True
  | Some _ => False
  end.

(** A value with nothing left to redact: no string that the content
    tests catch, no key [__proto__], and under every key that contains
    a sensitive term the marker. *)
#[warnings="-register-all"]
Inductive clean : json -> Prop :=
| clean_null : clean JNull
| clean_bool b : clean (JBool b)
| clean_num n : clean (JNum n)
| clean_str s : ~ Spec.caughtByContent s -> clean (JStr s)
| clean_arr l : Forall clean l -> clean (JArr l)
| clean_obj l :
    Forall (fun kv =>
              fst kv <> "__proto__"
              /\ (Spec.containsTerm (fst kv) -> snd kv = JStr ConfigRoute.REDACTED)
              /\ clean (snd kv)) l ->
    clean (JObj l).

(** A date field of a job state that cannot be rendered: present, not
    zero, and out of the range of dates. *)
Definition badDate (ms : option Z) : Prop :=
  exists t, ms = Some t /\ t <> 0%Z /\ ActivityRoute.validTime t = false.

Definition stateOf (job : SystemRoute.Job) : SystemRoute.JobState :=
  match SystemRoute.jobState job with
  | Some s => s
  | None => SystemRoute.emptyState
  end.

End More.

(** ** Further sample inputs *)

Module MoreSamples.

(** A status snapshot with a summary of two channels, one account line
    before the first header and one below it. *)
Definition summaryStatus : option json :=
  Some (JObj [("channelSummary",
               JArr [JStr "- stray";
                     JStr "Telegram: configured";
                     JStr "  - default (token:config)";
                     JStr "Discord: configured"])]).

(** A session of a cron run whose id is that of the entry of the job
    [nightly]. *)
Definition cronSession : ActivityRoute.Session :=
  {| ActivityRoute.key := "agent:main:cron:nightly";
     ActivityRoute.kind := "cron";
     ActivityRoute.updatedAt := 5000%Z;
     ActivityRoute.sessionId := "cron_nightly";
     ActivityRoute.model := None;
     ActivityRoute.totalTokens := None;
     ActivityRoute.inputTokens := None;
     ActivityRoute.outputTokens := None |}.

(** A job that never ran. *)
Definition idleJob : ActivityRoute.CronJob :=
  {| ActivityRoute.jobId := "idle";
     ActivityRoute.jobName := None;
     ActivityRoute.jobEnabled := false;
     ActivityRoute.jobSchedule := None;
     ActivityRoute.jobLastRunAt := None;
     ActivityRoute.jobLastRunStatus := None |}.

(** The text [{"channels":{"telegram":null}}] and its tree: a channel
    whose record is [null]. *)
Definition nullChannelText : string :=
  ("{" ++ Samples.quote ++ "channels" ++ Samples.quote ++ ":{"
       ++ Samples.quote ++ "telegram" ++ Samples.quote ++ ":null}}")%string.

Definition nullChannel : json :=
  JObj [("channels", JObj [("telegram", JNull)])].

(** The query without filter for a page. *)
Definition everything (page pageSize : Num.t) : ActivityRoute.Query :=
  {| ActivityRoute.qType := None;
     ActivityRoute.qChannel := None;
     ActivityRoute.qSearch := None;
     ActivityRoute.page := page;
     ActivityRoute.pageSize := pageSize |}.

(** The members that every object inherits in the engines in use. *)
Definition objectMembers (v : json) (k : string) : bool :=
  existsb (String.eqb k)
    ["constructor"; "toString"; "toLocaleString"; "valueOf"; "hasOwnProperty";
     "isPrototypeOf"; "propertyIsEnumerable"; "__proto__";
     "__defineGetter__"; "__defineSetter__"; "__lookupGetter__";
     "__lookupSetter__"].

(** Three sessions of two models, one without a model. *)
Definition threeSessions : list TokenUsage.UsageSession :=
  [ {| TokenUsage.sModel := Some "opus"; TokenUsage.inputTokens := Some 1000%Z;
       TokenUsage.outputTokens := Some 200%Z; TokenUsage.totalTokens := None |};
    {| TokenUsage.sModel := None; TokenUsage.inputTokens := Some 100%Z;
       TokenUsage.outputTokens := None; TokenUsage.totalTokens := Some 150%Z |};
    {| TokenUsage.sModel := Some "opus"; TokenUsage.inputTokens := Some 400%Z;
       TokenUsage.outputTokens := Some 50%Z; TokenUsage.totalTokens := Some 450%Z |} ].

(** Sessions whose inputs leave the range of exact additions. *)
Definition hugeSessions : list TokenUsage.UsageSession :=
  [ {| TokenUsage.sModel := Some "a"; TokenUsage.inputTokens := Some (2 ^ 53)%Z;
       TokenUsage.outputTokens := None; TokenUsage.totalTokens := None |};
    {| TokenUsage.sModel := Some "b"; TokenUsage.inputTokens := Some 1%Z;
       TokenUsage.outputTokens := None; TokenUsage.totalTokens := None |};
    {| TokenUsage.sModel := Some "b"; TokenUsage.inputTokens := Some 1%Z;
       TokenUsage.outputTokens := None; TokenUsage.totalTokens := None |} ].

(** A summary whose header has a blank before the colon. *)
Definition spacedSummary : option json :=
  Some (JObj [("channelSummary", JArr [JStr "Telegram : configured"])]).

End MoreSamples.

(** ** Health derivation: statements *)

Module HealthFacts.

Import StatusRoute.

Lemma buildStatus_health pf statusData healthData r :
  buildStatus pf statusData healthData = Some r ->
  health r = deriveHealth (parseHealth healthData)
  /\ gatewayReachable r
     = Json.orDefault (Json.prop (Json.section statusData "gateway") "reachable")
                      (JBool false).
Proof.
  unfold buildStatus.
  destruct (Json.orDefault _ (JStr "")); try discriminate.
  destruct (Snapshot.lastHeartbeatOf _ _); try discriminate.
  destruct (Snapshot.findMain _); try discriminate.
  intros H; injection H as <-; split; reflexivity.
Qed.

Lemma forallb_id_existsb (l : list bool) :
  (0 <? List.length l)%nat && forallb (fun b => b) l = true ->
  existsb (fun b => b) l = true.
Proof.
  destruct l as [|b l]; simpl; [discriminate|].
  destruct b; simpl; [reflexivity | discriminate].
Qed.

Lemma all_then_any healthData :
  allProbesOk (parseHealth healthData) = true ->
  anyProbeOk (parseHealth healthData) = true.
Proof.
  unfold parseHealth.
  destruct (negb (Json.truthyOpt healthData)); simpl; [discriminate|].
  apply forallb_id_existsb.
Qed.

Lemma deriveHealth_unhealthy healthData :
  deriveHealth (parseHealth healthData) = unhealthy
  <-> anyProbeOk (parseHealth healthData) = false.
Proof.
  unfold deriveHealth.
  pose proof (all_then_any healthData) as Hall.
  destruct (allProbesOk (parseHealth healthData));
    destruct (anyProbeOk (parseHealth healthData));
    split; intros H; try reflexivity; try discriminate.
  specialize (Hall eq_refl); discriminate.
Qed.

Lemma summary_health pf statusData r :
  StatusSummaryRoute.buildStatus pf statusData = Some r ->
  StatusSummaryRoute.health r
  = StatusSummaryRoute.healthRule
      (Json.orDefault (Json.prop (Json.section statusData "gateway") "reachable")
                      (JBool false))
      (StatusSummaryRoute.activeChannels r).
Proof.
  unfold StatusSummaryRoute.buildStatus.
  destruct (StatusSummaryRoute.parseChannelSummary _); try discriminate.
  destruct (Snapshot.lastHeartbeatOf _ _); try discriminate.
  destruct (Snapshot.findMain _); try discriminate.
  intros H; injection H as <-; reflexivity.
Qed.

(** The derivations do return on the snapshots of a failed bridge. *)
Lemma buildStatus_of_null pf :
  exists r, buildStatus pf None None = Some r /\ health r = unhealthy.
Proof. eexists; split; reflexivity. Qed.

Lemma summary_buildStatus_of_null pf :
  exists r, StatusSummaryRoute.buildStatus pf None = Some r
            /\ StatusSummaryRoute.health r = unhealthy.
Proof. eexists; split; reflexivity. Qed.

Lemma forallb_map_id {A} (f : A -> bool) (l : list A) :
  forallb (fun b => b) (map f l) = forallb f l.
Proof. induction l as [|x l IH]; simpl; [reflexivity | now rewrite IH]. Qed.

Lemma existsb_map_id {A} (f : A -> bool) (l : list A) :
  existsb (fun b => b) (map f l) = existsb f l.
Proof. induction l as [|x l IH]; simpl; [reflexivity | now rewrite IH]. Qed.

Lemma forallb_false_witness {A} (f : A -> bool) (l : list A) :
  forallb f l = false <-> exists x, In x l /\ f x = false.
Proof.
  induction l as [|x l IH]; simpl.
  - split; [discriminate | intros (x & [] & _)].
  - destruct (f x) eqn:Hx; simpl.
    + rewrite IH. split.
      * intros (y & Hy & Hf). exists y. auto.
      * intros (y & [-> | Hy] & Hf); [congruence | exists y; auto].
    + split; [intros _; exists x; auto | reflexivity].
Qed.

Lemma parseHealth_live healthData :
  Json.truthyOpt healthData = true ->
  let channels := Spec.channelsOf healthData in
  allProbesOk (parseHealth healthData)
  = (0 <? List.length (Json.keys channels))%nat
    && forallb (probeOk channels) (Json.keys channels)
  /\ anyProbeOk (parseHealth healthData)
     = existsb (probeOk channels) (Json.keys channels).
Proof.
  intros Hlive. unfold parseHealth. rewrite Hlive. simpl.
  rewrite forallb_map_id, existsb_map_id, length_map. split; reflexivity.
Qed.

Lemma parseHealth_dead healthData :
  Json.truthyOpt healthData = false ->
  allProbesOk (parseHealth healthData) = false
  /\ anyProbeOk (parseHealth healthData) = false.
Proof.
  intros Hdead. unfold parseHealth. rewrite Hdead. split; reflexivity.
Qed.

(** A snapshot that counts as absent lists no channel. *)
Lemma falsy_lists_nothing healthData :
  Json.truthyOpt healthData = false ->
  Json.keys (Spec.channelsOf healthData) = [].
Proof.
  destruct healthData as [[| [] | n | s | l | l]|]; intros H;
    try discriminate H; try reflexivity.
  destruct s; [reflexivity | discriminate H].
Qed.

(** No probe is ok: the any-flag of the parsed health, over the
    channels the snapshot lists. *)
Lemma anyProbeOk_none healthData :
  anyProbeOk (parseHealth healthData) = false
  <-> forall name, In name (Json.keys (Spec.channelsOf healthData)) ->
                   probeOk (Spec.channelsOf healthData) name = false.
Proof.
  destruct (Json.truthyOpt healthData) eqn:Hlive.
  - destruct (parseHealth_live _ Hlive) as [_ ->]. split.
    + intros Hnone name Hin.
      destruct (probeOk (Spec.channelsOf healthData) name) eqn:Hp; [|reflexivity].
      assert (existsb (probeOk (Spec.channelsOf healthData))
                (Json.keys (Spec.channelsOf healthData)) = true)
        by (apply existsb_exists; exists name; auto).
      congruence.
    + intros Hall.
      destruct (existsb _ _) eqn:He; [|reflexivity].
      apply existsb_exists in He as (name & Hin & Hp).
      rewrite (Hall name Hin) in Hp. discriminate.
  - destruct (parseHealth_dead _ Hlive) as [_ ->].
    rewrite (falsy_lists_nothing _ Hlive).
    split; [intros _ name [] | reflexivity].
Qed.

(** C1, as the routes have it.  With the gateway not reachable, the
    deriver that reads the channel summary of one status snapshot
    yields [unhealthy] however many channels are configured.  The
    deriver over a pair of snapshots does not read reachability: its
    health is that of the channel probes of the health snapshot, and it
    is [unhealthy] exactly when no channel that the health snapshot
    lists has [probe.ok === true]. *)
Theorem C1_unreachable_gateway pf statusData
    (Hdown : Spec.reachable statusData = false) :
  (forall r, StatusSummaryRoute.buildStatus pf statusData = Some r ->
             StatusSummaryRoute.health r = unhealthy)
  /\ (forall healthData r,
        buildStatus pf statusData healthData = Some r ->
        let channels := Spec.channelsOf healthData in
        health r = deriveHealth (parseHealth healthData)
        /\ (health r = unhealthy
            <-> forall name, In name (Json.keys channels) ->
                             probeOk channels name = false)).
Proof.
  split.
  - intros r Hr. rewrite (summary_health _ _ _ Hr).
    unfold StatusSummaryRoute.healthRule.
    unfold Spec.reachable in Hdown. rewrite Hdown. reflexivity.
  - intros healthData r Hr channels. subst channels.
    destruct (buildStatus_health _ _ _ _ Hr) as [Hh _].
    split; [exact Hh|]. rewrite Hh, deriveHealth_unhealthy.
    apply anyProbeOk_none.
Qed.

Lemma C1_unreachable_gateway_witness :
  Spec.reachable Samples.gatewayDown = false
  /\ (exists r, StatusSummaryRoute.buildStatus Samples.pf Samples.gatewayDown = Some r
                /\ StatusSummaryRoute.health r = unhealthy)
  /\ (exists r, buildStatus Samples.pf Samples.gatewayDown Samples.oneChannelFailing
                = Some r
                /\ health r = unhealthy)
  /\ (exists r, buildStatus Samples.pf Samples.gatewayDown Samples.oneOkOneUnconfigured
                = Some r
                /\ health r <> unhealthy).
Proof.
  pose proof (C1_unreachable_gateway Samples.pf Samples.gatewayDown eq_refl) as [Ha Hb].
  split; [reflexivity|]. split; [|split].
  - eexists. split; [reflexivity|]. apply Ha. reflexivity.
  - eexists. split; [reflexivity|].
    destruct (Hb Samples.oneChannelFailing _ eq_refl) as [_ Hiff].
    apply Hiff. intros name [<- | []]. reflexivity.
  - eexists. split; [reflexivity|].
    destruct (Hb Samples.oneOkOneUnconfigured _ eq_refl) as [_ Hiff].
    intros Hun.
    pose proof (proj1 Hiff Hun "telegram" (or_introl eq_refl)) as Hp.
    discriminate Hp.
Defined.

(** C1 as written fails on the deriver over two snapshots: the gateway
    is down, the only channel probes ok, and the health is [healthy]. *)
Lemma C1_counterexample :
  Spec.reachable Samples.gatewayDown = false
  /\ option_map health
       (buildStatus Samples.pf Samples.gatewayDown Samples.oneChannelOk)
     = Some healthy.
Proof. split; reflexivity. Qed.

(** The rule of [deriveHealth] over the probe results of a list of
    channels. *)
Lemma probe_rule {A} (f : A -> bool) (l : list A) :
  let rule :=
    if (0 <? List.length l)%nat && forallb f l then healthy
    else if existsb f l then degraded else unhealthy in
  (rule = healthy <-> l <> [] /\ forall x, In x l -> f x = true)
  /\ (rule = degraded <->
        (exists x, In x l /\ f x = true) /\ (exists x, In x l /\ f x = false)).
Proof.
  intros rule. subst rule.
  assert (Hlen : (0 <? List.length l)%nat = true <-> l <> []).
  { destruct l; split; intros H; try reflexivity; try discriminate.
    now contradiction H. }
  destruct ((0 <? List.length l)%nat && forallb f l) eqn:Hb.
  - apply andb_true_iff in Hb as [Hn Hf]. rewrite forallb_forall in Hf.
    split.
    + split; [intros _ | reflexivity]. split; [now apply Hlen | exact Hf].
    + split; [discriminate|].
      intros (_ & x & Hx & Hfx). rewrite (Hf x Hx) in Hfx. discriminate.
  - assert (Hnot : l <> [] -> exists x, In x l /\ f x = false).
    { intros Hne. apply Hlen in Hne. rewrite Hne in Hb. simpl in Hb.
      now apply forallb_false_witness in Hb. }
    destruct (existsb f l) eqn:He.
    + apply existsb_exists in He as (x & Hx & Hfx).
      split.
      * split; [discriminate|]. intros (Hne & Hf).
        destruct (Hnot Hne) as (y & Hy & Hfy).
        rewrite (Hf y Hy) in Hfy. discriminate.
      * split; [intros _ | reflexivity].
        split; [exists x; auto|]. apply Hnot. intros ->. destruct Hx.
    + split.
      * split; [discriminate|]. intros (Hne & Hf).
        destruct (Hnot Hne) as (y & Hy & Hfy).
        rewrite (Hf y Hy) in Hfy. discriminate.
      * split; [discriminate|].
        intros ((x & Hx & Hfx) & _).
        assert (existsb f l = true) by (apply existsb_exists; exists x; auto).
        congruence.
Qed.

(** C2, as the routes have it.  Over a pair of snapshots the health is
    [healthy] exactly when the health snapshot lists at least one
    channel and every listed channel, configured or not, has
    [probe.ok === true]; it is [degraded] exactly when some but not all
    listed channels do.  Neither the [configured] flag nor the
    reachability of the gateway enters this rule.  In the deriver that
    reads the channel summary, a reachable gateway with at least one
    configured channel gives [healthy]. *)
Theorem C2_health_of_probes pf statusData healthData r
    (Hr : buildStatus pf statusData healthData = Some r) :
  let channels := Spec.channelsOf healthData in
  let listed := Json.keys channels in
  (health r = healthy <->
     Json.truthyOpt healthData = true
     /\ listed <> []
     /\ forall name, In name listed -> probeOk channels name = true)
  /\ (health r = degraded <->
        Json.truthyOpt healthData = true
        /\ (exists name, In name listed /\ probeOk channels name = true)
        /\ (exists name, In name listed /\ probeOk channels name = false))
  /\ (forall r2,
        StatusSummaryRoute.buildStatus pf statusData = Some r2 ->
        Spec.reachable statusData = true ->
        StatusSummaryRoute.activeChannels r2 <> [] ->
        StatusSummaryRoute.health r2 = healthy).
Proof.
  intros channels listed.
  destruct (buildStatus_health _ _ _ _ Hr) as [Hh _]. rewrite Hh.
  assert (Hsummary : forall r2,
             StatusSummaryRoute.buildStatus pf statusData = Some r2 ->
             Spec.reachable statusData = true ->
             StatusSummaryRoute.activeChannels r2 <> [] ->
             StatusSummaryRoute.health r2 = healthy).
  { intros r2 Hr2 Hup Hne. rewrite (summary_health _ _ _ Hr2).
    unfold StatusSummaryRoute.healthRule. unfold Spec.reachable in Hup.
    rewrite Hup. simpl.
    destruct (StatusSummaryRoute.activeChannels r2); [congruence | reflexivity]. }
  unfold deriveHealth.
  destruct (Json.truthyOpt healthData) eqn:Hlive.
  - destruct (parseHealth_live _ Hlive) as [Hall Hany].
    rewrite Hall, Hany.
    destruct (probe_rule (probeOk channels) listed) as [Hhealthy Hdegraded].
    split; [|split]; [ | | exact Hsummary].
    + split; intros H; [apply Hhealthy in H | apply Hhealthy]; tauto.
    + split; intros H; [apply Hdegraded in H | apply Hdegraded]; tauto.
  - destruct (parseHealth_dead _ Hlive) as [Hall Hany]. rewrite Hall, Hany.
    split; [|split]; [ | | exact Hsummary].
    + split; [discriminate | intros (H & _); discriminate].
    + split; [discriminate | intros (H & _); discriminate].
Qed.

Lemma C2_health_of_probes_witness :
  exists r,
    buildStatus Samples.pf Samples.gatewayUp Samples.oneChannelOk = Some r
    /\ health r = healthy
    /\ (exists r2, StatusSummaryRoute.buildStatus Samples.pf Samples.gatewayUp = Some r2
                   /\ StatusSummaryRoute.health r2 = healthy).
Proof.
  eexists. split; [reflexivity|].
  pose proof (C2_health_of_probes Samples.pf Samples.gatewayUp Samples.oneChannelOk
                _ eq_refl) as (Hhealthy & _ & Hsummary).
  split.
  - apply Hhealthy. split; [reflexivity|]. split; [discriminate|].
    intros name [<- | []]. reflexivity.
  - eexists. split; [reflexivity|].
    apply Hsummary; [reflexivity | reflexivity | discriminate].
Defined.

(** C2 as written fails: the gateway is reachable, the one configured
    channel probes ok, so every configured channel probes healthy, and
    a second channel that is not configured makes the health
    [degraded]. *)
Lemma C2_counterexample :
  let channels := Spec.channelsOf Samples.oneOkOneUnconfigured in
  Spec.reachable Samples.gatewayUp = true
  /\ existsb (configuredAndOk channels) (Json.keys channels) = true
  /\ forallb (fun name => implb (Spec.configured channels name) (probeOk channels name))
       (Json.keys channels) = true
  /\ option_map health
       (buildStatus Samples.pf Samples.gatewayUp Samples.oneOkOneUnconfigured)
     = Some degraded.
Proof. repeat split. Qed.

End HealthFacts.

(** ** Process bridge: statements *)

Module BridgeFacts.

Import Bridge.

Lemma prefix_nil (s : string) : String.prefix "" s = true.
Proof. destruct s; reflexivity. Qed.

Lemma prefix_char (c d : ascii) (s : string) :
  String.prefix (String c "") (String d s) = if ascii_dec c d then true else false.
Proof. simpl. destruct (ascii_dec c d); [apply prefix_nil | reflexivity]. Qed.

Lemma indexOf_after_preamble (pre rest : string) :
  JS.includes pre "{" = false ->
  JS.indexOf (pre ++ String "{" rest) "{" = Some (String.length pre).
Proof.
  induction pre as [|c pre IH]; intros Hpre.
  - cbn [String.append JS.indexOf String.length].
    rewrite prefix_char. destruct (ascii_dec "{" "{"); [reflexivity | congruence].
  - cbn [JS.includes] in Hpre. apply orb_false_iff in Hpre as [Hc Hpre].
    cbn [String.append JS.indexOf String.length].
    rewrite prefix_char in Hc |- *. rewrite Hc, (IH Hpre). reflexivity.
Qed.

Lemma sliceFrom_app (pre rest : string) :
  JS.sliceFrom (String.length pre) (pre ++ rest) = rest.
Proof.
  induction pre as [|c pre IH]; simpl; [destruct rest; reflexivity | exact IH].
Qed.

Lemma indexOf_none (out : string) :
  JS.includes out "{" = false -> JS.indexOf out "{" = None.
Proof.
  induction out as [|c out IH]; intros H.
  - reflexivity.
  - cbn [JS.includes] in H. apply orb_false_iff in H as [Hc Hout].
    cbn [JS.indexOf]. rewrite Hc, (IH Hout). reflexivity.
Qed.

(** What [runCLI] does, for every parser: the preamble before the first
    brace is dropped and the rest is parsed; without a brace, on a
    non-zero exit and at the timeout the result is [null]; a text the
    parser rejects gives [null]. *)
Lemma runCLI_contract (parse : string -> option json) :
  (forall pre rest,
      JS.includes pre "{" = false ->
      runCLI parse (Completed (pre ++ String "{" rest)) = parse (String "{" rest))
  /\ (forall out, JS.includes out "{" = false -> runCLI parse (Completed out) = None)
  /\ (forall code, runCLI parse (ExitedNonZero code) = None)
  /\ runCLI parse TimedOut = None.
Proof.
  repeat split.
  - intros pre rest Hpre. unfold runCLI.
    rewrite (indexOf_after_preamble _ _ Hpre), sliceFrom_app. reflexivity.
  - intros out Hout. unfold runCLI. rewrite (indexOf_none _ Hout). reflexivity.
Qed.

(** C6 at the failing input.  The standard output carries a diagnostic
    line before the payload [{}].  [runCLI] hands the payload to the
    parser; [execJSON] hands it the whole trimmed output, preamble
    included, so with a parser that accepts the payload and not the
    noisy text the first bridge returns the object and the second
    [null].  For the same reason an output without a brace that the
    parser accepts, such as [[]], comes back from [execJSON] and not
    from [runCLI]. *)
Theorem C6_execJSON_keeps_preamble :
  (forall parse,
      runCLI parse (Completed Samples.noisy) = parse "{}"
      /\ execJSON parse (Completed Samples.noisy) = parse Samples.noisy)
  /\ runCLI Samples.parseTiny (Completed Samples.noisy) = Some (JObj [])
  /\ execJSON Samples.parseTiny (Completed Samples.noisy) = None
  /\ runCLI Samples.parseTiny (Completed "[]") = None
  /\ execJSON Samples.parseTiny (Completed "[]") = Some (JArr []).
Proof. repeat split. Qed.

(** What [execJSON] keeps of the contract: a non-zero exit, the timeout
    and a text the parser rejects give [null]. *)
Lemma execJSON_failures (parse : string -> option json) :
  (forall code, execJSON parse (ExitedNonZero code) = None)
  /\ execJSON parse TimedOut = None
  /\ (forall out, parse (JS.trim out) = None -> execJSON parse (Completed out) = None).
Proof. repeat split. intros out H. exact H. Qed.

End BridgeFacts.

(** ** The cache of the status route: statements *)

Module CacheFacts.

Import StatusRoute.

Lemma GET_refresh pf cache now exec :
  Spec.expired cache now ->
  GET pf cache now exec
  = match buildStatus pf (Spec.statusOf pf exec) (Spec.healthOf pf exec) with
    | Some d => (Payload d (nowISO pf) false false, Some {| data := d; ts := now |})
    | None =>
        match cache with
        | Some c => (Payload (data c) (nowISO pf) true true, cache)
        | None => (Failure "Failed to fetch status" 500, None)
        end
    end.
Proof.
  intros Hexp. unfold GET, Spec.statusOf, Spec.healthOf.
  destruct cache as [c|]; [|reflexivity].
  specialize (Hexp c eq_refl).
  destruct (now - ts c <? CACHE_TTL)%Z eqn:Hlt; [|reflexivity].
  apply Z.ltb_lt in Hlt. lia.
Qed.

(** An entry within its time to live is served without a refresh. *)
Lemma GET_fresh pf c now exec :
  (now - ts c < CACHE_TTL)%Z ->
  GET pf (Some c) now exec = (Payload (data c) (nowISO pf) true false, Some c).
Proof.
  intros Hlt. unfold GET. apply Z.ltb_lt in Hlt. rewrite Hlt. reflexivity.
Qed.

(** A bridge call that returns [null] does not make the refresh throw:
    the status is built from the defaults, returned without the flags,
    and replaces the entry. *)
Lemma GET_null_snapshots pf cache now exec :
  Spec.expired cache now ->
  Spec.statusOf pf exec = None -> Spec.healthOf pf exec = None ->
  exists d, buildStatus pf None None = Some d
            /\ GET pf cache now exec
               = (Payload d (nowISO pf) false false, Some {| data := d; ts := now |}).
Proof.
  intros Hexp Hs Hh. rewrite (GET_refresh _ _ _ _ Hexp), Hs, Hh.
  eexists. split; reflexivity.
Qed.

(** C3, as the route has it.  When the entry is absent or past its time
    to live and the refresh throws, a previous entry is returned as it
    was, flagged [cached] and [stale], and stays in the cache; with no
    previous entry the answer is the error payload with status 500. *)
Theorem C3_refresh_failure pf cache now exec
    (Hexp : Spec.expired cache now)
    (Hthrow : buildStatus pf (Spec.statusOf pf exec) (Spec.healthOf pf exec) = None) :
  GET pf cache now exec
  = match cache with
    | Some c => (Payload (data c) (nowISO pf) true true, Some c)
    | None => (Failure "Failed to fetch status" 500, None)
    end.
Proof.
  rewrite (GET_refresh _ _ _ _ Hexp), Hthrow. destruct cache; reflexivity.
Qed.

Lemma C3_refresh_failure_witness :
  let exec := fun _ : string => Completed Samples.badStatusText in
  GET Samples.pf (Some Samples.lastGood) 40000 exec
  = (Payload (data Samples.lastGood) (nowISO Samples.pf) true true,
     Some Samples.lastGood)
  /\ GET Samples.pf None 40000 exec = (Failure "Failed to fetch status" 500, None).
Proof.
  intros exec. split.
  - apply (C3_refresh_failure Samples.pf (Some Samples.lastGood) 40000 exec).
    + intros c Hc. injection Hc as <-. vm_compute. discriminate.
    + reflexivity.
  - apply (C3_refresh_failure Samples.pf None 40000 exec).
    + intros c Hc. discriminate Hc.
    + reflexivity.
Defined.

(** C3 as written fails twice.  With no previous entry and a refresh
    that throws (the snapshot carries a number where the runtime text
    is expected) the answer is the error payload, not a payload with
    absent data flagged stale.  With a previous entry and a bridge that
    returns [null] (the process timed out) the answer is not the
    previous entry flagged stale: it is a new payload without the
    flags. *)
Lemma C3_counterexample :
  fst (GET Samples.pf None 40000 (fun _ => Completed Samples.badStatusText))
  = Failure "Failed to fetch status" 500
  /\ Spec.statusOf Samples.pf (fun _ => TimedOut) = None
  /\ match fst (GET Samples.pf (Some Samples.lastGood) 40000 (fun _ => TimedOut)) with
     | Payload d _ cached stale =>
         cached = false /\ stale = false /\ d <> data Samples.lastGood
     | Failure _ _ => False
     end.
Proof.
  split; [reflexivity|]. split; [reflexivity|].
  cbv. repeat split. discriminate.
Qed.

End CacheFacts.

(** ** Activity feed: statements *)

Module ActivityFacts.

Import ActivityRoute.

Lemma filter_filter {A} (f g : A -> bool) (l : list A) :
  filter f (filter g l) = filter (fun x => g x && f x) l.
Proof.
  induction l as [|x l IH]; simpl; [reflexivity|].
  destruct (g x); simpl; [destruct (f x)|]; now rewrite IH.
Qed.

(** *** The sort *)

Lemma insertDesc_perm e l : Permutation (insertDesc e l) (e :: l).
Proof.
  induction l as [|y r IH]; simpl; [reflexivity|].
  destruct (staysBefore e y); [reflexivity|].
  rewrite IH. apply perm_swap.
Qed.

Lemma stableDesc_perm l : Permutation (stableDesc l) l.
Proof.
  induction l as [|e r IH]; simpl; [reflexivity|].
  rewrite insertDesc_perm. now constructor.
Qed.

(** An order that names every position once is a rearrangement of the
    positions. *)
Lemma validOrder_perm order n :
  validOrder order n = true -> Permutation (seq 0 n) order.
Proof.
  unfold validOrder. intros H. apply andb_true_iff in H as [Hlen Hall].
  apply Nat.eqb_eq in Hlen. rewrite forallb_forall in Hall.
  apply NoDup_Permutation_bis.
  - apply seq_NoDup.
  - rewrite length_seq. lia.
  - intros i Hi. specialize (Hall i Hi).
    apply existsb_exists in Hall as (j & Hj & E).
    apply Nat.eqb_eq in E. now subst j.
Qed.

Lemma picks_from {A} (pre l : list A) :
  flat_map (pick (pre ++ l)) (seq (List.length pre) (List.length l)) = l.
Proof.
  revert pre. induction l as [|x l IH]; intros pre; [reflexivity|].
  cbn [List.length seq flat_map]. unfold pick at 1.
  rewrite nth_error_app2 by lia. rewrite Nat.sub_diag. cbn [nth_error app].
  f_equal. specialize (IH (pre ++ [x])).
  rewrite <- app_assoc, length_app in IH. cbn [app List.length] in IH.
  now rewrite Nat.add_1_r in IH.
Qed.

Lemma arrange_perm {A} (order : list nat) (l : list A) :
  Permutation (arrange order l) l.
Proof.
  unfold arrange. destruct (validOrder order (List.length l)) eqn:Hv; [|reflexivity].
  rewrite <- (picks_from [] l) at 2. cbn [app List.length].
  apply Permutation_flat_map, Permutation_sym, validOrder_perm, Hv.
Qed.

(** Whatever the engine, the sort rearranges. *)
Lemma sortDesc_perm engine l : Permutation (sortDesc engine l) l.
Proof.
  unfold sortDesc. destruct (forallb dated l);
    [apply stableDesc_perm | apply arrange_perm].
Qed.

Lemma allDated_forallb l : Spec.allDated l <-> forallb dated l = true.
Proof. unfold Spec.allDated. now rewrite forallb_forall, Forall_forall. Qed.

(** When every timestamp is a date, the engine has no say. *)
Lemma sortDesc_dated engine l :
  Spec.allDated l -> sortDesc engine l = stableDesc l.
Proof. intros H. apply allDated_forallb in H. unfold sortDesc. now rewrite H. Qed.

Lemma allDated_perm l l' :
  Permutation l l' -> Spec.allDated l -> Spec.allDated l'.
Proof. intros Hp. apply Permutation_Forall, Hp. Qed.

Lemma allDated_incl l l' :
  (forall x, In x l' -> In x l) -> Spec.allDated l -> Spec.allDated l'.
Proof.
  unfold Spec.allDated. rewrite !Forall_forall. intros Hin H x Hx. apply H, Hin, Hx.
Qed.

Lemma dated_instant e :
  dated e = true -> exists t, timestamp e = At t.
Proof. unfold dated. destruct (timestamp e) as [t|]; [now exists t | discriminate]. Qed.


Lemma notEarlier_trans a b c :
  Spec.notEarlier a b -> Spec.notEarlier b c -> Spec.notEarlier a c.
Proof.
  unfold Spec.notEarlier.
  destruct (instant (timestamp a)), (instant (timestamp b)),
    (instant (timestamp c)); try tauto. lia.
Qed.


(** The comparator on two dates. *)
Lemma staysBefore_true e y :
  dated e = true -> dated y = true ->
  staysBefore e y = true -> Spec.notEarlier e y.
Proof.
  intros He Hy. apply dated_instant in He as [te He].
  apply dated_instant in Hy as [ty Hy].
  unfold staysBefore, compare, Spec.notEarlier. rewrite He, Hy. cbn.
  intros H. apply Z.leb_le in H. lia.
Qed.

(** The comparator puts [y] first only when both are dates and [y] is
    the later. *)
Lemma staysBefore_false e y :
  staysBefore e y = false ->
  exists te ty, timestamp e = At te /\ timestamp y = At ty /\ (te < ty)%Z.
Proof.
  unfold staysBefore, compare.
  destruct (timestamp e) as [te|], (timestamp y) as [ty|]; cbn; try discriminate.
  intros H. apply Z.leb_gt in H. exists te, ty. repeat split. lia.
Qed.

Lemma insertDesc_descending e l :
  dated e = true -> Spec.allDated l ->
  Spec.descending l -> Spec.descending (insertDesc e l).
Proof.
  unfold Spec.descending. intros He.
  induction l as [|y r IH]; intros Hd Hl; simpl.
  - repeat constructor.
  - apply StronglySorted_inv in Hl as [Hr Hy].
    apply Forall_cons_iff in Hd as [Hyd Hrd].
    destruct (staysBefore e y) eqn:Hs.
    + apply (staysBefore_true _ _ He Hyd) in Hs. constructor.
      * constructor; assumption.
      * constructor; [exact Hs|].
        eapply Forall_impl; [|exact Hy]. simpl. intros z Hz.
        eapply notEarlier_trans; eassumption.
    + apply staysBefore_false in Hs as (te & ty & Hte & Hty & Hlt).
      constructor; [now apply IH|].
      apply (Permutation_Forall (Permutation_sym (insertDesc_perm e r))).
      constructor; [|exact Hy].
      unfold Spec.notEarlier. rewrite Hte, Hty. cbn. lia.
Qed.

Lemma stableDesc_descending l :
  Spec.allDated l -> Spec.descending (stableDesc l).
Proof.
  induction l as [|e r IH]; intros Hd; simpl; [constructor|].
  apply Forall_cons_iff in Hd as [He Hr].
  apply insertDesc_descending; [exact He | | now apply IH].
  eapply allDated_perm; [apply Permutation_sym, stableDesc_perm | exact Hr].
Qed.

Lemma sortDesc_descending engine l :
  Spec.allDated l -> Spec.descending (sortDesc engine l).
Proof.
  intros Hd. rewrite (sortDesc_dated _ _ Hd). now apply stableDesc_descending.
Qed.




(** *** The filter with the seen set *)

Lemma dedupeFrom_keepFirst seen l :
  dedupeFrom seen l = filter (Spec.unseen seen) (Spec.keepFirst l).
Proof.
  revert seen. induction l as [|e r IH]; intros seen; [reflexivity|].
  cbn [dedupeFrom Spec.keepFirst filter]. unfold Spec.unseen at 1.
  destruct (existsb (String.eqb (id e)) seen) eqn:Hseen; cbn [negb].
  - rewrite IH, filter_filter. apply filter_ext_in. intros x _.
    unfold Spec.sameId, Spec.unseen.
    destruct (id x =? id e)%string eqn:Hx; [|reflexivity].
    apply String.eqb_eq in Hx. rewrite Hx, Hseen. reflexivity.
  - f_equal. rewrite IH, filter_filter. apply filter_ext. intros x.
    unfold Spec.sameId, Spec.unseen. cbn [existsb].
    destruct (id x =? id e)%string; reflexivity.
Qed.

Lemma dedupe_keepFirst l : dedupe l = Spec.keepFirst l.
Proof.
  unfold dedupe. rewrite dedupeFrom_keepFirst.
  induction (Spec.keepFirst l) as [|x k IH]; [reflexivity|].
  simpl. now rewrite IH.
Qed.

Lemma keepFirst_incl l x : In x (Spec.keepFirst l) -> In x l.
Proof.
  revert x. induction l as [|e r IH]; intros x; simpl; [tauto|].
  intros [-> | Hx]; [now left|].
  apply filter_In in Hx as [Hx _]. right. now apply IH.
Qed.

Lemma descending_filter f l :
  Spec.descending l -> Spec.descending (filter f l).
Proof.
  unfold Spec.descending.
  induction l as [|e r IH]; intros Hl; simpl; [constructor|].
  apply StronglySorted_inv in Hl as [Hr He].
  destruct (f e); [|now apply IH].
  constructor; [now apply IH|].
  apply Forall_forall. intros x Hx. apply filter_In in Hx as [Hx _].
  rewrite Forall_forall in He. now apply He.
Qed.

Lemma keepFirst_descending l :
  Spec.descending l -> Spec.descending (Spec.keepFirst l).
Proof.
  induction l as [|e r IH]; intros Hl; simpl; [constructor|].
  pose proof Hl as Hl'. unfold Spec.descending in Hl'.
  apply StronglySorted_inv in Hl' as [Hr He].
  constructor.
  - apply descending_filter. now apply IH.
  - apply Forall_forall. intros x Hx. apply filter_In in Hx as [Hx _].
    apply keepFirst_incl in Hx. rewrite Forall_forall in He. now apply He.
Qed.

Lemma NoDup_ids_filter f (l : list ActivityEntry) :
  NoDup (map id l) -> NoDup (map id (filter f l)).
Proof.
  induction l as [|e r IH]; simpl; intros Hnd; [constructor|].
  inversion Hnd as [|? ? Hnot Hr]; subst.
  destruct (f e); [|now apply IH].
  simpl. constructor; [|now apply IH].
  intros Hin. apply Hnot. apply in_map_iff in Hin as (x & Hx & Hin).
  apply filter_In in Hin as [Hin _]. apply in_map_iff. now exists x.
Qed.

Lemma keepFirst_NoDup l : NoDup (map id (Spec.keepFirst l)).
Proof.
  induction l as [|e r IH]; simpl; [constructor|].
  constructor; [|now apply NoDup_ids_filter].
  intros Hin. apply in_map_iff in Hin as (x & Hx & Hin).
  apply filter_In in Hin as [_ Hne]. unfold Spec.sameId in Hne.
  rewrite Hx, String.eqb_refl in Hne. discriminate.
Qed.


(** Every [id] of a list has its representative among the entries
    kept. *)
Lemma keepFirst_covers l e :
  In e l -> exists k, In k (Spec.keepFirst l) /\ id k = id e.
Proof.
  induction l as [|h r IH]; intros He; [destruct He|].
  destruct He as [-> | He]; [exists e; simpl; auto|].
  destruct (id e =? id h)%string eqn:E.
  - apply String.eqb_eq in E. exists h. simpl. auto.
  - destruct (IH He) as (k & Hk & Hid). exists k. split; [|exact Hid].
    simpl. right. apply filter_In. split; [exact Hk|].
    unfold Spec.sameId. now rewrite Hid, E.
Qed.



Lemma sessionEntry_id sess :
  id (sessionEntry sess) = JS.orElse (sessionId sess) (JS.orElse (key sess) "").
Proof. unfold sessionEntry. destruct (classify _) as [[ty ch] sm]. reflexivity. Qed.





Lemma normalize_NoDup engine S C M : NoDup (map id (normalize engine S C M)).
Proof. unfold normalize. rewrite dedupe_keepFirst. apply keepFirst_NoDup. Qed.

Lemma normalize_ok engine S C M :
  Spec.allDated (S ++ C ++ M) -> Spec.feedOk (normalize engine S C M).
Proof.
  intros Hd. split; [|apply normalize_NoDup].
  unfold normalize. rewrite dedupe_keepFirst.
  now apply keepFirst_descending, sortDesc_descending.
Qed.

(** With distinct [id]s the filter drops nothing. *)
Lemma keepFirst_fixed l : NoDup (map id l) -> Spec.keepFirst l = l.
Proof.
  induction l as [|e r IH]; intros Hnd; [reflexivity|].
  inversion Hnd as [|? ? Hnot Hr]; subst.
  cbn [Spec.keepFirst]. rewrite (IH Hr). f_equal.
  assert (Hall : forall (f : ActivityEntry -> bool) (l : list ActivityEntry),
             (forall x, In x l -> f x = true) -> filter f l = l).
  { intros f l. induction l as [|x l IHl]; intros H; simpl; [reflexivity|].
    rewrite (H x (or_introl eq_refl)), IHl; [reflexivity|].
    intros y Hy. apply H. now right. }
  apply Hall. intros x Hx. unfold Spec.sameId.
  destruct (id x =? id e)%string eqn:E; [|reflexivity].
  apply String.eqb_eq in E. exfalso. apply Hnot. rewrite <- E. now apply in_map.
Qed.

Lemma distinct_ids_kept engine (l : list ActivityEntry) :
  NoDup (map id l) -> dedupe (sortDesc engine l) = sortDesc engine l.
Proof.
  intros Hnd. rewrite dedupe_keepFirst. apply keepFirst_fixed.
  eapply Permutation_NoDup; [|exact Hnd].
  apply Permutation_map, Permutation_sym, sortDesc_perm.
Qed.








(** *** The query *)

Lemma filterIf_filter p f l :
  filterIf p f l
  = filter (fun e => match p with
                     | Some s => if JS.nonEmpty s then f s e else true
                     | None => true
                     end) l.
Proof.
  assert (Hall : filter (fun _ : ActivityEntry => true) l = l).
  { induction l as [|x l IH]; simpl; [reflexivity | now rewrite IH]. }
  unfold filterIf. destruct p as [s|]; [|now rewrite Hall].
  destruct (JS.nonEmpty s); [reflexivity | now rewrite Hall].
Qed.

Lemma typeName_lower ty : JS.toLowerCase (ActivityType.name ty) = ActivityType.name ty.
Proof. destruct ty; reflexivity. Qed.

Lemma nonEmpty_lower s : JS.nonEmpty (JS.toLowerCase s) = JS.nonEmpty s.
Proof. destruct s; reflexivity. Qed.

Lemma query_filters feed q :
  filterIf (option_map JS.toLowerCase (qSearch q)) searchHit
    (filterIf (qChannel q) channelIs (filterIf (qType q) typeIs feed))
  = filter (Spec.matches q) feed.
Proof.
  rewrite !filterIf_filter, !filter_filter. apply filter_ext. intros e.
  unfold Spec.matches, Spec.wanted, Spec.searchMatch, typeIs, channelIs, searchHit.
  rewrite andb_assoc. f_equal. destruct (qSearch q) as [s|]; [|reflexivity].
  cbn [option_map]. rewrite nonEmpty_lower, typeName_lower. reflexivity.
Qed.

Lemma slice_window {A} (l : list A) (start n : Z) :
  (0 <= start)%Z -> (0 <= n)%Z ->
  slice l (Num.Int start) (Num.Int (start + n))
  = firstn (Z.to_nat n) (skipn (Z.to_nat start) l).
Proof.
  intros Hs Hn. unfold slice, position.
  destruct (start <? 0)%Z eqn:H1; [apply Z.ltb_lt in H1; lia|].
  destruct (start + n <? 0)%Z eqn:H2; [apply Z.ltb_lt in H2; lia|].
  destruct (Z_lt_le_dec start (Z.of_nat (List.length l))) as [Hin | Hout].
  - rewrite (Z.min_l start) by lia.
    set (X := skipn (Z.to_nat start) l).
    assert (HX : List.length X = (List.length l - Z.to_nat start)%nat)
      by apply length_skipn.
    destruct (Z_le_gt_dec (start + n) (Z.of_nat (List.length l))) as [Hfit | Hcut].
    + rewrite Z.min_l by lia. f_equal. lia.
    + rewrite Z.min_r by lia.
      rewrite (firstn_all2 (n := Z.to_nat n)) by lia.
      apply firstn_all2. lia.
  - rewrite (Z.min_r start) by lia.
    rewrite !(skipn_all2 (n := _) l) by lia.
    now rewrite !firstn_nil.
Qed.

(** Bounds of which the second stands for no later position than the
    first cut nothing out. *)
Lemma slice_empty {A} (l : list A) (from to : Num.t) :
  (position (Z.of_nat (List.length l)) to
   <= position (Z.of_nat (List.length l)) from)%Z ->
  slice l from to = [].
Proof.
  intros H. unfold slice.
  replace (Z.to_nat (position (Z.of_nat (List.length l)) to
                     - position (Z.of_nat (List.length l)) from)) with 0%nat by lia.
  reflexivity.
Qed.

Lemma firstn_incl_hits {A} n (l : list A) x : In x (firstn n l) -> In x l.
Proof.
  intros Hx. rewrite <- (firstn_skipn n l). apply in_or_app. now left.
Qed.

Lemma skipn_incl_hits {A} n (l : list A) x : In x (skipn n l) -> In x l.
Proof.
  intros Hx. rewrite <- (firstn_skipn n l). apply in_or_app. now right.
Qed.

(** The page of a query whose numbers are whole. *)
Lemma query_whole feed q p s :
  page q = Num.Int p -> pageSize q = Num.Int s ->
  let hits := filter (Spec.matches q) feed in
  items (query feed q)
  = slice hits (Num.Int ((p - 1) * s)) (Num.Int ((p - 1) * s + s))
  /\ hasMore (query feed q) = ((p - 1) * s + s <? Z.of_nat (List.length hits))%Z.
Proof.
  intros Hp Hs hits. subst hits. unfold query. cbn [items hasMore].
  rewrite query_filters, Hp, Hs. split; reflexivity.
Qed.

Lemma query_total feed q :
  total (query feed q) = Z.of_nat (List.length (filter (Spec.matches q) feed)).
Proof. unfold query. cbn [total]. now rewrite query_filters. Qed.

(** The page of a query one of whose numbers is the positive infinity,
    the other being a whole number that is not below its bound or the
    positive infinity too: no item, and no more. *)
Lemma query_infinite feed q :
  Num.leb (Num.Int 1) (page q) = true ->
  Num.ltb (Num.Int 0) (pageSize q) = true ->
  page q = Num.Inf false \/ pageSize q = Num.Inf false ->
  items (query feed q) = []
  /\ hasMore (query feed q) = false
  /\ Num.ltb (Num.mul (page q) (pageSize q)) (Num.Int (total (query feed q))) = false.
Proof.
  intros Hpage Hsize Hinf. unfold query. cbn [items hasMore total].
  destruct (page q) as [p| |[]]; try discriminate Hpage;
    destruct (pageSize q) as [s| |[]]; try discriminate Hsize;
    cbn [Num.leb Num.ltb negb] in Hpage, Hsize.
  - destruct Hinf; discriminate.
  - apply Z.leb_le in Hpage. cbn [Num.sub Num.add Num.mul Z.opp].
    assert (Hp0 : (p =? 0)%Z = false) by (apply Z.eqb_neq; lia).
    assert (Hpn : (p <? 0)%Z = false) by (apply Z.ltb_ge; lia).
    rewrite Hp0, Hpn. cbn [xorb].
    destruct (p + -1 =? 0)%Z; [|destruct (p + -1 <? 0)%Z eqn:E;
                                 [apply Z.ltb_lt in E; lia|]];
      cbn [xorb Num.add Bool.eqb Num.ltb negb andb];
      (split; [apply slice_empty; cbv [position]; lia | split; reflexivity]).
  - apply Z.ltb_lt in Hsize. cbn [Num.sub Num.add Num.mul].
    assert (Hs0 : (s =? 0)%Z = false) by (apply Z.eqb_neq; lia).
    assert (Hsn : (s <? 0)%Z = false) by (apply Z.ltb_ge; lia).
    rewrite Hs0, Hsn. cbn [xorb Num.add Num.ltb].
    split; [apply slice_empty; cbv [position]; lia | split; reflexivity].
  - cbn [Num.sub Num.add Num.mul xorb Bool.eqb Num.ltb negb andb].
    split; [apply slice_empty; cbv [position]; lia | split; reflexivity].
Qed.

(** C7.  For a page number of at least one and a positive page size,
    the page holds at most [pageSize] items; with whole numbers they
    are the items of rank [(page - 1) * pageSize] onwards among the
    entries that pass the filter; [total] counts the entries that pass
    the conjunction of the type, channel and search filters, the search
    comparing in lower case; [hasMore] says whether
    [page * pageSize < total]; every item passes the filter, and with a
    type given every item has that type. *)
Theorem C7_query_page (feed : list ActivityEntry) (q : Query)
    (Hpage : Num.leb (Num.Int 1) (page q) = true)
    (Hsize : Num.ltb (Num.Int 0) (pageSize q) = true) :
  let r := query feed q in
  let hits := filter (Spec.matches q) feed in
  total r = Z.of_nat (List.length hits)
  /\ (forall p s, page q = Num.Int p -> pageSize q = Num.Int s ->
        items r = firstn (Z.to_nat s) (skipn (Z.to_nat ((p - 1) * s)) hits))
  /\ Num.leb (Num.Int (Z.of_nat (List.length (items r)))) (pageSize q) = true
  /\ hasMore r = Num.ltb (Num.mul (page q) (pageSize q)) (Num.Int (total r))
  /\ (forall e, In e (items r) -> Spec.matches q e = true)
  /\ (forall t, qType q = Some t -> t <> EmptyString ->
        forall e, In e (items r) -> ActivityType.name (type e) = t).
Proof.
  intros r hits.
  assert (Hwhole : forall p s, page q = Num.Int p -> pageSize q = Num.Int s ->
            items r = firstn (Z.to_nat s) (skipn (Z.to_nat ((p - 1) * s)) hits)).
  { intros p s Hp Hs. rewrite Hp in Hpage. rewrite Hs in Hsize.
    cbn [Num.leb Num.ltb] in Hpage, Hsize.
    apply Z.leb_le in Hpage. apply Z.ltb_lt in Hsize.
    subst r. rewrite (proj1 (query_whole feed q p s Hp Hs)).
    apply slice_window; nia. }
  assert (Hcases : (exists p s, page q = Num.Int p /\ pageSize q = Num.Int s
                                /\ (1 <= p)%Z /\ (0 < s)%Z)
                   \/ page q = Num.Inf false \/ pageSize q = Num.Inf false).
  { destruct (page q) as [p| |[]]; try discriminate Hpage;
      destruct (pageSize q) as [s| |[]]; try discriminate Hsize; auto.
    left. exists p, s. cbn [Num.leb Num.ltb] in Hpage, Hsize.
    apply Z.leb_le in Hpage. apply Z.ltb_lt in Hsize. auto. }
  assert (Hitems : forall e, In e (items r) -> In e hits).
  { intros e He. destruct Hcases as [(p & s & Hp & Hs & _) | Hinf].
    - rewrite (Hwhole p s Hp Hs) in He.
      eapply skipn_incl_hits, firstn_incl_hits, He.
    - subst r. rewrite (proj1 (query_infinite feed q Hpage Hsize Hinf)) in He.
      destruct He. }
  assert (Hpass : forall e, In e (items r) -> Spec.matches q e = true).
  { intros e He. apply Hitems in He. apply filter_In in He. tauto. }
  repeat match goal with |- _ /\ _ => split end.
  - apply query_total.
  - exact Hwhole.
  - destruct Hcases as [(p & s & Hp & Hs & _) | Hinf].
    + rewrite (Hwhole p s Hp Hs), Hs. cbn [Num.leb]. apply Z.leb_le.
      pose proof (firstn_le_length (Z.to_nat s)
                    (skipn (Z.to_nat ((p - 1) * s)) hits)).
      rewrite Hs in Hsize. cbn [Num.ltb] in Hsize. apply Z.ltb_lt in Hsize. lia.
    + subst r. rewrite (proj1 (query_infinite feed q Hpage Hsize Hinf)).
      cbn [List.length Z.of_nat].
      destruct (pageSize q) as [s| |[]]; try discriminate Hsize; [|reflexivity].
      cbn [Num.ltb Num.leb] in *. apply Z.ltb_lt in Hsize. apply Z.leb_le. lia.
  - destruct Hcases as [(p & s & Hp & Hs & _) | Hinf].
    + subst r. rewrite (proj2 (query_whole feed q p s Hp Hs)), query_total.
      rewrite Hp, Hs. cbn [Num.mul Num.ltb]. f_equal. ring.
    + subst r. destruct (query_infinite feed q Hpage Hsize Hinf) as (_ & -> & ->).
      reflexivity.
  - exact Hpass.
  - intros t Ht Hne e He. pose proof (Hpass e He) as Hm.
    unfold Spec.matches in Hm. rewrite Ht in Hm.
    apply andb_true_iff in Hm as [Hm _]. apply andb_true_iff in Hm as [Hm _].
    unfold Spec.wanted in Hm.
    destruct t as [|c t]; [congruence|]. cbn [JS.nonEmpty] in Hm.
    now apply String.eqb_eq in Hm.
Qed.

Lemma C7_query_page_witness :
  let r := query Samples.smallFeed Samples.cronQuery in
  total r = 1%Z /\ hasMore r = false
  /\ (forall e, In e (items r) -> ActivityType.name (type e) = "cron").
Proof.
  intros r.
  pose proof (C7_query_page Samples.smallFeed Samples.cronQuery) as H.
  destruct H as (Htotal & _ & _ & Hmore & _ & Htype).
  - reflexivity.
  - reflexivity.
  - split; [exact Htotal|]. split; [exact Hmore|].
    apply (Htype "cron"); [reflexivity | discriminate].
Defined.

(** Each merged entry has one representative of its [id] in the feed. *)
Lemma feed_representative engine S C M e :
  In e (S ++ C ++ M) ->
  exists k, In k (normalize engine S C M) /\ In k (S ++ C ++ M) /\ id k = id e
            /\ NoDup (map id (normalize engine S C M)).
Proof.
  intros He. unfold normalize. rewrite dedupe_keepFirst.
  assert (He' : In e (sortDesc engine (S ++ C ++ M))).
  { eapply Permutation_in; [apply Permutation_sym, sortDesc_perm | exact He]. }
  destruct (keepFirst_covers _ _ He') as (k & Hk & Hid).
  exists k. repeat split; try assumption; [|apply keepFirst_NoDup].
  apply keepFirst_incl in Hk.
  eapply Permutation_in; [apply sortDesc_perm | exact Hk].
Qed.

(** *** Memory headings *)

Lemma memoryLoop_nth today clock start lines j :
  nth_error (memoryLoop today clock start lines) j
  = option_map (fun line => memoryEntry today (start + j) line (clock (start + j)%nat))
      (nth_error lines j).
Proof.
  revert start j. induction lines as [|l r IH]; intros start j.
  - destruct j; reflexivity.
  - destruct j as [|j]; cbn [memoryLoop nth_error option_map].
    + now rewrite Nat.add_0_r.
    + rewrite IH. now rewrite Nat.add_succ_comm.
Qed.

Lemma memoryLoop_length today clock start lines :
  List.length (memoryLoop today clock start lines) = List.length lines.
Proof.
  revert start. induction lines as [|l r IH]; intros start; simpl;
    [reflexivity | now rewrite IH].
Qed.

Lemma memoryEntries_nth today content clock i :
  nth_error (memoryEntries today (Some content) clock) i
  = if (i <? 5)%nat
    then option_map (fun line => memoryEntry today i line (clock i))
           (nth_error (headingLines content) i)
    else None.
Proof.
  unfold memoryEntries. rewrite memoryLoop_nth. cbn [Nat.add].
  rewrite nth_error_firstn.
  destruct (i <? 5)%nat eqn:H5.
  - destruct (i <? Nat.min (List.length (headingLines content)) 5)%nat eqn:Hm;
      [reflexivity|].
    apply Nat.ltb_lt in H5. apply Nat.ltb_ge in Hm.
    assert (Hlen : (List.length (headingLines content) <= i)%nat) by lia.
    apply nth_error_None in Hlen. now rewrite Hlen.
  - destruct (i <? Nat.min (List.length (headingLines content)) 5)%nat eqn:Hm;
      [|reflexivity].
    apply Nat.ltb_ge in H5. apply Nat.ltb_lt in Hm. lia.
Qed.

Lemma append_cancel_l (s a b : string) : (s ++ a = s ++ b)%string -> a = b.
Proof.
  induction s as [|c s IH]; simpl; intros H; [exact H|].
  injection H as H. now apply IH.
Qed.

Lemma memoryId_inj today i j line line' t t' :
  (i < 5)%nat -> (j < 5)%nat ->
  id (memoryEntry today i line t) = id (memoryEntry today j line' t') -> i = j.
Proof.
  intros Hi Hj H. cbn [id memoryEntry] in H.
  apply (append_cancel_l "mem_") in H. apply append_cancel_l in H.
  apply (append_cancel_l "_") in H.
  do 5 (destruct i as [|i]; [do 5 (destruct j as [|j]; [first [reflexivity | discriminate H]|]); lia|]).
  lia.
Qed.

Lemma cronEntries_ids jobs k :
  In k (cronEntries jobs) -> exists rest, id k = String "c" rest.
Proof.
  induction jobs as [|job r IH]; simpl; [tauto|].
  destruct (lastRunOf job) as [t|]; [|exact IH].
  intros [<- | Hk]; [|now apply IH].
  eexists. reflexivity.
Qed.

Lemma filter_sameId_single (l : list ActivityEntry) k :
  NoDup (map id l) -> In k l -> filter (Spec.sameId k) l = [k].
Proof.
  induction l as [|e r IH]; intros Hnd Hk; [destruct Hk|].
  inversion Hnd as [|? ? Hnot Hr]; subst. cbn [filter].
  assert (Hnone : forall x, id x = id e -> ~ In x r).
  { intros x Hx Hin. apply Hnot. rewrite <- Hx. now apply in_map. }
  destruct Hk as [-> | Hk].
  - unfold Spec.sameId at 1. rewrite String.eqb_refl. f_equal.
    clear IH Hnd Hnot Hr. induction r as [|x r IHr]; [reflexivity|].
    cbn [filter]. unfold Spec.sameId at 1.
    destruct (id x =? id k)%string eqn:Hx.
    + apply String.eqb_eq in Hx. exfalso. apply (Hnone x Hx). now left.
    + apply IHr. intros y Hy Hin. apply (Hnone y Hy). now right.
  - unfold Spec.sameId at 1.
    destruct (id e =? id k)%string eqn:He; [|now apply IH].
    apply String.eqb_eq in He. exfalso. apply (Hnone k); [now symmetry | exact Hk].
Qed.

(** C8, as the route has it.  At most five entries are made: the lines
    of the note of the day that start with [## ] or [### ], up to the
    fifth, each give one entry of type [memory], of id
    [mem_<day>_<index>], at the instant the clock shows in its
    iteration; later headings give none.  Such an entry is the one
    entry of its id in the feed unless an entry made from a session
    carries the same id, whatever the sort makes of entries whose
    timestamps cannot be compared. *)
Theorem C8_memory_headings (today content : string) (clock : nat -> Time) :
  let lines := headingLines content in
  let made := memoryEntries today (Some content) clock in
  List.length made = Nat.min (List.length lines) 5
  /\ (forall i line,
        (i < 5)%nat -> nth_error lines i = Some line ->
        let e := memoryEntry today i line (clock i) in
        nth_error made i = Some e
        /\ type e = ActivityType.memory
        /\ timestamp e = At (clock i)
        /\ forall engine fromSessions jobs,
             (forall s, In s fromSessions -> id s <> id e) ->
             filter (Spec.sameId e)
               (normalize engine fromSessions (cronEntries jobs) made)
             = [e]).
Proof.
  intros lines made. split.
  - subst made lines. unfold memoryEntries. rewrite memoryLoop_length.
    rewrite length_firstn. lia.
  - intros i line Hi Hline e.
    assert (Hnth : nth_error made i = Some e).
    { subst made. rewrite memoryEntries_nth.
      apply Nat.ltb_lt in Hi. rewrite Hi. fold lines. now rewrite Hline. }
    repeat split; try assumption.
    intros engine fromSessions jobs Hfresh.
    pose proof (feed_representative engine fromSessions (cronEntries jobs) made e)
      as Hk.
    destruct Hk as (k & Hkfeed & Hkmerged & Hid & Hnd).
    { apply in_or_app. right. apply in_or_app. right.
      eapply nth_error_In, Hnth. }
    assert (Hke : k = e).
    { apply in_app_or in Hkmerged as [Hs | Hk].
      - exfalso. now apply (Hfresh k Hs).
      - apply in_app_or in Hk as [Hc | Hm].
        + apply cronEntries_ids in Hc as (rest & Hc).
          rewrite Hid in Hc. discriminate Hc.
        + apply In_nth_error in Hm as (j & Hj).
          subst made. rewrite memoryEntries_nth in Hj.
          destruct (j <? 5)%nat eqn:Hj5; [|discriminate].
          apply Nat.ltb_lt in Hj5.
          destruct (nth_error (headingLines content) j) as [line'|] eqn:Hl';
            [|discriminate].
          cbn [option_map] in Hj. injection Hj as <-.
          assert (j = i) by (eapply memoryId_inj; eauto).
          subst j. fold lines in Hl'. rewrite Hline in Hl'.
          injection Hl' as <-. reflexivity. }
    subst k. now apply filter_sameId_single.
Qed.

Lemma C8_memory_headings_witness :
  let clock := fun i : nat => (7000 + Z.of_nat i)%Z in
  let e := memoryEntry "2026-02-18" 4 "## E" (clock 4%nat) in
  filter (Spec.sameId e)
    (normalize Samples.keepOrder (sessionEntries [Samples.sessionAt 1000])
       (cronEntries [Samples.nightlyJob; Samples.undatedJob])
       (memoryEntries "2026-02-18" (Some Samples.sixHeadings) clock))
  = [e].
Proof.
  intros clock e.
  pose proof (C8_memory_headings "2026-02-18" Samples.sixHeadings clock)
    as [_ Hmade].
  destruct (Hmade 4%nat "## E") as (_ & _ & _ & Hfeed);
    [repeat constructor | reflexivity |].
  apply Hfeed. intros s [<- | []]. discriminate.
Defined.

(** C8 as written fails: the note has six section titles of the second
    and third level, five entries are made, and none for the sixth. *)
Lemma C8_counterexample :
  let made :=
    memoryEntries "2026-02-18" (Some Samples.sixHeadings) (fun _ => 7000%Z) in
  List.length (headingLines Samples.sixHeadings) = 6%nat
  /\ List.length made = 5%nat
  /\ existsb (fun e => (summary e =? "Memory: F")%string)
       (normalize Samples.keepOrder [] [] made) = false.
Proof. repeat split. Qed.

End ActivityFacts.

(** ** Cron summaries: statements *)

Module CronFacts.

Import SystemRoute.

Lemma summarize_rated job s : summarize job = Some s -> Spec.rated s.
Proof.
  unfold summarize.
  destruct (isoOrNull _); [|discriminate].
  destruct (isoOrNull _); [|discriminate].
  intros H; injection H as <-.
  unfold Spec.rated, Spec.rateOfErrors. cbn [successRate consecutiveErrors].
  unfold successRateOf.
  destruct (stConsecutiveErrors _) as [[|n|n]|]; lia.
Qed.

Lemma summarizeAll_rated jobs out :
  summarizeAll jobs = Some out -> Forall Spec.rated out.
Proof.
  revert out. induction jobs as [|job r IH]; intros out; simpl.
  - intros H; injection H as <-. constructor.
  - destruct (summarize job) as [s|] eqn:Hs; [|discriminate].
    destruct (summarizeAll r) as [l|]; [|discriminate].
    intros H; injection H as <-.
    constructor; [eapply summarize_rated, Hs | now apply IH].
Qed.

Lemma heartbeats_rated agents mapped :
  Forall Spec.rated mapped -> Forall Spec.rated (fold_left addHeartbeat agents mapped).
Proof.
  revert mapped. induction agents as [|a r IH]; intros mapped Hm; [exact Hm|].
  simpl. apply IH. unfold addHeartbeat.
  destruct (existsb _ mapped); [exact Hm|].
  apply Forall_app. split; [exact Hm|]. repeat constructor.
Qed.

Lemma cronJobs_rated jobs agents out :
  cronJobs jobs agents = Some out -> Forall Spec.rated out.
Proof.
  unfold cronJobs. destruct (summarizeAll jobs) as [mapped|] eqn:Hm; [|discriminate].
  intros H; injection H as <-.
  apply heartbeats_rated. eapply summarizeAll_rated, Hm.
Qed.

(** A summary made from a record copies the count of the record, zero
    when the record has none, and its rate is the function of that
    count. *)
Lemma summarize_count job s :
  summarize job = Some s ->
  id s = jobId job
  /\ consecutiveErrors s = Spec.errorCount job
  /\ successRate s = Spec.rateOfErrors (Spec.errorCount job).
Proof.
  intros Hs. pose proof (summarize_rated _ _ Hs) as Hr. unfold Spec.rated in Hr.
  assert (Hc : id s = jobId job /\ consecutiveErrors s = Spec.errorCount job).
  { revert Hs. unfold summarize, Spec.errorCount.
    destruct (isoOrNull _); [|discriminate].
    destruct (isoOrNull _); [|discriminate].
    intros H; injection H as <-. cbn [id consecutiveErrors].
    destruct (jobState job) as [st|]; split; reflexivity. }
  destruct Hc as [Hi Hc]. rewrite <- Hc. repeat split; assumption.
Qed.

Lemma summarizeAll_nth jobs mapped i job :
  summarizeAll jobs = Some mapped ->
  nth_error jobs i = Some job ->
  exists s, nth_error mapped i = Some s /\ summarize job = Some s.
Proof.
  revert mapped i. induction jobs as [|j r IH]; intros mapped i; simpl.
  - intros _ Hn. destruct i; discriminate.
  - destruct (summarize j) as [s|] eqn:Hs; [|discriminate].
    destruct (summarizeAll r) as [l|]; [|discriminate].
    intros H; injection H as <-. destruct i as [|i]; simpl.
    + intros Hn; injection Hn as <-. now exists s.
    + now apply IH.
Qed.

Lemma heartbeats_keep_nth agents mapped i s :
  nth_error mapped i = Some s ->
  nth_error (fold_left addHeartbeat agents mapped) i = Some s.
Proof.
  revert mapped. induction agents as [|a r IH]; intros mapped Hn; [exact Hn|].
  simpl. apply IH. unfold addHeartbeat.
  destruct (existsb _ mapped); [exact Hn|].
  rewrite nth_error_app1; [exact Hn|].
  apply nth_error_Some. congruence.
Qed.

(** The summary that the derived list holds for the job at a rank. *)
Lemma cronJobs_nth jobs agents out i job :
  cronJobs jobs agents = Some out ->
  nth_error jobs i = Some job ->
  exists s, nth_error out i = Some s /\ summarize job = Some s.
Proof.
  unfold cronJobs. destruct (summarizeAll jobs) as [mapped|] eqn:Hm; [|discriminate].
  intros H Hn; injection H as <-.
  destruct (summarizeAll_nth _ _ _ _ Hm Hn) as (s & Hs & Hsum).
  exists s. split; [now apply heartbeats_keep_nth | exact Hsum].
Qed.

(** C9.  The derived list of cron jobs holds, at the rank of each cron
    job record, a summary whose count of consecutive errors is the
    count of the record, zero when the record has none, and whose
    success rate is [max 0 (100 - 20 n)] for that count [n].  Hence, of
    two records, the one with the higher count never has the higher
    rate, and a record with a count of zero has the rate 100.  The same
    relation holds between the rate and the count of every job of the
    derived list, the synthetic heartbeat jobs included. *)
Theorem C9_success_rate_monotone jobs agents out
    (Hout : cronJobs jobs agents = Some out) :
  (forall i job, nth_error jobs i = Some job ->
     exists s, nth_error out i = Some s
               /\ id s = jobId job
               /\ consecutiveErrors s = Spec.errorCount job
               /\ successRate s = Spec.rateOfErrors (Spec.errorCount job))
  /\ (forall i1 i2 job1 job2 s1 s2,
        nth_error jobs i1 = Some job1 -> nth_error jobs i2 = Some job2 ->
        nth_error out i1 = Some s1 -> nth_error out i2 = Some s2 ->
        ((Spec.errorCount job1 <= Spec.errorCount job2)%Z ->
         (successRate s2 <= successRate s1)%Z)
        /\ (Spec.errorCount job1 = 0%Z -> successRate s1 = 100%Z))
  /\ (forall j1 j2, In j1 out -> In j2 out ->
        successRate j1 = Spec.rateOfErrors (consecutiveErrors j1)
        /\ ((consecutiveErrors j1 <= consecutiveErrors j2)%Z ->
            (successRate j2 <= successRate j1)%Z)
        /\ (consecutiveErrors j1 = 0%Z -> successRate j1 = 100%Z)).
Proof.
  assert (Hrank : forall i job, nth_error jobs i = Some job ->
            exists s, nth_error out i = Some s
                      /\ id s = jobId job
                      /\ consecutiveErrors s = Spec.errorCount job
                      /\ successRate s = Spec.rateOfErrors (Spec.errorCount job)).
  { intros i job Hn. destruct (cronJobs_nth _ _ _ _ _ Hout Hn) as (s & Hs & Hsum).
    exists s. split; [exact Hs|]. now apply summarize_count. }
  split; [exact Hrank|]. split.
  - intros i1 i2 job1 job2 s1 s2 Hj1 Hj2 Hs1 Hs2.
    destruct (Hrank _ _ Hj1) as (t1 & Ht1 & _ & _ & Hr1).
    destruct (Hrank _ _ Hj2) as (t2 & Ht2 & _ & _ & Hr2).
    assert (t1 = s1) by congruence. assert (t2 = s2) by congruence. subst t1 t2.
    rewrite Hr1, Hr2. unfold Spec.rateOfErrors. split; intros H; lia.
  - intros j1 j2 H1 H2.
    pose proof (cronJobs_rated _ _ _ Hout) as Hall. rewrite Forall_forall in Hall.
    pose proof (Hall j1 H1) as R1. pose proof (Hall j2 H2) as R2.
    unfold Spec.rated, Spec.rateOfErrors in R1, R2 |- *.
    repeat split; [exact R1 | intros Hle; lia | intros H0; lia].
Qed.

Lemma C9_success_rate_monotone_witness :
  let digest := Samples.jobWithErrors "digest" (Some 1%Z) in
  let backup := Samples.jobWithErrors "backup" (Some 3%Z) in
  let sweep := Samples.jobWithErrors "sweep" None in
  exists out s1 s2 s3,
    cronJobs [digest; backup; sweep] [Samples.mainHeartbeat] = Some out
    /\ nth_error out 0 = Some s1 /\ nth_error out 1 = Some s2
    /\ nth_error out 2 = Some s3
    /\ consecutiveErrors s1 = 1%Z /\ consecutiveErrors s2 = 3%Z
    /\ (successRate s2 <= successRate s1)%Z
    /\ successRate s3 = 100%Z.
Proof.
  intros digest backup sweep.
  pose proof (C9_success_rate_monotone [digest; backup; sweep]
                [Samples.mainHeartbeat] _ eq_refl) as (Hrank & Hpair & _).
  destruct (Hrank 0%nat digest eq_refl) as (s1 & H1 & _ & Hc1 & _).
  destruct (Hrank 1%nat backup eq_refl) as (s2 & H2 & _ & Hc2 & _).
  destruct (Hrank 2%nat sweep eq_refl) as (s3 & H3 & _ & _ & _).
  eexists. exists s1, s2, s3. split; [reflexivity|].
  split; [exact H1|]. split; [exact H2|]. split; [exact H3|].
  split; [exact Hc1|]. split; [exact Hc2|]. split.
  - apply (Hpair 0%nat 1%nat digest backup s1 s2 eq_refl eq_refl H1 H2).
    vm_compute. discriminate.
  - apply (Hpair 2%nat 2%nat sweep sweep s3 s3 eq_refl eq_refl H3 H3).
    reflexivity.
Defined.

End CronFacts.

(** ** Redaction: statements *)

Module RedactFacts.

Import ConfigRoute.

(** *** Substrings *)

Lemma prefix_spec (p s : string) :
  String.prefix p s = true <-> exists post, s = (p ++ post)%string.
Proof.
  revert s. induction p as [|c p IH]; intros s.
  - rewrite BridgeFacts.prefix_nil. split; [intros _; now exists s | reflexivity].
  - destruct s as [|d s]; simpl.
    + split; [discriminate | intros (post & H); discriminate].
    + destruct (ascii_dec c d) as [<- | Hne].
      * rewrite IH. split; intros (post & H); exists post; [now f_equal | now injection H].
      * split; [discriminate | intros (post & H); injection H; congruence].
Qed.

Lemma includes_spec (s p : string) :
  JS.includes s p = true <-> exists pre post, s = (pre ++ p ++ post)%string.
Proof.
  split.
  - induction s as [|c s IH]; cbn [JS.includes]; intros H;
      apply orb_true_iff in H as [H | H].
    + apply prefix_spec in H as (post & ->). now exists EmptyString, post.
    + discriminate.
    + apply prefix_spec in H as (post & ->). now exists EmptyString, post.
    + destruct (IH H) as (pre & post & ->). now exists (String c pre), post.
  - intros (pre & post & ->). induction pre as [|c pre IH].
    + simpl. destruct (p ++ post)%string eqn:E; cbn [JS.includes];
        apply orb_true_iff; left; apply prefix_spec; exists post; now rewrite E.
    + cbn [String.append JS.includes]. rewrite IH. apply orb_true_r.
Qed.

Lemma append_assoc (a b c : string) : ((a ++ b) ++ c = a ++ b ++ c)%string.
Proof. induction a as [|x a IH]; simpl; [reflexivity | now rewrite IH]. Qed.

Lemma testTerms_spec terms s :
  testTerms terms s = true
  <-> exists term pre post,
        In term terms /\ JS.fold_case s = (pre ++ term ++ post)%string.
Proof.
  unfold testTerms. rewrite existsb_exists. split.
  - intros (term & Hin & Hinc). apply includes_spec in Hinc as (pre & post & H).
    now exists term, pre, post.
  - intros (term & pre & post & Hin & H). exists term. split; [exact Hin|].
    apply includes_spec. now exists pre, post.
Qed.

(** Both patterns of the source catch the texts that contain a term of
    the set: the pattern for values leaves [apikey] out, which contains
    [key]. *)
Lemma keyTerms_spec k : testTerms keyTerms k = true <-> Spec.containsTerm k.
Proof. apply testTerms_spec. Qed.

Lemma valueTerms_spec s : testTerms valueTerms s = true <-> Spec.containsTerm s.
Proof.
  rewrite testTerms_spec. unfold Spec.containsTerm. split.
  - intros (term & pre & post & Hin & H). exists term, pre, post.
    split; [|exact H]. simpl in Hin |- *. tauto.
  - intros (term & pre & post & Hin & H).
    simpl in Hin.
    destruct Hin as [<-|[<-|[<-|[<-|[<-|[<-|[<-|[<-|[]]]]]]]]];
      try (eexists; exists pre, post; split; [|exact H]; simpl; tauto).
    exists "key", (pre ++ "api")%string, post. split; [simpl; tauto|].
    rewrite H, append_assoc. reflexivity.
Qed.

Lemma isHexChar_spec c : isHexChar c = Spec.hexDigit c.
Proof. destruct c as [[] [] [] [] [] [] [] []]; reflexivity. Qed.

Lemma allChars_ext f g s : (forall c, f c = g c) -> allChars f s = allChars g s.
Proof.
  intros H. induction s as [|c s IH]; simpl; [reflexivity | now rewrite H, IH].
Qed.

Lemma testLongHex_spec s :
  testLongHex s = true <-> 20 <= String.length s /\ Spec.pureHex s = true.
Proof.
  unfold testLongHex, Spec.pureHex.
  rewrite (allChars_ext _ _ s isHexChar_spec), andb_true_iff, Nat.leb_le.
  reflexivity.
Qed.

Lemma redactString_spec s :
  (Spec.caughtByContent s -> redactString s = REDACTED)
  /\ (~ Spec.caughtByContent s -> redactString s = s).
Proof.
  unfold redactString, Spec.caughtByContent.
  destruct (testTerms valueTerms s && (8 <? String.length s)%nat) eqn:Ht.
  - split; [reflexivity|]. intros Hn. exfalso. apply Hn. left.
    apply andb_true_iff in Ht as [Ht Hl].
    apply Nat.ltb_lt in Hl. apply valueTerms_spec in Ht. tauto.
  - destruct (testLongHex s) eqn:Hh.
    + split; [reflexivity|]. intros Hn. exfalso. apply Hn. right.
      now apply testLongHex_spec.
    + split; [|reflexivity].
      intros [[Hl Hc] | Hhex].
      * apply valueTerms_spec in Hc. apply Nat.ltb_lt in Hl.
        rewrite Hc, Hl in Ht. discriminate.
      * apply testLongHex_spec in Hhex. congruence.
Qed.

(** *** The traversal *)

Lemma redact_obj l : redact (JObj l) = JObj (redactEntries l).
Proof.
  reflexivity.
Qed.

Lemma redactString_marker : redactString REDACTED = REDACTED.
Proof. reflexivity. Qed.

Lemma redactString_cases s : redactString s = REDACTED \/ redactString s = s.
Proof.
  unfold redactString.
  destruct (testTerms valueTerms s && (8 <? String.length s)%nat); [now left|].
  destruct (testLongHex s); [now left | now right].
Qed.

Lemma redactString_idem s : redactString (redactString s) = redactString s.
Proof.
  destruct (redactString_cases s) as [H | H]; rewrite H.
  - apply redactString_marker.
  - exact H.
Qed.

Lemma proto_key_not_sensitive : testTerms keyTerms "__proto__" = false.
Proof. reflexivity. Qed.

Lemma redactEntries_idem l :
  Forall (fun kv => redact (redact (snd kv)) = redact (snd kv)) l ->
  redactEntries (redactEntries l) = redactEntries l.
Proof.
  induction 1 as [|[k v] r Hv Hr IH]; [reflexivity|].
  cbn [redactEntries]. unfold assignOwn.
  destruct (k =? "__proto__")%string eqn:Hk; [exact IH|].
  cbn [redactEntries]. unfold assignOwn. rewrite Hk, IH. f_equal. f_equal.
  destruct (testTerms keyTerms k); [reflexivity | exact Hv].
Qed.

(** Redacting twice is redacting once. *)
Lemma redact_idempotent v : redact (redact v) = redact v.
Proof.
  induction v as [| b | n | s | l IH | l IH] using Json.json_ind';
    try reflexivity.
  - cbn [redact]. now rewrite redactString_idem.
  - cbn [redact]. f_equal. rewrite map_map. apply map_ext_in.
    intros x Hx. rewrite Forall_forall in IH. now apply IH.
  - rewrite !redact_obj. f_equal. now apply redactEntries_idem.
Qed.

(** The marker is left as it is. *)
Lemma redact_marker : redact (JStr REDACTED) = JStr REDACTED.
Proof. reflexivity. Qed.

Lemma redactEntries_keys l :
  Forall (fun kv => fst kv <> "__proto__") l ->
  map fst (redactEntries l) = map fst l.
Proof.
  induction 1 as [|[k v] r Hk Hr IH]; [reflexivity|].
  cbn [redactEntries]. unfold assignOwn.
  apply String.eqb_neq in Hk. cbn [fst] in Hk. rewrite Hk.
  cbn [map fst]. now rewrite IH.
Qed.

(** Arrays keep their length, scalars other than strings are unchanged,
    and a mapping none of whose keys is [__proto__] keeps its keys. *)
Lemma redact_shape :
  (forall l, exists l', redact (JArr l) = JArr l' /\ List.length l' = List.length l)
  /\ redact JNull = JNull
  /\ (forall b, redact (JBool b) = JBool b)
  /\ (forall n, redact (JNum n) = JNum n)
  /\ (forall l, Forall (fun kv => fst kv <> "__proto__") l ->
        exists l', redact (JObj l) = JObj l' /\ map fst l' = map fst l).
Proof.
  repeat split.
  - intros l. exists (map redact l). split; [reflexivity | apply length_map].
  - intros l Hl. exists (redactEntries l).
    split; [apply redact_obj | now apply redactEntries_keys].
Qed.

Lemma redactEntries_spec l :
  Forall (fun kv => fst kv <> "__proto__") l ->
  Forall2 Spec.redactedEntry l (redactEntries l).
Proof.
  induction 1 as [|[k v] r Hk Hr IH]; [constructor|].
  cbn [redactEntries]. unfold assignOwn.
  apply String.eqb_neq in Hk. cbn [fst] in Hk. rewrite Hk.
  constructor; [|exact IH].
  unfold Spec.redactedEntry. cbn [fst snd].
  destruct (testTerms keyTerms k) eqn:Ht.
  - repeat split. intros Hn. exfalso. apply Hn. now apply keyTerms_spec.
  - repeat split. intros Hc. apply keyTerms_spec in Hc. congruence.
Qed.

(** C5, as the route has it.  Of a mapping none of whose keys is
    [__proto__], every entry keeps its key; its value is the marker when
    the key contains a sensitive term, whatever the value, and the
    redaction of the value otherwise.  Arrays are redacted element by
    element.  A string is replaced by the marker exactly when it is
    longer than 8 characters and contains a sensitive term, or is at
    least 20 characters long and made of hexadecimal digits only, in
    either letter case; other strings and other scalars are returned as
    they are. *)
Theorem C5_redact_rules :
  (forall l, Forall (fun kv => fst kv <> "__proto__") l ->
     exists l', redact (JObj l) = JObj l' /\ Forall2 Spec.redactedEntry l l')
  /\ (forall l, redact (JArr l) = JArr (map redact l))
  /\ (forall s, Spec.caughtByContent s -> redact (JStr s) = JStr REDACTED)
  /\ (forall s, ~ Spec.caughtByContent s -> redact (JStr s) = JStr s)
  /\ redact JNull = JNull
  /\ (forall b, redact (JBool b) = JBool b)
  /\ (forall n, redact (JNum n) = JNum n).
Proof.
  repeat match goal with |- _ /\ _ => split end; try reflexivity.
  - intros l Hl. exists (redactEntries l).
    split; [apply redact_obj | now apply redactEntries_spec].
  - intros s Hs. cbn [redact]. f_equal. now apply redactString_spec.
  - intros s Hs. cbn [redact]. f_equal. now apply redactString_spec.
Qed.

Lemma C5_redact_rules_witness :
  redact Samples.securityAudit
  = JObj [("apiKey", JStr REDACTED);
          ("hostname", JStr "box1");
          ("fingerprint", JStr REDACTED);
          ("notes", JArr [JStr REDACTED; JNum 3])]
  /\ exists l',
       redact Samples.securityAudit = JObj l'
       /\ Forall2 Spec.redactedEntry
            [("apiKey", JStr "abc123");
             ("hostname", JStr "box1");
             ("fingerprint", JStr "ABCDEF0123456789ABCD");
             ("notes", JArr [JStr "rotate the password soon"; JNum 3])] l'.
Proof.
  split; [reflexivity|].
  apply (proj1 C5_redact_rules).
  repeat constructor; discriminate.
Defined.

(** C5 as written fails: a string of twenty hexadecimal digits with
    upper-case letters is not in lower case and contains no sensitive
    term, and it is redacted. *)
Lemma C5_counterexample :
  let s := "ABCDEF0123456789ABCD" in
  Spec.pureLowerHex s = false
  /\ testTerms valueTerms s = false
  /\ redact (JStr s) = JStr REDACTED.
Proof. repeat split. Qed.

(** C10 at the failing input.  A mapping with the key [__proto__] loses
    that entry: the key set of the result differs from that of the
    input, where the claim has the key sets equal. *)
Theorem C10_proto_key_dropped :
  let v := JObj [("__proto__", JObj [("mode", JStr "strict")]);
                 ("hostname", JStr "box1")] in
  redact v = JObj [("hostname", JStr "box1")]
  /\ Json.keys (redact v) <> Json.keys v.
Proof. split; [reflexivity | discriminate]. Qed.

End RedactFacts.

(** ** Activity feed: further statements *)

Module ActivityMore.

Import ActivityRoute.

Lemma filter_all {A} (f : A -> bool) (l : list A) :
  (forall x, In x l -> f x = true) -> filter f l = l.
Proof.
  induction l as [|x l IH]; intros H; simpl; [reflexivity|].
  rewrite (H x (or_introl eq_refl)), IH; [reflexivity|].
  intros y Hy. apply H. now right.
Qed.

Lemma insertDesc_head e l :
  Forall (Spec.notEarlier e) l -> insertDesc e l = e :: l.
Proof.
  destruct l as [|y r]; intros H; simpl; [reflexivity|].
  apply Forall_cons_iff in H as [Hy _].
  unfold Spec.notEarlier in Hy. unfold staysBefore, compare.
  destruct (instant (timestamp e)) as [te|]; [|destruct Hy].
  destruct (instant (timestamp y)) as [ty|]; [|destruct Hy].
  assert (H : (ty - te <=? 0)%Z = true) by (apply Z.leb_le; lia).
  now rewrite H.
Qed.

Lemma stableDesc_fixed l : Spec.descending l -> stableDesc l = l.
Proof.
  unfold Spec.descending. induction l as [|e r IH]; intros Hl; [reflexivity|].
  apply StronglySorted_inv in Hl as [Hr He].
  cbn [stableDesc]. rewrite (IH Hr). now apply insertDesc_head.
Qed.

Lemma keepFirst_length l : (List.length (Spec.keepFirst l) <= List.length l)%nat.
Proof.
  induction l as [|e r IH]; simpl; [lia|].
  pose proof (filter_length_le (fun x => negb (Spec.sameId e x)) (Spec.keepFirst r)).
  lia.
Qed.

(** A feed that is sorted and free of duplicates is left as it is. *)
Lemma normalize_fixed engine feed :
  Spec.allDated feed -> Spec.feedOk feed -> normalize engine feed [] [] = feed.
Proof.
  intros Hdated [Hd Hn]. unfold normalize. rewrite !app_nil_r.
  rewrite ActivityFacts.dedupe_keepFirst, (ActivityFacts.sortDesc_dated _ _ Hdated).
  rewrite (stableDesc_fixed _ Hd). now apply ActivityFacts.keepFirst_fixed.
Qed.

Lemma normalize_incl engine S C M e :
  In e (normalize engine S C M) -> In e (S ++ C ++ M).
Proof.
  unfold normalize. rewrite ActivityFacts.dedupe_keepFirst. intros He.
  apply ActivityFacts.keepFirst_incl in He.
  eapply Permutation_in; [apply ActivityFacts.sortDesc_perm | exact He].
Qed.

(** With a timestamp that cannot be read as a date the feed may be left
    unsorted, and normalising it again then changes it: here the job's
    entry, whose timestamp is the text [yesterday], keeps the entries
    around it apart and is then dropped as a duplicate. *)
Lemma normalize_again_differs :
  let feed :=
    normalize Samples.keepOrder
      (sessionEntries [MoreSamples.cronSession; Samples.sessionAt 1000])
      (cronEntries [Samples.undatedJob; Samples.lateJob]) [] in
  map timestamp feed = [At 5000%Z; At 1000%Z; At 3000%Z]
  /\ map timestamp (normalize Samples.keepOrder feed [] [])
     = [At 5000%Z; At 3000%Z; At 1000%Z].
Proof. split; reflexivity. Qed.

(** X1.  When every timestamp of the merged entries can be read as a
    date, normalising the feed again changes nothing, whatever the
    engine; in every case the feed is never longer than the merged
    entries and carries exactly their [id]s. *)
Theorem normalize_idempotent (engine : Engine)
    (fromSessions fromCron fromMemory : list ActivityEntry) :
  let merged := fromSessions ++ fromCron ++ fromMemory in
  let feed := normalize engine fromSessions fromCron fromMemory in
  (Spec.allDated merged -> forall again, normalize again feed [] [] = feed)
  /\ (List.length feed <= List.length merged)%nat
  /\ (forall i, In i (map id feed) <-> In i (map id merged)).
Proof.
  intros merged feed.
  assert (Hfeed : feed = Spec.keepFirst (sortDesc engine merged)).
  { subst feed. unfold normalize. apply ActivityFacts.dedupe_keepFirst. }
  repeat split.
  - intros Hdated again. apply normalize_fixed.
    + eapply ActivityFacts.allDated_incl; [|exact Hdated].
      intros x Hx. subst feed merged. eapply normalize_incl, Hx.
    + now apply ActivityFacts.normalize_ok.
  - rewrite Hfeed. pose proof (keepFirst_length (sortDesc engine merged)).
    rewrite (Permutation_length (ActivityFacts.sortDesc_perm engine merged)) in H.
    exact H.
  - intros Hi. apply in_map_iff in Hi as (k & <- & Hk). apply in_map.
    subst feed merged. eapply normalize_incl, Hk.
  - intros Hi. apply in_map_iff in Hi as (e & <- & He).
    assert (He' : In e (sortDesc engine merged)).
    { eapply Permutation_in;
        [apply Permutation_sym, ActivityFacts.sortDesc_perm | exact He]. }
    destruct (ActivityFacts.keepFirst_covers _ _ He') as (k & Hk & Hid).
    rewrite <- Hid. apply in_map. now rewrite Hfeed.
Qed.

Lemma normalize_idempotent_witness :
  let feed :=
    normalize Samples.keepOrder
      (sessionEntries [Samples.sessionAt 1000; Samples.sessionAt 2000])
      (cronEntries [Samples.nightlyJob; Samples.lateJob]) [] in
  normalize Samples.reverseOrder feed [] [] = feed
  /\ map timestamp feed = [At 3000%Z; At 2000%Z; At 1500%Z].
Proof.
  intros feed. split; [|reflexivity].
  apply (normalize_idempotent Samples.keepOrder
           (sessionEntries [Samples.sessionAt 1000; Samples.sessionAt 2000])
           (cronEntries [Samples.nightlyJob; Samples.lateJob]) []).
  repeat (apply Forall_cons; [reflexivity|]). apply Forall_nil.
Defined.

(** X2.  When the merged entries carry pairwise distinct [id]s, nothing
    is dropped: the feed is the sorted merged list, a permutation of
    the merged entries; and when every timestamp can be read as a date
    it is their stable arrangement by descending instant. *)
Theorem normalize_keeps_distinct (engine : Engine)
    (fromSessions fromCron fromMemory : list ActivityEntry)
    (Hdistinct : NoDup (map id (fromSessions ++ fromCron ++ fromMemory))) :
  normalize engine fromSessions fromCron fromMemory
  = sortDesc engine (fromSessions ++ fromCron ++ fromMemory)
  /\ Permutation (normalize engine fromSessions fromCron fromMemory)
       (fromSessions ++ fromCron ++ fromMemory)
  /\ (Spec.allDated (fromSessions ++ fromCron ++ fromMemory) ->
      normalize engine fromSessions fromCron fromMemory
      = stableDesc (fromSessions ++ fromCron ++ fromMemory)
      /\ Spec.descending (normalize engine fromSessions fromCron fromMemory)).
Proof.
  assert (H : normalize engine fromSessions fromCron fromMemory
              = sortDesc engine (fromSessions ++ fromCron ++ fromMemory)).
  { unfold normalize. now apply ActivityFacts.distinct_ids_kept. }
  split; [exact H|]. split; [rewrite H; apply ActivityFacts.sortDesc_perm|].
  intros Hdated. rewrite H. split.
  - now apply ActivityFacts.sortDesc_dated.
  - now apply ActivityFacts.sortDesc_descending.
Qed.

Lemma normalize_keeps_distinct_witness :
  Permutation
    (normalize Samples.reverseOrder (sessionEntries [Samples.sessionAt 1000])
       (cronEntries [Samples.undatedJob; Samples.lateJob]) [])
    (sessionEntries [Samples.sessionAt 1000]
     ++ cronEntries [Samples.undatedJob; Samples.lateJob] ++ [])
  /\ map timestamp
       (normalize Samples.reverseOrder (sessionEntries [Samples.sessionAt 1000])
          (cronEntries [Samples.undatedJob; Samples.lateJob]) [])
     = [At 3000%Z; NotADate "yesterday"; At 1000%Z].
Proof.
  split; [|reflexivity].
  apply normalize_keeps_distinct.
  repeat constructor; simpl; intuition discriminate.
Defined.

(** *** Entries made from sessions and jobs *)

Lemma classify_cases key :
  let '(ty, ch, _) := classify key in
  (ty = ActivityType.cron /\ ch = ChannelType.cron /\ JS.includes key "cron" = true)
  \/ (ty = ActivityType.task /\ ch = ChannelType.terminal
      /\ JS.includes key "cron" = false)
  \/ (ty = ActivityType.message
      /\ (ch = ChannelType.telegram \/ ch = ChannelType.discord
          \/ ch = ChannelType.imessage \/ ch = ChannelType.terminal)
      /\ JS.includes key "cron" = false).
Proof.
  unfold classify.
  destruct (JS.includes key "cron"); [left; auto|].
  destruct (JS.includes key "spawn"); [right; left; auto|].
  destruct (JS.includes key "telegram"); [right; right; auto|].
  destruct (JS.includes key "discord"); [right; right; auto|].
  destruct (JS.includes key "imessage"); [right; right; auto 6|].
  destruct (key =? "agent:main:main")%string; right; right; auto 6.
Qed.

Lemma orElse_empty a b : JS.orElse a b = EmptyString <-> a = EmptyString /\ b = EmptyString.
Proof.
  unfold JS.orElse. destruct a; simpl; [tauto|]. split; [discriminate | intros [H _]; discriminate].
Qed.

(** X3.  An entry made from a session always has status [success]; its
    type is [cron], [task] or [message], never another; its channel is
    [cron] exactly when its type is, which is exactly when the key
    contains the word cron, and otherwise one of [terminal],
    [telegram], [discord] and [imessage]; a token count of zero is
    left out; and the [id] is empty only when the session has neither
    an id nor a key. *)
Theorem sessionEntry_invariants (sess : Session) :
  let e := sessionEntry sess in
  status e = ActivityStatus.success
  /\ (type e = ActivityType.cron \/ type e = ActivityType.task
      \/ type e = ActivityType.message)
  /\ (type e = ActivityType.cron <-> channel e = ChannelType.cron)
  /\ (type e = ActivityType.cron <-> JS.includes (key sess) "cron" = true)
  /\ (channel e = ChannelType.cron \/ channel e = ChannelType.terminal
      \/ channel e = ChannelType.telegram \/ channel e = ChannelType.discord
      \/ channel e = ChannelType.imessage)
  /\ tokensUsed e <> Some 0%Z
  /\ timestamp e = At (updatedAt sess)
  /\ (id e = EmptyString <-> sessionId sess = EmptyString /\ key sess = EmptyString).
Proof.
  intros e. subst e. unfold sessionEntry.
  assert (Hkey : JS.orElse (key sess) "" = key sess).
  { unfold JS.orElse. destruct (key sess); reflexivity. }
  rewrite Hkey.
  pose proof (classify_cases (key sess)) as Hc.
  destruct (classify (key sess)) as [[ty ch] sm]. cbn.
  repeat match goal with |- _ /\ _ => split end.
  - reflexivity.
  - destruct Hc as [(-> & _) | [(-> & _) | (-> & _)]]; auto.
  - destruct Hc as [(-> & -> & _) | [(-> & -> & _) | (-> & Hch & _)]];
      [tauto | split; discriminate |].
    destruct Hch as [-> | [-> | [-> | ->]]]; split; discriminate.
  - destruct Hc as [(-> & _ & H) | [(-> & _ & H) | (-> & _ & H)]];
      rewrite H; split; congruence.
  - destruct Hc as [(_ & -> & _) | [(_ & -> & _) | (_ & Hch & _)]]; auto.
    destruct Hch as [-> | [-> | [-> | ->]]]; auto 6.
  - destruct (numOr (totalTokens sess) _ =? 0)%Z eqn:E; [discriminate|].
    apply Z.eqb_neq in E. congruence.
  - reflexivity.
  - rewrite orElse_empty. tauto.
Qed.

Lemma sessionEntries_valid sessions :
  Forall (fun s => validTime (updatedAt s) = true) sessions ->
  sessionEntries sessions = map sessionEntry sessions.
Proof.
  induction 1 as [|s r Hs Hr IH]; [reflexivity|].
  cbn [sessionEntries map]. now rewrite Hs, IH.
Qed.

(** X4.  The loop over the sessions stops at the first session whose
    date cannot be rendered: that session and every later one give no
    entry, the earlier ones keep theirs; with every date in range each
    session gives one entry, in order. *)
Theorem sessionEntries_stop_at_bad_date (before after : list Session) (bad : Session)
    (Hbefore : Forall (fun s => validTime (updatedAt s) = true) before)
    (Hbad : validTime (updatedAt bad) = false) :
  sessionEntries (before ++ bad :: after) = map sessionEntry before
  /\ sessionEntries before = map sessionEntry before.
Proof.
  split; [|now apply sessionEntries_valid].
  induction Hbefore as [|s r Hs Hr IH]; cbn [app sessionEntries map].
  - now rewrite Hbad.
  - now rewrite Hs, IH.
Qed.

Lemma sessionEntries_stop_at_bad_date_witness :
  sessionEntries [Samples.sessionAt 1000;
                  Samples.sessionAt 9000000000000000;
                  Samples.sessionAt 2000]
  = [sessionEntry (Samples.sessionAt 1000)].
Proof.
  apply (sessionEntries_stop_at_bad_date [Samples.sessionAt 1000]
           [Samples.sessionAt 2000] (Samples.sessionAt 9000000000000000)).
  - repeat constructor.
  - reflexivity.
Defined.

Lemma cronEntries_filter jobs :
  map id (cronEntries jobs)
  = map (fun job => ("cron_" ++ jobId job)%string) (filter More.hasRun jobs).
Proof.
  induction jobs as [|job r IH]; [reflexivity|].
  cbn [cronEntries filter]. unfold More.hasRun at 1.
  destruct (lastRunOf job); cbn [map]; now rewrite IH.
Qed.

(** X5.  The jobs with a recorded last run give one entry each, of id
    [cron_<job id>], type and channel [cron]; the other jobs give none.
    When those jobs have pairwise distinct ids, the feed made of their
    entries alone keeps every one of them. *)
Theorem cronEntries_of_jobs (engine : Engine) (jobs : list CronJob) :
  map id (cronEntries jobs)
  = map (fun job => ("cron_" ++ jobId job)%string) (filter More.hasRun jobs)
  /\ (forall e, In e (cronEntries jobs) ->
        type e = ActivityType.cron /\ channel e = ChannelType.cron)
  /\ (NoDup (map jobId (filter More.hasRun jobs)) ->
      Permutation (normalize engine [] (cronEntries jobs) []) (cronEntries jobs)).
Proof.
  split; [apply cronEntries_filter|]. split.
  - induction jobs as [|job r IH]; [intros e []|].
    cbn [cronEntries]. destruct (lastRunOf job); [|exact IH].
    intros e [<- | He]; [split; reflexivity | now apply IH].
  - intros Hnd.
    unfold normalize. cbn [app]. rewrite app_nil_r.
    rewrite ActivityFacts.distinct_ids_kept; [apply ActivityFacts.sortDesc_perm|].
    rewrite cronEntries_filter.
    induction (filter More.hasRun jobs) as [|j r IH]; [constructor|].
    cbn [map] in Hnd |- *. inversion Hnd as [|? ? Hnot Hr]; subst.
    constructor; [|now apply IH].
    intros Hin. apply Hnot. apply in_map_iff in Hin as (j' & Hj' & Hin).
    apply in_map_iff. exists j'. split; [|exact Hin].
    now apply (ActivityFacts.append_cancel_l "cron_").
Qed.

Lemma cronEntries_of_jobs_witness :
  Permutation
    (normalize Samples.keepOrder []
       (cronEntries [Samples.undatedJob; MoreSamples.idleJob; Samples.lateJob]) [])
    (cronEntries [Samples.undatedJob; MoreSamples.idleJob; Samples.lateJob])
  /\ map id (cronEntries [Samples.undatedJob; MoreSamples.idleJob; Samples.lateJob])
     = ["cron_nightly"; "cron_late"]%string.
Proof.
  split; [|reflexivity].
  apply (cronEntries_of_jobs Samples.keepOrder
           [Samples.undatedJob; MoreSamples.idleJob; Samples.lateJob]).
  repeat constructor; simpl; intuition discriminate.
Defined.

(** *** Pages of a query *)

Lemma query_items_window (feed : list ActivityEntry) (q : Query) (p s : Z) :
  page q = Num.Int p -> pageSize q = Num.Int s ->
  (1 <= p)%Z -> (0 <= s)%Z ->
  items (query feed q)
  = firstn (Z.to_nat s)
      (skipn (Z.to_nat ((p - 1) * s)) (filter (Spec.matches q) feed)).
Proof.
  intros Hp Hs Hp1 Hs0.
  rewrite (proj1 (ActivityFacts.query_whole feed q p s Hp Hs)).
  apply ActivityFacts.slice_window; nia.
Qed.

Lemma firstn_add {A} (a b : nat) (l : list A) :
  firstn (a + b) l = firstn a l ++ firstn b (skipn a l).
Proof.
  revert l. induction a as [|a IH]; intros l; [reflexivity|].
  destruct l as [|x l]; simpl; [now rewrite firstn_nil | now rewrite IH].
Qed.

Lemma pagesUpTo_firstn (feed : list ActivityEntry) (q : Query) (s : Z) (n : nat) :
  pageSize q = Num.Int s -> (0 < s)%Z ->
  More.pagesUpTo feed q n
  = firstn (n * Z.to_nat s) (filter (Spec.matches q) feed).
Proof.
  intros Hw Hs. unfold More.pagesUpTo.
  induction n as [|n IH]; [reflexivity|].
  rewrite seq_S, flat_map_app, IH. cbn [flat_map Nat.add]. rewrite app_nil_r.
  rewrite (query_items_window feed (More.withPage q (Z.of_nat (S n)))
             (Z.of_nat (S n)) s); try lia; try reflexivity; try exact Hw.
  change (Spec.matches (More.withPage q (Z.of_nat (S n)))) with (Spec.matches q).
  replace (Z.to_nat ((Z.of_nat (S n) - 1) * s))
    with (n * Z.to_nat s)%nat by nia.
  rewrite <- firstn_add. f_equal. lia.
Qed.

(** X6.  For a page size that is a positive whole number the pages
    follow one another without gap or overlap: the items of the pages 1
    to [n] are the first [n * pageSize] entries that pass the filter.
    A page that says [hasMore = false] is the last one, the pages up to
    it hold every such entry; a page that says [hasMore = true] is
    full. *)
Theorem pages_cover_hits (feed : list ActivityEntry) (q : Query) (s : Z)
    (Hwhole : pageSize q = Num.Int s)
    (Hsize : (0 < s)%Z) :
  let hits := filter (Spec.matches q) feed in
  (forall n, More.pagesUpTo feed q n = firstn (n * Z.to_nat s) hits)
  /\ (forall p, (1 <= p)%Z ->
        hasMore (query feed (More.withPage q p)) = false ->
        More.pagesUpTo feed q (Z.to_nat p) = hits)
  /\ (forall p, (1 <= p)%Z ->
        hasMore (query feed (More.withPage q p)) = true ->
        Z.of_nat (List.length (items (query feed (More.withPage q p)))) = s).
Proof.
  intros hits.
  assert (Hmore : forall p,
            hasMore (query feed (More.withPage q p))
            = ((p - 1) * s + s <? Z.of_nat (List.length hits))%Z).
  { intros p.
    apply (proj2 (ActivityFacts.query_whole feed (More.withPage q p) p s
                    eq_refl Hwhole)). }
  split; [|split].
  - intros n. now apply pagesUpTo_firstn.
  - intros p Hp Hno. rewrite (pagesUpTo_firstn feed q s) by assumption.
    rewrite Hmore in Hno. apply Z.ltb_ge in Hno.
    apply firstn_all2. fold hits. nia.
  - intros p Hp Hyes. rewrite Hmore in Hyes. apply Z.ltb_lt in Hyes.
    rewrite (query_items_window feed (More.withPage q p) p s);
      try lia; try reflexivity; try exact Hwhole.
    change (Spec.matches (More.withPage q p)) with (Spec.matches q). fold hits.
    rewrite length_firstn, length_skipn. nia.
Qed.

Lemma pages_cover_hits_witness :
  More.pagesUpTo Samples.smallFeed (MoreSamples.everything (Num.Int 1) (Num.Int 1)) 2
  = Samples.smallFeed.
Proof.
  pose proof (pages_cover_hits Samples.smallFeed
                (MoreSamples.everything (Num.Int 1) (Num.Int 1)) 1%Z) as H.
  destruct H as (_ & Hlast & _); [reflexivity | reflexivity |].
  apply (Hlast 2%Z); [vm_compute; discriminate | reflexivity].
Defined.

(** A page size that is no whole number leaves no item on any page. *)
Lemma query_size_not_whole (feed : list ActivityEntry) (q : Query) :
  (forall s, pageSize q <> Num.Int s) ->
  items (query feed q) = []
  /\ (hasMore (query feed q) = true
      <-> pageSize q = Num.Inf true /\ Num.ltb (Num.Int 1) (page q) = true).
Proof.
  intros Hs. unfold query. cbn [items hasMore].
  destruct (pageSize q) as [s| |[]]; [now destruct (Hs s) | | |];
    destruct (page q) as [p| |[]];
    cbn [Num.sub Num.add Num.mul Num.ltb Z.opp];
    try (destruct (p + -1 =? 0)%Z eqn:E0;
         [apply Z.eqb_eq in E0
         | apply Z.eqb_neq in E0;
           destruct (p + -1 <? 0)%Z eqn:E1;
           [apply Z.ltb_lt in E1 | apply Z.ltb_ge in E1]];
         (destruct (1 <? p)%Z eqn:Hlt;
          [apply Z.ltb_lt in Hlt | apply Z.ltb_ge in Hlt]); try lia);
    cbn [Num.add Num.ltb xorb Bool.eqb negb andb];
    (split;
     [ apply ActivityFacts.slice_empty; cbv [position]; lia
     | split;
       [ intros H; first [discriminate H | split; reflexivity]
       | intros [H1 H2]; first [discriminate H1 | discriminate H2 | reflexivity] ] ]).
Qed.

(** X7.  Bounds are not checked.  A page size of zero gives an empty
    page; page zero gives an empty page that still says whether there
    are entries; on page one a negative page size [-k] gives every
    entry that passes the filter but the last [k], with [hasMore] set.
    A page size that is no whole number (the parameter was no number,
    or too large a one) gives an empty page, on which [hasMore] is set
    only for the negative infinity on a page after the first; a page
    number that is no number gives an empty page with [hasMore]
    unset. *)
Theorem query_unchecked_bounds (feed : list ActivityEntry) (q : Query) :
  let hits := filter (Spec.matches q) feed in
  (pageSize q = Num.Int 0 -> items (query feed q) = [])
  /\ (forall s, page q = Num.Int 0 -> pageSize q = Num.Int s -> (0 < s)%Z ->
      items (query feed q) = []
      /\ hasMore (query feed q) = (0 <? Z.of_nat (List.length hits))%Z)
  /\ (forall s, page q = Num.Int 1 -> pageSize q = Num.Int s -> (s < 0)%Z ->
      items (query feed q)
      = firstn (Z.to_nat (Z.of_nat (List.length hits) + s)) hits
      /\ hasMore (query feed q) = true)
  /\ ((forall s, pageSize q <> Num.Int s) ->
      items (query feed q) = []
      /\ (hasMore (query feed q) = true
          <-> pageSize q = Num.Inf true /\ Num.ltb (Num.Int 1) (page q) = true))
  /\ (page q = Num.NaN ->
      items (query feed q) = [] /\ hasMore (query feed q) = false).
Proof.
  intros hits. split; [|split; [|split; [|split]]].
  - intros Hs. unfold query. cbn [items]. rewrite Hs.
    destruct (page q) as [p| |[]];
      cbn [Num.sub Num.add Num.mul Z.opp Z.eqb];
      try (apply ActivityFacts.slice_empty; cbv [position]; lia).
    apply ActivityFacts.slice_empty. now rewrite Z.mul_0_r.
  - intros s Hp Hs Hpos.
    destruct (ActivityFacts.query_whole feed q 0 s Hp Hs) as [Hi Hm].
    fold hits in Hi, Hm. rewrite Hi, Hm. split.
    + apply ActivityFacts.slice_empty. unfold position.
      replace ((0 - 1) * s + s)%Z with 0%Z by lia.
      destruct ((0 - 1) * s <? 0)%Z eqn:E; [|apply Z.ltb_ge in E; lia].
      cbn [Z.ltb Z.compare]. lia.
    + f_equal. lia.
  - intros s Hp Hs Hneg.
    destruct (ActivityFacts.query_whole feed q 1 s Hp Hs) as [Hi Hm].
    fold hits in Hi, Hm. rewrite Hi, Hm. split.
    + unfold slice, position. replace ((1 - 1) * s)%Z with 0%Z by lia.
      cbn [Z.ltb Z.compare]. rewrite Z.add_0_l.
      destruct (s <? 0)%Z eqn:E; [|apply Z.ltb_ge in E; lia].
      rewrite (Z.min_l 0) by lia. cbn [Z.to_nat skipn]. f_equal. lia.
    + apply Z.ltb_lt. lia.
  - apply query_size_not_whole.
  - intros Hp. unfold query. cbn [items hasMore]. rewrite Hp.
    destruct (pageSize q) as [s| |[]];
      cbn [Num.sub Num.add Num.mul Num.ltb];
      (split; [apply ActivityFacts.slice_empty; cbv [position]; lia | reflexivity]).
Qed.

Lemma query_unchecked_bounds_witness :
  items (query Samples.smallFeed (MoreSamples.everything (Num.Int 1) (Num.Int (-1))))
  = firstn 1 Samples.smallFeed
  /\ hasMore (query Samples.smallFeed
                (MoreSamples.everything (Num.Int 1) (Num.Inf false))) = false
  /\ hasMore (query Samples.smallFeed
                (MoreSamples.everything (Num.Int 2) (Num.Inf true))) = true
  /\ items (query Samples.smallFeed
              (MoreSamples.everything (Num.Int 2) (Num.Inf true))) = [].
Proof.
  split; [|split; [|split]].
  - destruct (query_unchecked_bounds Samples.smallFeed
                (MoreSamples.everything (Num.Int 1) (Num.Int (-1))))
      as (_ & _ & Hneg & _).
    destruct (Hneg (-1)%Z) as [Hitems _]; [reflexivity | reflexivity | reflexivity |].
    exact Hitems.
  - destruct (query_unchecked_bounds Samples.smallFeed
                (MoreSamples.everything (Num.Int 1) (Num.Inf false)))
      as (_ & _ & _ & Hinf & _).
    destruct Hinf as [_ Hmore]; [intros s; discriminate|].
    destruct (hasMore _); [|reflexivity].
    destruct (proj1 Hmore eq_refl) as [H _]. discriminate H.
  - destruct (query_unchecked_bounds Samples.smallFeed
                (MoreSamples.everything (Num.Int 2) (Num.Inf true)))
      as (_ & _ & _ & Hinf & _).
    destruct Hinf as [_ Hmore]; [intros s; discriminate|].
    apply Hmore. split; reflexivity.
  - destruct (query_unchecked_bounds Samples.smallFeed
                (MoreSamples.everything (Num.Int 2) (Num.Inf true)))
      as (_ & _ & _ & Hinf & _).
    destruct Hinf as [Hitems _]; [intros s; discriminate|].
    exact Hitems.
Defined.

End ActivityMore.

(** ** The status route: further statements *)

Module StatusMore.

Import StatusRoute.

(** X8.  The answer and the cache agree.  A payload carries the data the
    cache holds after the call, stamped with the current time; an
    answer flagged [cached] leaves the cache as it was, and [stale]
    only comes with [cached]; the error answer is given only when
    nothing was cached, and caches nothing. *)
Theorem GET_answer_matches_cache (pf : Platform) (cache : option CacheEntry)
    (now : Z) (exec : string -> ExecOutcome) :
  match GET pf cache now exec with
  | (Payload d t cached stale, after) =>
      t = nowISO pf
      /\ (exists c, after = Some c /\ data c = d)
      /\ (cached = true -> after = cache)
      /\ (cached = false -> after = Some {| data := d; ts := now |})
      /\ (stale = true -> cached = true)
  | (Failure e st, after) =>
      cache = None /\ after = None /\ st = 500%Z
  end.
Proof.
  unfold GET.
  destruct cache as [c|].
  - destruct (now - ts c <? CACHE_TTL)%Z.
    + repeat split; eauto; discriminate.
    + destruct (buildStatus pf _ _) as [d|].
      * repeat split; eauto; discriminate.
      * repeat split; eauto; discriminate.
  - destruct (buildStatus pf _ _) as [d|].
    + repeat split; eauto; discriminate.
    + repeat split.
Qed.

Lemma GET_refreshed_cache (pf : Platform) (cache : option CacheEntry)
    (now : Z) (exec : string -> ExecOutcome) (d : StatusData) (t : string) :
  fst (GET pf cache now exec) = Payload d t false false ->
  snd (GET pf cache now exec) = Some {| data := d; ts := now |}.
Proof.
  unfold GET.
  destruct cache as [c|]; [destruct (now - ts c <? CACHE_TTL)%Z|];
    try destruct (buildStatus pf _ _);
    cbn [fst snd]; intros H; try discriminate H;
    inversion H; subst; reflexivity.
Qed.

(** X9.  After a refresh, every call made less than [CACHE_TTL]
    milliseconds later answers with the same data, flagged [cached],
    without reading the bridge: the answer does not depend on what the
    commands would do, and the cache stays. *)
Theorem GET_repeats_within_ttl (pf : Platform) (cache : option CacheEntry)
    (now : Z) (exec : string -> ExecOutcome) (d : StatusData) (t : string)
    (Hrefreshed : fst (GET pf cache now exec) = Payload d t false false) :
  forall pf' now' exec',
    (now' - now < CACHE_TTL)%Z ->
    GET pf' (snd (GET pf cache now exec)) now' exec'
    = (Payload d (nowISO pf') true false, snd (GET pf cache now exec)).
Proof.
  intros pf' now' exec' Hlt.
  rewrite (GET_refreshed_cache _ _ _ _ _ _ Hrefreshed).
  now apply CacheFacts.GET_fresh.
Qed.

Lemma GET_repeats_within_ttl_witness :
  exists d,
    fst (GET Samples.pf None 1000 (fun _ => TimedOut))
    = Payload d (nowISO Samples.pf) false false
    /\ GET Samples.pf (snd (GET Samples.pf None 1000 (fun _ => TimedOut))) 30999
         (fun _ => Completed Samples.badStatusText)
       = (Payload d (nowISO Samples.pf) true false,
          snd (GET Samples.pf None 1000 (fun _ => TimedOut))).
Proof.
  eexists. split; [reflexivity|].
  apply (GET_repeats_within_ttl Samples.pf None 1000 (fun _ => TimedOut) _ _ eq_refl).
  reflexivity.
Defined.

(** X10.  Missing sections do not make the derivation fail.  Without the
    gateway service, sessions and heartbeat sections the status is
    always produced, with the heartbeat time set to now and the
    heartbeat period to the placeholder; a missing memory section gives
    zero files and chunks and the builtin backend, a missing os section
    the platform of the host, a missing gateway section an unreachable
    gateway with the placeholder as its version. *)
Theorem buildStatus_missing_sections (pf : Platform) (statusData healthData : option json)
    (Hservice : More.absent statusData "gatewayService")
    (Hsessions : More.absent statusData "sessions")
    (Hheartbeat : More.absent statusData "heartbeat") :
  exists r,
    buildStatus pf statusData healthData = Some r
    /\ lastHeartbeat r = nowISO pf
    /\ heartbeatEvery r = JStr placeholder
    /\ uptime r = processUptime pf
    /\ (More.absent statusData "memory" ->
        memoryFiles r = JNum 0 /\ memoryChunks r = JNum 0
        /\ memoryBackend r = JStr "builtin")
    /\ (More.absent statusData "os" -> platform r = JStr (osPlatform pf))
    /\ (More.absent statusData "gateway" ->
        gatewayReachable r = JBool false /\ gatewayVersion r = JStr placeholder).
Proof.
  unfold More.absent in *. unfold buildStatus.
  rewrite Hservice, Hsessions, Hheartbeat.
  eexists. split; [reflexivity|].
  cbn [lastHeartbeat heartbeatEvery uptime memoryFiles memoryChunks memoryBackend
       platform gatewayReachable gatewayVersion].
  split; [reflexivity|]. split; [reflexivity|]. split; [reflexivity|].
  split; [|split]; intros H; rewrite H; repeat split; reflexivity.
Qed.

Lemma buildStatus_missing_sections_witness :
  exists r,
    buildStatus Samples.pf Samples.gatewayUp Samples.oneChannelOk = Some r
    /\ memoryFiles r = JNum 0 /\ lastHeartbeat r = nowISO Samples.pf.
Proof.
  destruct (buildStatus_missing_sections Samples.pf Samples.gatewayUp
              Samples.oneChannelOk eq_refl eq_refl eq_refl)
    as (r & Hr & Hhb & _ & _ & Hmem & _).
  exists r. split; [exact Hr|]. split; [apply (Hmem eq_refl) | exact Hhb].
Defined.

Lemma isTrue_truthy o : Json.isTrue o = true -> Json.truthyOpt o = true.
Proof. destruct o as [[| [] | | | |]|]; simpl; congruence. Qed.

(** X11.  The active channels are exactly the listed channels that are
    configured and have a probe flag that counts as true.  When the
    health is
    [healthy] they are exactly the configured listed channels.  When
    every probe flag is a boolean or missing and some channel is
    active, the health is not [unhealthy]. *)
Theorem activeChannels_of_probes (healthData : option json) :
  let parsed := parseHealth healthData in
  let listed := Json.keys (Spec.channelsOf healthData) in
  (forall name,
     In name (channels parsed)
     <-> In name listed
         /\ Spec.configured (Spec.channelsOf healthData) name = true
         /\ Json.truthyOpt (probeOf (Spec.channelsOf healthData) name) = true)
  /\ (deriveHealth parsed = healthy ->
      channels parsed = filter (Spec.configured (Spec.channelsOf healthData)) listed)
  /\ ((forall name, In name listed ->
         More.booleanProbe (Spec.channelsOf healthData) name) ->
      channels parsed <> [] -> deriveHealth parsed <> unhealthy).
Proof.
  intros parsed listed. subst parsed listed.
  destruct (Json.truthyOpt healthData) eqn:Hlive.
  - destruct (HealthFacts.parseHealth_live _ Hlive) as [Hall Hany].
    assert (Hch : channels (parseHealth healthData)
                  = filter (configuredAndOk (Spec.channelsOf healthData))
                      (Json.keys (Spec.channelsOf healthData))).
    { unfold parseHealth. rewrite Hlive. reflexivity. }
    rewrite Hch. split; [|split].
    + intros name. rewrite filter_In. unfold configuredAndOk, Spec.configured.
      rewrite andb_true_iff. reflexivity.
    + unfold deriveHealth. rewrite Hall.
      destruct ((0 <? _)%nat && forallb _ _) eqn:Hb;
        [|destruct (anyProbeOk _); discriminate].
      intros _. apply andb_true_iff in Hb as [_ Hf]. rewrite forallb_forall in Hf.
      apply filter_ext_in. intros name Hin. unfold configuredAndOk, Spec.configured.
      specialize (Hf name Hin). unfold probeOk in Hf.
      rewrite (isTrue_truthy _ Hf). apply andb_true_r.
    + intros Hbool Hne Hun. apply HealthFacts.deriveHealth_unhealthy in Hun.
      rewrite Hany in Hun.
      destruct (filter _ _) as [|name rest] eqn:Hf; [congruence|].
      assert (Hin : In name (filter (configuredAndOk (Spec.channelsOf healthData))
                               (Json.keys (Spec.channelsOf healthData))))
        by (rewrite Hf; now left).
      apply filter_In in Hin as [Hin Hc].
      unfold configuredAndOk in Hc. apply andb_true_iff in Hc as [_ Hp].
      specialize (Hbool name Hin). unfold More.booleanProbe in Hbool.
      assert (Hok : probeOk (Spec.channelsOf healthData) name = true).
      { unfold probeOk.
        destruct (probeOf (Spec.channelsOf healthData) name) as [[| [] | | | |]|];
          simpl in *; try contradiction; congruence. }
      assert (existsb (probeOk (Spec.channelsOf healthData))
                (Json.keys (Spec.channelsOf healthData)) = true)
        by (apply existsb_exists; exists name; auto).
      congruence.
  - assert (Hch : channels (parseHealth healthData) = []).
    { unfold parseHealth. rewrite Hlive. reflexivity. }
    rewrite Hch. split; [|split].
    + intros name. rewrite (HealthFacts.falsy_lists_nothing _ Hlive).
      split; [intros [] | intros [[] _]].
    + unfold deriveHealth.
      destruct (HealthFacts.parseHealth_dead _ Hlive) as [-> ->]. discriminate.
    + intros _ Hne. congruence.
Qed.

Lemma activeChannels_of_probes_witness :
  channels (parseHealth Samples.oneOkOneUnconfigured) = ["telegram"]
  /\ ~ In "discord" (channels (parseHealth Samples.oneOkOneUnconfigured))
  /\ deriveHealth (parseHealth Samples.oneOkOneUnconfigured) <> unhealthy.
Proof.
  destruct (activeChannels_of_probes Samples.oneOkOneUnconfigured)
    as (Hactive & _ & Hhealth).
  split; [reflexivity|]. split.
  - intros Hin. apply Hactive in Hin as (_ & Hc & _). discriminate Hc.
  - apply Hhealth.
    + intros name [<- | [<- | []]]; exact I.
    + discriminate.
Defined.

End StatusMore.

(** ** Redaction: further statements *)

Module RedactMore.

Import ConfigRoute.

Lemma marker_not_caught : ~ Spec.caughtByContent REDACTED.
Proof.
  intros H.
  assert (Hs : redactString REDACTED = REDACTED) by reflexivity.
  unfold redactString in Hs.
  destruct H as [[_ Hc] | Hh].
  - apply RedactFacts.valueTerms_spec in Hc. vm_compute in Hc. discriminate.
  - apply RedactFacts.testLongHex_spec in Hh. vm_compute in Hh. discriminate.
Qed.

Lemma redactString_not_caught s : ~ Spec.caughtByContent (redactString s).
Proof.
  destruct (RedactFacts.redactString_cases s) as [H | H]; rewrite H.
  - apply marker_not_caught.
  - intros Hc. pose proof (proj1 (RedactFacts.redactString_spec s) Hc) as Hr.
    apply marker_not_caught. congruence.
Qed.

Lemma redactEntries_clean l :
  Forall (fun kv => More.clean (redact (snd kv))) l ->
  Forall (fun kv =>
            fst kv <> "__proto__"
            /\ (Spec.containsTerm (fst kv) -> snd kv = JStr REDACTED)
            /\ More.clean (snd kv)) (redactEntries l).
Proof.
  induction 1 as [|[k v] r Hv Hr IH]; [constructor|].
  cbn [redactEntries]. unfold assignOwn.
  destruct (k =? "__proto__")%string eqn:Hk; [exact IH|].
  constructor; [|exact IH]. cbn [fst snd].
  split; [now apply String.eqb_neq|].
  destruct (testTerms keyTerms k) eqn:Ht.
  - split; [reflexivity|]. constructor. apply marker_not_caught.
  - split; [|exact Hv]. intros Hc. apply RedactFacts.keyTerms_spec in Hc. congruence.
Qed.

(** X12.  Whatever the input, the result of [redact] has nothing left to
    redact, at any depth: every string in it escapes both content
    tests, every key that contains a sensitive term holds the marker,
    and no key is [__proto__]. *)
Theorem redact_output_clean (v : json) : More.clean (redact v).
Proof.
  induction v as [| b | n | s | l IH | l IH] using Json.json_ind'.
  - constructor.
  - constructor.
  - constructor.
  - cbn [redact]. constructor. apply redactString_not_caught.
  - cbn [redact]. constructor. rewrite Forall_forall in IH |- *. intros x Hx.
    apply in_map_iff in Hx as (y & <- & Hy). now apply IH.
  - rewrite RedactFacts.redact_obj. constructor. now apply redactEntries_clean.
Qed.

Lemma redactEntries_fixed l :
  Forall (fun kv =>
            fst kv <> "__proto__"
            /\ (Spec.containsTerm (fst kv) -> snd kv = JStr REDACTED)
            /\ redact (snd kv) = snd kv) l ->
  redactEntries l = l.
Proof.
  induction 1 as [|[k v] r (Hk & Hs & Hv) Hr IH]; [reflexivity|].
  cbn [fst snd] in *. cbn [redactEntries]. unfold assignOwn.
  apply String.eqb_neq in Hk. rewrite Hk, IH. f_equal. f_equal.
  destruct (testTerms keyTerms k) eqn:Ht; [|exact Hv].
  symmetry. apply Hs. now apply RedactFacts.keyTerms_spec.
Qed.

(** X13.  A value with nothing left to redact is returned as it is:
    [redact] changes only what it must. *)
Theorem redact_keeps_clean (v : json) (Hclean : More.clean v) : redact v = v.
Proof.
  induction v as [| b | n | s | l IH | l IH] using Json.json_ind';
    try reflexivity.
  - inversion Hclean as [| | | ? Hs | |]; subst. cbn [redact]. f_equal.
    now apply RedactFacts.redactString_spec.
  - inversion Hclean as [| | | | ? Hl |]; subst. cbn [redact]. f_equal.
    rewrite <- (map_id l) at 2. apply map_ext_in. intros x Hx.
    rewrite Forall_forall in IH, Hl. apply IH; auto.
  - inversion Hclean as [| | | | | ? Hl]; subst.
    rewrite RedactFacts.redact_obj. f_equal. apply redactEntries_fixed.
    rewrite Forall_forall in IH, Hl |- *. intros kv Hkv.
    destruct (Hl kv Hkv) as (Hk & Hs & Hc). repeat split; auto.
Qed.

Lemma redact_keeps_clean_witness :
  redact (JObj [("hostname", JStr "box1"); ("apiKey", JStr "[REDACTED]");
                ("ports", JArr [JNum 80; JNum 443])])
  = JObj [("hostname", JStr "box1"); ("apiKey", JStr "[REDACTED]");
          ("ports", JArr [JNum 80; JNum 443])].
Proof.
  apply redact_keeps_clean.
  assert (Hplain : forall s,
             redactString s = s -> s <> REDACTED -> ~ Spec.caughtByContent s).
  { intros s Hs Hne Hc. apply (proj1 (RedactFacts.redactString_spec s)) in Hc.
    congruence. }
  constructor. repeat constructor; cbn [fst snd]; try discriminate.
  - intros Hc. apply RedactFacts.keyTerms_spec in Hc. vm_compute in Hc. discriminate.
  - apply Hplain; [reflexivity | discriminate].
  - apply marker_not_caught.
  - intros Hc. apply RedactFacts.keyTerms_spec in Hc. vm_compute in Hc. discriminate.
Defined.

End RedactMore.

(** ** Cron jobs of the system route: further statements *)

Module SystemMore.

Import SystemRoute.

Lemma summarizeAll_ids jobs mapped :
  summarizeAll jobs = Some mapped -> map id mapped = map jobId jobs.
Proof.
  revert mapped. induction jobs as [|job r IH]; intros mapped; simpl.
  - intros H; injection H as <-. reflexivity.
  - destruct (summarize job) as [s|] eqn:Hs; [|discriminate].
    destruct (summarizeAll r) as [l|]; [|discriminate].
    intros H; injection H as <-. cbn [map]. rewrite (IH l eq_refl). f_equal.
    unfold summarize in Hs.
    destruct (isoOrNull _); [|discriminate].
    destruct (isoOrNull _); [|discriminate].
    injection Hs as <-. reflexivity.
Qed.

Lemma NoDup_snoc {A} (l : list A) (x : A) :
  NoDup l -> ~ In x l -> NoDup (l ++ [x]).
Proof.
  induction 1 as [|y r Hy Hr IH]; intros Hx; simpl.
  - constructor; [intros [] | constructor].
  - constructor.
    + intros Hin. apply in_app_or in Hin as [Hin | [<- | []]]; [now apply Hy|].
      apply Hx. now left.
    + apply IH. intros Hin. apply Hx. now right.
Qed.

Lemma heartbeats_extend agents mapped :
  exists added,
    fold_left addHeartbeat agents mapped = mapped ++ added
    /\ (NoDup (map id mapped) -> NoDup (map id (mapped ++ added)))
    /\ (forall a, In a agents ->
          exists j, In j (mapped ++ added)
                    /\ id j = ("heartbeat-" ++ agentId a)%string)
    /\ Forall (fun j => exists a, j = heartbeatJob a) added.
Proof.
  revert mapped. induction agents as [|a r IH]; intros mapped.
  - exists []. rewrite app_nil_r. repeat split; auto. intros a [].
  - cbn [fold_left].
    destruct (IH (addHeartbeat mapped a)) as (added & Hfold & Hnd & Hall & Hnew).
    unfold addHeartbeat in *.
    destruct (existsb (fun j => (id j =? "heartbeat-" ++ agentId a)%string) mapped)
      eqn:Hex.
    + exists added. repeat split; auto.
      intros a' [<- | Ha']; [|now apply Hall].
      apply existsb_exists in Hex as (j & Hj & Hid).
      apply String.eqb_eq in Hid. exists j. split; [|exact Hid].
      apply in_or_app. now left.
    + exists (heartbeatJob a :: added).
      rewrite Hfold, <- app_assoc. cbn [app].
      repeat split.
      * intros Hm. rewrite <- app_assoc in Hnd. cbn [app] in Hnd. apply Hnd.
        rewrite map_app. cbn [map].
        apply (NoDup_snoc (map id mapped)); [exact Hm|].
        intros Hin. apply in_map_iff in Hin as (j & Hid & Hj).
        assert (existsb (fun j => (id j =? "heartbeat-" ++ agentId a)%string) mapped
                = true).
        { apply existsb_exists. exists j. split; [exact Hj|].
          apply String.eqb_eq. exact Hid. }
        congruence.
      * intros a' [<- | Ha'].
        -- exists (heartbeatJob a). split; [|reflexivity].
           apply in_or_app. right. now left.
        -- destruct (Hall a' Ha') as (j & Hj & Hid). exists j. split; [|exact Hid].
           rewrite <- app_assoc in Hj. exact Hj.
      * constructor; [now exists a | exact Hnew].
Qed.

(** X14.  The derived list holds the jobs of the CLI first, in their
    order and under their ids, then the synthetic heartbeat jobs.  Each
    agent with the heartbeat on has a job of id [heartbeat-<agent>] in
    it; ids are pairwise distinct when those of the CLI jobs are; and
    the jobs after the CLI ones are enabled, never run, with no
    consecutive error and a rate of 100. *)
Theorem cronJobs_layout jobs agents out
    (Hout : cronJobs jobs agents = Some out) :
  firstn (List.length jobs) (map id out) = map jobId jobs
  /\ (forall a, In a agents -> agentEnabled a = true ->
        exists j, In j out /\ id j = ("heartbeat-" ++ agentId a)%string)
  /\ (NoDup (map jobId jobs) -> NoDup (map id out))
  /\ Forall (fun j => consecutiveErrors j = 0%Z /\ successRate j = 100%Z
                      /\ enabled j = true /\ lastRun j = None)
       (skipn (List.length jobs) out).
Proof.
  unfold cronJobs in Hout.
  destruct (summarizeAll jobs) as [mapped|] eqn:Hm; [|discriminate].
  injection Hout as <-.
  pose proof (summarizeAll_ids _ _ Hm) as Hids.
  assert (Hlen : List.length mapped = List.length jobs).
  { rewrite <- (length_map id mapped), Hids. apply length_map. }
  destruct (heartbeats_extend (filter agentEnabled agents) mapped)
    as (added & -> & Hnd & Hall & Hnew).
  repeat split.
  - rewrite map_app, <- Hlen, <- (length_map id mapped), firstn_app.
    rewrite Nat.sub_diag, firstn_all. cbn [firstn]. now rewrite app_nil_r.
  - intros a Ha Hen. apply Hall. apply filter_In. auto.
  - intros Hj. apply Hnd. now rewrite Hids.
  - rewrite <- Hlen, skipn_app, Nat.sub_diag, skipn_all.
    eapply Forall_impl; [|exact Hnew]. intros j (a & ->). repeat split.
Qed.

Lemma cronJobs_layout_witness :
  exists out j,
    cronJobs [Samples.jobWithErrors "digest" (Some 1%Z)] [Samples.mainHeartbeat]
    = Some out
    /\ In j out /\ id j = "heartbeat-main".
Proof.
  pose proof (cronJobs_layout [Samples.jobWithErrors "digest" (Some 1%Z)]
                [Samples.mainHeartbeat] _ eq_refl) as (_ & Hhb & _).
  destruct (Hhb Samples.mainHeartbeat (or_introl eq_refl) eq_refl) as (j & Hj & Hid).
  eexists. exists j. split; [reflexivity|]. split; [exact Hj | exact Hid].
Defined.

Lemma sliceTo_length n s : (String.length (JS.sliceTo n s) <= n)%nat.
Proof.
  unfold JS.sliceTo. revert s. induction n as [|n IH]; intros s.
  - destruct s; simpl; lia.
  - destruct s as [|c s]; simpl; [lia|]. specialize (IH s). lia.
Qed.

Lemma summarize_ranges job s :
  summarize job = Some s ->
  (0 <= successRate s)%Z
  /\ ((0 <= consecutiveErrors s)%Z -> (successRate s <= 100)%Z)
  /\ (String.length (description s) <= 120)%nat
  /\ lastStatus s <> "ok"
  /\ totalRuns s = 0%Z.
Proof.
  intros Hs. pose proof (CronFacts.summarize_rated _ _ Hs) as Hr.
  unfold Spec.rated, Spec.rateOfErrors in Hr.
  unfold summarize in Hs.
  destruct (isoOrNull _); [|discriminate].
  destruct (isoOrNull _); [|discriminate].
  injection Hs as <-. cbn [successRate consecutiveErrors description lastStatus totalRuns] in *.
  repeat split; try lia.
  - apply sliceTo_length.
  - destruct (stLastStatus _) as [st|]; [|discriminate].
    destruct (st =? "ok")%string eqn:E; [discriminate|].
    now apply String.eqb_neq in E.
Qed.

(** X15.  Every job of the derived list has a rate of at least 0, of at
    most 100 when its count of consecutive errors is not negative, a
    description of at most 120 characters, no recorded total of runs,
    and a last status that is never [ok] (that word is shown as
    [success]). *)
Theorem cronJobs_ranges jobs agents out
    (Hout : cronJobs jobs agents = Some out) :
  forall j, In j out ->
    (0 <= successRate j)%Z
    /\ ((0 <= consecutiveErrors j)%Z -> (successRate j <= 100)%Z)
    /\ (String.length (description j) <= 120)%nat
    /\ lastStatus j <> "ok"
    /\ totalRuns j = 0%Z.
Proof.
  unfold cronJobs in Hout.
  destruct (summarizeAll jobs) as [mapped|] eqn:Hm; [|discriminate].
  injection Hout as <-.
  assert (Hmapped : forall j, In j mapped ->
            (0 <= successRate j)%Z
            /\ ((0 <= consecutiveErrors j)%Z -> (successRate j <= 100)%Z)
            /\ (String.length (description j) <= 120)%nat
            /\ lastStatus j <> "ok"
            /\ totalRuns j = 0%Z).
  { clear agents. revert mapped Hm.
    induction jobs as [|job r IH]; intros mapped; simpl.
    - intros H; injection H as <-. intros j [].
    - destruct (summarize job) as [s|] eqn:Hs; [|discriminate].
      destruct (summarizeAll r) as [l|]; [|discriminate].
      intros H; injection H as <-.
      intros j [<- | Hj]; [eapply summarize_ranges, Hs | now apply (IH l)]. }
  destruct (heartbeats_extend (filter agentEnabled agents) mapped)
    as (added & -> & _ & _ & Hnew).
  intros j Hj. apply in_app_or in Hj as [Hj | Hj]; [now apply Hmapped|].
  rewrite Forall_forall in Hnew. destruct (Hnew j Hj) as (a & ->).
  cbn [heartbeatJob successRate consecutiveErrors description lastStatus totalRuns].
  repeat split; try lia; [cbn; lia | discriminate].
Qed.

Lemma cronJobs_ranges_witness :
  exists out,
    cronJobs [Samples.jobWithErrors "digest" (Some 7%Z)] [Samples.mainHeartbeat]
    = Some out
    /\ forall j, In j out -> (0 <= successRate j <= 100)%Z.
Proof.
  eexists. split; [reflexivity|].
  intros j Hj.
  destruct (cronJobs_ranges [Samples.jobWithErrors "digest" (Some 7%Z)]
              [Samples.mainHeartbeat] _ eq_refl j Hj) as (Hlo & Hhi & _).
  split; [exact Hlo|]. apply Hhi.
  destruct Hj as [<- | [<- | []]]; vm_compute; discriminate.
Defined.


Lemma isoOrNull_none ms : isoOrNull ms = None <-> More.badDate ms.
Proof.
  unfold isoOrNull, More.badDate. destruct ms as [t|].
  - destruct (t =? 0)%Z eqn:E0.
    + apply Z.eqb_eq in E0. split; [discriminate|].
      intros (t' & Ht & Hne & _). injection Ht as <-. contradiction.
    + apply Z.eqb_neq in E0. destruct (ActivityRoute.validTime t) eqn:Ev.
      * split; [discriminate|].
        intros (t' & Ht & _ & Hv). injection Ht as <-. congruence.
      * split; [intros _; now exists t | reflexivity].
  - split; [discriminate | intros (t & Ht & _); discriminate].
Qed.

Lemma summarize_none job :
  summarize job = None
  <-> More.badDate (lastRunAtMs (More.stateOf job))
      \/ More.badDate (nextRunAtMs (More.stateOf job)).
Proof.
  rewrite <- !isoOrNull_none. unfold summarize, More.stateOf.
  destruct (isoOrNull (lastRunAtMs _)); destruct (isoOrNull (nextRunAtMs _));
    split; try discriminate; try tauto; intros [H | H]; discriminate.
Qed.

Lemma summarize_dates job s :
  summarize job = Some s ->
  isoOrNull (lastRunAtMs (More.stateOf job)) = Some (lastRun s)
  /\ isoOrNull (nextRunAtMs (More.stateOf job)) = Some (nextRun s).
Proof.
  unfold summarize, More.stateOf.
  destruct (isoOrNull (lastRunAtMs _)) as [l|]; [|discriminate].
  destruct (isoOrNull (nextRunAtMs _)) as [n|]; [|discriminate].
  intros H. injection H as <-. split; reflexivity.
Qed.

Lemma isoOrNull_blank ms shown :
  isoOrNull ms = Some shown -> ms = None \/ ms = Some 0%Z -> shown = None.
Proof.
  intros H [-> | ->]; cbn in H; congruence.
Qed.

(** X16.  The derivation of the cron jobs fails exactly when some job
    carries a last or next run instant that is not zero and lies out of
    the range of dates; absent, [null] and zero instants are shown as
    no date and never make it fail. *)
Theorem cronJobs_fail_on_bad_date jobs agents :
  (cronJobs jobs agents = None
   <-> exists job, In job jobs
         /\ (More.badDate (lastRunAtMs (More.stateOf job))
             \/ More.badDate (nextRunAtMs (More.stateOf job))))
  /\ (forall out i job s,
        cronJobs jobs agents = Some out ->
        nth_error jobs i = Some job -> nth_error out i = Some s ->
        (lastRunAtMs (More.stateOf job) = None
         \/ lastRunAtMs (More.stateOf job) = Some 0%Z -> lastRun s = None)
        /\ (nextRunAtMs (More.stateOf job) = None
            \/ nextRunAtMs (More.stateOf job) = Some 0%Z -> nextRun s = None)).
Proof.
  split.
  - unfold cronJobs.
    assert (H : summarizeAll jobs = None
                <-> exists job, In job jobs /\ summarize job = None).
    { induction jobs as [|job r IH]; simpl.
      - split; [discriminate | intros (j & [] & _)].
      - destruct (summarize job) as [s|] eqn:Hs.
        + destruct (summarizeAll r) as [l|].
          * split; [discriminate|].
            intros (j & [<- | Hj] & Hn); [congruence|].
            assert (Some l = None) by (apply IH; now exists j). discriminate.
          * split; [|reflexivity]. intros _.
            destruct (proj1 IH eq_refl) as (j & Hj & Hn). exists j. auto.
        + split; [|reflexivity]. intros _. exists job. auto. }
    destruct (summarizeAll jobs) as [mapped|]; cbn [option_map].
    + split; [discriminate|]. intros (job & Hj & Hbad).
      apply summarize_none in Hbad.
      assert (Some mapped = None) by (apply H; now exists job). discriminate.
    + split; [|reflexivity]. intros _.
      destruct (proj1 H eq_refl) as (job & Hj & Hn). exists job.
      split; [exact Hj | now apply summarize_none].
  - intros out i job s Hout Hjob Hs.
    destruct (CronFacts.cronJobs_nth _ _ _ _ _ Hout Hjob) as (s' & Hs' & Hsum).
    assert (s' = s) by congruence. subst s'.
    destruct (summarize_dates _ _ Hsum) as [Hl Hn].
    split; [exact (isoOrNull_blank _ _ Hl) | exact (isoOrNull_blank _ _ Hn)].
Qed.

Lemma cronJobs_fail_on_bad_date_witness :
  exists s, cronJobs [Samples.jobWithErrors "digest" None] [] = Some [s]
            /\ lastRun s = Some 1000%Z /\ nextRun s = None.
Proof.
  eexists. split; [reflexivity|]. split; [reflexivity|].
  apply (proj2 (cronJobs_fail_on_bad_date [Samples.jobWithErrors "digest" None] [])
           _ 0%nat (Samples.jobWithErrors "digest" None) _ eq_refl eq_refl eq_refl).
  left. reflexivity.
Defined.

End SystemMore.

(** ** Token usage: statements *)

Module UsageFacts.

Import TokenUsage.

Lemma sumOf_cons f u l : sumOf f (u :: l) = (f u + sumOf f l)%Z.
Proof. reflexivity. Qed.

Lemma sumOf_nil f : sumOf f [] = 0%Z.
Proof. reflexivity. Qed.

Lemma over_cons f s l : over f (s :: l) = (f s + over f l)%Z.
Proof. reflexivity. Qed.

Lemma over_nil f : over f [] = 0%Z.
Proof. reflexivity. Qed.

Lemma over_app f l l' : over f (l ++ l') = (over f l + over f l')%Z.
Proof.
  induction l as [|x l IH]; cbn [app]; rewrite ?over_cons, ?over_nil; lia.
Qed.

Lemma over_nonneg f l : Forall (fun s => (0 <= f s)%Z) l -> (0 <= over f l)%Z.
Proof. induction 1; rewrite ?over_cons, ?over_nil; lia. Qed.

(** Below 2^53 the addition of the source is the exact one. *)
Lemma plus_exact (a b : Z) :
  (0 <= a)%Z -> (0 <= b)%Z -> (a + b <= 2 ^ 53)%Z -> plus a b = (a + b)%Z.
Proof.
  intros Ha Hb Hab. unfold plus, round.
  destruct (Z.leb_spec (Z.abs (a + b)) (2 ^ 53)) as [_|Hbig]; [reflexivity|]. lia.
Qed.

(** Above it, it is not: the double nearest to 2^53 + 1 is 2^53. *)
Lemma plus_rounds : plus (2 ^ 53) 1 = (2 ^ 53)%Z.
Proof. reflexivity. Qed.

(** A column of a map with no negative entry: an entry is at most the
    sum. *)
Lemma entry_le_sum f (m : list ModelUsage) u :
  Forall (fun x => (0 <= f x)%Z) m -> In u m -> (0 <= f u <= sumOf f m)%Z.
Proof.
  induction 1 as [|x r Hx Hr IH]; intros Hin; [destruct Hin|].
  rewrite sumOf_cons.
  assert (0 <= sumOf f r)%Z.
  { clear -Hr. induction Hr; rewrite ?sumOf_cons, ?sumOf_nil; lia. }
  destruct Hin as [<- | Hin]; [lia|]. specialize (IH Hin). lia.
Qed.

Lemma record_sums m name inp out tot :
  Forall nonneg m ->
  (0 <= inp)%Z -> (0 <= out)%Z -> (0 <= tot)%Z ->
  (sumOf input m + inp <= 2 ^ 53)%Z ->
  (sumOf output m + out <= 2 ^ 53)%Z ->
  (sumOf total m + tot <= 2 ^ 53)%Z ->
  Forall nonneg (record m name inp out tot)
  /\ sumOf input (record m name inp out tot) = (sumOf input m + inp)%Z
  /\ sumOf output (record m name inp out tot) = (sumOf output m + out)%Z
  /\ sumOf total (record m name inp out tot) = (sumOf total m + tot)%Z
  /\ sumOf sessions (record m name inp out tot) = (sumOf sessions m + 1)%Z.
Proof.
  intros Hm Hi Ho Ht. induction Hm as [|u r Hu Hr IH]; cbn [record]; intros Bi Bo Bt.
  - rewrite !sumOf_nil in *.
    rewrite !plus_exact by lia.
    rewrite !sumOf_cons, !sumOf_nil. cbn [input output total sessions].
    repeat split; try lia. constructor; [|constructor].
    unfold nonneg. cbn [input output total]. lia.
  - rewrite !sumOf_cons in *. destruct Hu as (U1 & U2 & U3).
    assert (S1 : (0 <= sumOf input r)%Z).
    { clear -Hr. induction Hr as [|x t Hx]; rewrite ?sumOf_cons, ?sumOf_nil;
        [lia | destruct Hx; lia]. }
    assert (S2 : (0 <= sumOf output r)%Z).
    { clear -Hr. induction Hr as [|x t Hx]; rewrite ?sumOf_cons, ?sumOf_nil;
        [lia | destruct Hx as (_ & ? & _); lia]. }
    assert (S3 : (0 <= sumOf total r)%Z).
    { clear -Hr. induction Hr as [|x t Hx]; rewrite ?sumOf_cons, ?sumOf_nil;
        [lia | destruct Hx as (_ & _ & ?); lia]. }
    destruct (model u =? name)%string.
    + rewrite !plus_exact by lia.
      rewrite !sumOf_cons. cbn [input output total sessions].
      repeat split; try lia. constructor; [|exact Hr].
      unfold nonneg. cbn [input output total]. lia.
    + destruct IH as (N & H1 & H2 & H3 & H4); try lia.
      rewrite !sumOf_cons. repeat split; try lia.
      constructor; [unfold nonneg; lia | exact N].
Qed.

Lemma record_models m name inp out tot x :
  In x (map model (record m name inp out tot)) <-> x = name \/ In x (map model m).
Proof.
  induction m as [|u r IH]; cbn [record].
  - cbn. intuition congruence.
  - destruct (model u =? name)%string eqn:E; cbn [map In model].
    + apply String.eqb_eq in E. rewrite E. intuition congruence.
    + rewrite IH. tauto.
Qed.

Lemma record_NoDup m name inp out tot :
  NoDup (map model m) -> NoDup (map model (record m name inp out tot)).
Proof.
  induction m as [|u r IH]; cbn [record]; intros Hnd.
  - cbn. constructor; [intros [] | constructor].
  - inversion Hnd as [|? ? Hnot Hr]; subst.
    destruct (model u =? name)%string eqn:E; cbn [map model].
    + apply String.eqb_eq in E. rewrite <- E. now constructor.
    + constructor; [|now apply IH].
      rewrite record_models. intros [H | H]; [|contradiction].
      apply String.eqb_neq in E. congruence.
Qed.

Lemma insertByTotal_perm u l : Permutation (insertByTotal u l) (u :: l).
Proof.
  induction l as [|y r IH]; simpl; [reflexivity|].
  destruct (total y <=? total u)%Z; [reflexivity|].
  rewrite IH. apply perm_swap.
Qed.

Lemma sortByTotal_perm l : Permutation (sortByTotal l) l.
Proof.
  induction l as [|u r IH]; simpl; [reflexivity|].
  rewrite insertByTotal_perm. now constructor.
Qed.

Lemma sortByTotal_sorted l :
  StronglySorted (fun a b => (total b <= total a)%Z) (sortByTotal l).
Proof.
  induction l as [|u r IH]; simpl; [constructor|].
  revert IH. generalize (sortByTotal r). intros s Hs.
  induction s as [|y t IHt]; simpl; [repeat constructor|].
  apply StronglySorted_inv in Hs as [Ht Hy].
  destruct (total y <=? total u)%Z eqn:Hle.
  - apply Z.leb_le in Hle. constructor; [now constructor|].
    constructor; [exact Hle|].
    eapply Forall_impl; [|exact Hy]. simpl. intros z Hz. lia.
  - apply Z.leb_gt in Hle. constructor; [now apply IHt|].
    apply (Permutation_Forall (Permutation_sym (insertByTotal_perm u t))).
    constructor; [lia | exact Hy].
Qed.

Lemma sumOf_perm f l l' : Permutation l l' -> sumOf f l = sumOf f l'.
Proof.
  induction 1; rewrite ?sumOf_cons; lia.
Qed.

(** The state of the loop after the sessions [seen], with the sessions
    of [sessionsList] still to come, all in the exact range. *)
Lemma loop_invariant (sessionsList : list UsageSession) :
  forall m totalIn totalOut (seen : list UsageSession),
    exactRange (seen ++ sessionsList) ->
    NoDup (map model m) -> Forall nonneg m ->
    sumOf input m = totalIn -> sumOf output m = totalOut ->
    totalIn = over inputOf seen -> totalOut = over outputOf seen ->
    sumOf sessions m = Z.of_nat (List.length seen) ->
    sumOf total m = over sessionTotal seen ->
    (forall x, In x (map model m) <-> In x (map sessionModel seen)) ->
    let '(m', totalIn', totalOut') := fold_left step sessionsList (m, totalIn, totalOut) in
    NoDup (map model m')
    /\ sumOf input m' = totalIn' /\ sumOf output m' = totalOut'
    /\ totalIn' = over inputOf (seen ++ sessionsList)
    /\ totalOut' = over outputOf (seen ++ sessionsList)
    /\ sumOf sessions m' = Z.of_nat (List.length (seen ++ sessionsList))
    /\ sumOf total m' = over sessionTotal (seen ++ sessionsList)
    /\ (forall x, In x (map model m') <-> In x (map sessionModel (seen ++ sessionsList))).
Proof.
  induction sessionsList as [|s r IH];
    intros m totalIn totalOut seen Hsafe Hnd Hnn Hi Ho Ei Eo Hs Ht Hm.
  - cbn [fold_left]. rewrite app_nil_r. repeat split; auto; apply Hm.
  - cbn [fold_left step].
    destruct Hsafe as (Hpos & Bio & Bt).
    apply Forall_app in Hpos as [Hseen Hrest].
    apply Forall_cons_iff in Hrest as [(P1 & P2 & P3) Hr'].
    repeat rewrite over_app in Bio. repeat rewrite over_cons in Bio.
    rewrite over_app, over_cons in Bt.
    assert (Ri : (0 <= over inputOf r)%Z).
    { apply over_nonneg. eapply Forall_impl; [|exact Hr']. cbn. tauto. }
    assert (Ro : (0 <= over outputOf r)%Z).
    { apply over_nonneg. eapply Forall_impl; [|exact Hr']. cbn. tauto. }
    assert (Rt : (0 <= over sessionTotal r)%Z).
    { apply over_nonneg. eapply Forall_impl; [|exact Hr']. cbn. tauto. }
    assert (Si : (0 <= over inputOf seen)%Z).
    { apply over_nonneg. eapply Forall_impl; [|exact Hseen]. cbn. tauto. }
    assert (So : (0 <= over outputOf seen)%Z).
    { apply over_nonneg. eapply Forall_impl; [|exact Hseen]. cbn. tauto. }
    assert (St : (0 <= over sessionTotal seen)%Z).
    { apply over_nonneg. eapply Forall_impl; [|exact Hseen]. cbn. tauto. }
    assert (Etot : match totalTokens s with
                   | Some t => t
                   | None => plus (orNum (inputTokens s) 0) (orNum (outputTokens s) 0)
                   end = sessionTotal s).
    { assert (Hst : (0 <= sessionTotal s <= 2 ^ 53)%Z) by lia.
      revert Hst. unfold sessionTotal. unfold inputOf, outputOf in P1, P2.
      destruct (totalTokens s) as [t|]; [reflexivity|]. cbn [orNum]. intros Hst.
      apply plus_exact; lia. }
    rewrite Etot. fold (inputOf s) (outputOf s).
    destruct (record_sums m (sessionModel s) (inputOf s) (outputOf s) (sessionTotal s))
      as (N & R1 & R2 & R3 & R4); try assumption; try lia.
    specialize (IH (record m (sessionModel s) (inputOf s) (outputOf s) (sessionTotal s))
                   (plus totalIn (inputOf s)) (plus totalOut (outputOf s))
                   (seen ++ [s])).
    rewrite <- app_assoc in IH. cbn [app] in IH.
    rewrite (plus_exact totalIn (inputOf s)) in IH |- * by lia.
    rewrite (plus_exact totalOut (outputOf s)) in IH |- * by lia.
    apply IH.
    + repeat split; [apply Forall_app; split; [|constructor]; tauto | |];
        repeat rewrite over_app; repeat rewrite over_cons; lia.
    + now apply record_NoDup.
    + exact N.
    + lia.
    + lia.
    + rewrite over_app, over_cons, over_nil. lia.
    + rewrite over_app, over_cons, over_nil. lia.
    + rewrite R4, Hs, length_app. cbn. lia.
    + rewrite R3, Ht, over_app, over_cons, over_nil. lia.
    + intros x. rewrite record_models, map_app, in_app_iff, Hm. cbn.
      intuition congruence.
Qed.

(** X17.  When no token count is negative and the tokens of all
    sessions together stay within 2^53, where the additions of the
    source are exact, the usage by model adds up: the inputs, outputs
    and session counts of the models sum to the totals, and the count
    of sessions is the length of the list; the models are pairwise
    distinct and are exactly the models of the sessions, [unknown]
    standing for a missing one; the list is in descending order of
    total; and the totals by model sum to what the sessions count for,
    [totalTokens] where present and input plus output otherwise. *)
Theorem tokenUsage_adds_up (sessionsList : list UsageSession)
    (Hrange : exactRange sessionsList) :
  let usage := tokenUsage sessionsList in
  sumOf input (byModel usage) = totalInput (totals usage)
  /\ sumOf output (byModel usage) = totalOutput (totals usage)
  /\ sumOf sessions (byModel usage) = totalSessions (totals usage)
  /\ totalSessions (totals usage) = Z.of_nat (List.length sessionsList)
  /\ totalInput (totals usage) = over inputOf sessionsList
  /\ totalOutput (totals usage) = over outputOf sessionsList
  /\ totalBoth (totals usage) = (totalInput (totals usage) + totalOutput (totals usage))%Z
  /\ NoDup (map model (byModel usage))
  /\ (forall x, In x (map model (byModel usage))
                <-> In x (map sessionModel sessionsList))
  /\ StronglySorted (fun a b => (total b <= total a)%Z) (byModel usage)
  /\ sumOf total (byModel usage) = over sessionTotal sessionsList.
Proof.
  intros usage. subst usage. unfold tokenUsage.
  pose proof (loop_invariant sessionsList [] 0%Z 0%Z []) as H.
  destruct (fold_left step sessionsList ([], 0%Z, 0%Z)) as [[m totalIn] totalOut].
  cbn [app] in H.
  assert (Hstart : NoDup (map model []) /\ Forall nonneg []
                   /\ (forall x, In x (map model []) <-> In x (@nil string))).
  { repeat split; try constructor; tauto. }
  destruct Hstart as (S1 & S2 & S4).
  specialize (H Hrange S1 S2 eq_refl eq_refl eq_refl eq_refl eq_refl eq_refl S4).
  destruct H as (Hnd & Hi & Ho & Ei & Eo & Hs & Ht & Hm).
  cbn [byModel totals totalInput totalOutput totalSessions totalBoth].
  pose proof (sortByTotal_perm m) as Hp.
  destruct Hrange as (Hpos & Bio & _).
  assert (Pi : (0 <= over inputOf sessionsList)%Z).
  { apply over_nonneg. eapply Forall_impl; [|exact Hpos]. cbn. tauto. }
  assert (Po : (0 <= over outputOf sessionsList)%Z).
  { apply over_nonneg. eapply Forall_impl; [|exact Hpos]. cbn. tauto. }
  repeat match goal with |- _ /\ _ => split end.
  - now rewrite (sumOf_perm input _ _ Hp).
  - now rewrite (sumOf_perm output _ _ Hp).
  - now rewrite (sumOf_perm sessions _ _ Hp).
  - reflexivity.
  - exact Ei.
  - exact Eo.
  - apply plus_exact; lia.
  - eapply Permutation_NoDup; [|exact Hnd].
    apply Permutation_map, Permutation_sym, Hp.
  - intros x. rewrite <- Hm. split; intros Hx.
    + eapply Permutation_in; [apply Permutation_map, Hp | exact Hx].
    + eapply Permutation_in; [apply Permutation_map, Permutation_sym, Hp | exact Hx].
  - apply sortByTotal_sorted.
  - now rewrite (sumOf_perm total _ _ Hp).
Qed.

Lemma tokenUsage_adds_up_witness :
  let usage := tokenUsage MoreSamples.threeSessions in
  map model (byModel usage) = ["opus"; "unknown"]
  /\ sumOf input (byModel usage) = 1500%Z
  /\ totalInput (totals usage) = 1500%Z.
Proof.
  intros usage.
  assert (Hrange : exactRange MoreSamples.threeSessions).
  { unfold exactRange. split; [|split; vm_compute; discriminate].
    repeat constructor; vm_compute; discriminate. }
  destruct (tokenUsage_adds_up MoreSamples.threeSessions Hrange)
    as (Hsum & _ & _ & _ & Hin & _).
  split; [reflexivity|]. split; [|exact Hin].
  fold usage in Hsum, Hin. rewrite Hsum. exact Hin.
Defined.

(** From 2^53 on the additions round, and the two ways of summing part:
    with inputs of 2^53, 1 and 1 the total input stays at 2^53 while
    the inputs by model sum to 2^53 + 2. *)
Lemma tokenUsage_rounds :
  let usage := tokenUsage MoreSamples.hugeSessions in
  totalInput (totals usage) = (2 ^ 53)%Z
  /\ sumOf input (byModel usage) = (2 ^ 53 + 2)%Z.
Proof. split; reflexivity. Qed.

End UsageFacts.

(** ** The channels route: statements *)

Module ChannelsFacts.

Import ChannelsRoute.

Lemma channelOf_fields pf inherits labels k ch c :
  channelOf pf inherits labels (k, ch) = Some c ->
  id c = k
  /\ configured c = Json.orDefault (Json.prop ch "configured") (JBool false)
  /\ dProbeOk (details c) = Json.isTrue (Json.get (Json.prop ch "probe") "ok")
  /\ status c
     = (if negb (Json.truthy (configured c)) then unknown
        else if Json.truthyOpt (Json.get (Json.prop ch "probe") "error") then error
        else if dProbeOk (details c) then connected
        else disconnected)
  /\ ch <> JNull.
Proof.
  unfold channelOf.
  destruct ch; try discriminate;
    (match goal with
     | |- context [match ?x with Some _ => _ | None => None end] =>
         destruct x as [lp|] eqn:Hlp; [|discriminate]
     end;
     intros H; injection H as <-; cbn;
     repeat split; discriminate).
Qed.

Lemma mapAll_spec {A B} (f : A -> option B) (l : list A) (out : list B) :
  mapAll f l = Some out -> Forall2 (fun x y => f x = Some y) l out.
Proof.
  revert out. induction l as [|x r IH]; intros out; simpl.
  - intros H; injection H as <-. constructor.
  - destruct (f x) as [y|] eqn:Hx; [|discriminate].
    destruct (mapAll f r) as [ys|]; [|discriminate].
    intros H; injection H as <-. constructor; [exact Hx | now apply IH].
Qed.

Lemma assoc_unique k v (l : list (string * json)) :
  NoDup (map fst l) -> In (k, v) l -> Json.assoc k l = Some v.
Proof.
  induction l as [|[k' v'] r IH]; intros Hnd Hin; [destruct Hin|].
  inversion Hnd as [|? ? Hnot Hr]; subst. cbn [Json.assoc].
  destruct Hin as [H | Hin].
  - injection H as -> ->. now rewrite String.eqb_refl.
  - destruct (k' =? k)%string eqn:E; [|now apply IH].
    apply String.eqb_eq in E. subst k'. exfalso. apply Hnot.
    apply in_map_iff. now exists (k, v).
Qed.

(** X18.  A health snapshot gives one channel for each listed channel,
    in order and under its name.  The status of a channel is [unknown]
    exactly when the channel is not configured; otherwise [error] when
    the probe reports an error, else [connected] when the probe is ok
    and [disconnected] when it is not.  With distinct channel names,
    every [connected] channel is an active channel of the status route,
    and when at least one channel is listed and all are [connected] the
    health of the status route is [healthy]. *)
Theorem buildChannels_status (pf : Platform) (inherits : json -> string -> bool)
    (healthData : option json) (out : list Channel)
    (Hlive : Json.truthyOpt healthData = true)
    (Hout : buildChannels pf inherits healthData = Some out) :
  map id out = Json.keys (Spec.channelsOf healthData)
  /\ (forall c, In c out ->
        (status c = unknown <-> Json.truthy (configured c) = false)
        /\ (status c = connected -> dProbeOk (details c) = true)
        /\ (status c = disconnected -> dProbeOk (details c) = false))
  /\ (NoDup (Json.keys (Spec.channelsOf healthData)) ->
      (forall c, In c out -> status c = connected ->
         In (id c) (StatusRoute.channels (StatusRoute.parseHealth healthData)))
      /\ (out <> [] -> (forall c, In c out -> status c = connected) ->
          StatusRoute.deriveHealth (StatusRoute.parseHealth healthData) = healthy)).
Proof.
  unfold buildChannels in Hout. rewrite Hlive in Hout. cbn [negb] in Hout.
  apply mapAll_spec in Hout. fold (Spec.channelsOf healthData) in Hout.
  set (channels := Spec.channelsOf healthData) in *.
  assert (Hids : map id out = Json.keys channels).
  { unfold Json.keys. clear -Hout.
    induction Hout as [|[k ch] c l l' Hc Hl IH]; [reflexivity|].
    cbn [map fst]. rewrite IH. f_equal.
    now apply channelOf_fields in Hc as (-> & _). }
  assert (Hst : forall c, In c out ->
            exists ch, In (id c, ch) (Json.ownEntries channels)
              /\ configured c = Json.orDefault (Json.prop ch "configured") (JBool false)
              /\ dProbeOk (details c)
                 = Json.isTrue (Json.get (Json.prop ch "probe") "ok")
              /\ status c
                 = (if negb (Json.truthy (configured c)) then unknown
                    else if Json.truthyOpt (Json.get (Json.prop ch "probe") "error")
                         then error
                    else if dProbeOk (details c) then connected
                    else disconnected)
              /\ ch <> JNull).
  { clear -Hout. induction Hout as [|[k ch] c l l' Hc Hl IH]; [intros c []|].
    intros c' [<- | Hin].
    - apply channelOf_fields in Hc as (Hid & H).
      exists ch. rewrite Hid. split; [now left | exact H].
    - destruct (IH c' Hin) as (ch' & Hin' & H). exists ch'.
      split; [now right | exact H]. }
  split; [exact Hids|]. split.
  - intros c Hc. destruct (Hst c Hc) as (ch & _ & _ & _ & Hs & _).
    rewrite Hs. clear Hs.
    destruct (Json.truthy (configured c)); cbn [negb];
      [|repeat split; congruence].
    destruct (Json.truthyOpt (Json.get (Json.prop ch "probe") "error"));
      [repeat split; congruence|].
    destruct (dProbeOk (details c)); repeat split; congruence.
  - intros Hnd.
    assert (Hactive : forall c, In c out -> status c = connected ->
              StatusRoute.configuredAndOk channels (id c) = true
              /\ StatusRoute.probeOk channels (id c) = true).
    { intros c Hc Hconn. destruct (Hst c Hc) as (ch & Hin & Hcf & Hp & Hs & Hnn).
      assert (Hprop : Json.prop channels (id c) = Some ch).
      { unfold Json.prop. now rewrite (assoc_unique _ _ _ Hnd Hin). }
      rewrite Hs in Hconn.
      destruct (Json.truthy (configured c)) eqn:Hcfg; cbn [negb] in Hconn;
        [|discriminate].
      destruct (Json.truthyOpt (Json.get (Json.prop ch "probe") "error"));
        [discriminate|].
      destruct (dProbeOk (details c)); [|discriminate]. symmetry in Hp.
      assert (Hget : Json.get (Some ch) "probe" = Json.prop ch "probe").
      { destruct ch; reflexivity. }
      assert (Hcget : Json.get (Some ch) "configured" = Json.prop ch "configured").
      { destruct ch; reflexivity. }
      unfold StatusRoute.configuredAndOk, StatusRoute.probeOk, StatusRoute.probeOf.
      rewrite Hprop, Hget, Hcget, Hp.
      split; [|reflexivity].
      rewrite (StatusMore.isTrue_truthy _ Hp), andb_true_r.
      rewrite Hcf in Hcfg.
      destruct (Json.prop ch "configured") as [[| | | | |]|]; simpl in *; congruence. }
    destruct (HealthFacts.parseHealth_live _ Hlive) as [Hall Hany].
    fold channels in Hall, Hany.
    split.
    + intros c Hc Hconn. unfold StatusRoute.parseHealth. rewrite Hlive.
      cbn [negb StatusRoute.channels]. fold (Spec.channelsOf healthData).
      fold channels. apply filter_In. split.
      * rewrite <- Hids. now apply in_map.
      * now apply Hactive.
    + intros Hne Hallc. unfold StatusRoute.deriveHealth. rewrite Hall.
      assert (Hlen : (0 <? List.length (Json.keys channels))%nat = true).
      { rewrite <- Hids, length_map. destruct out; [congruence | reflexivity]. }
      rewrite Hlen. cbn [andb].
      assert (Hf : forallb (StatusRoute.probeOk channels) (Json.keys channels) = true).
      { apply forallb_forall. intros k Hk. rewrite <- Hids in Hk.
        apply in_map_iff in Hk as (c & <- & Hc). now apply Hactive; auto. }
      now rewrite Hf.
Qed.

Lemma buildChannels_status_witness :
  exists out,
    buildChannels Samples.pf MoreSamples.objectMembers Samples.oneChannelOk = Some out
    /\ map id out = ["telegram"]
    /\ map status out = [connected].
Proof.
  eexists. split; [reflexivity|].
  destruct (buildChannels_status Samples.pf MoreSamples.objectMembers
              Samples.oneChannelOk _ eq_refl eq_refl)
    as (Hids & _).
  split; [exact Hids | reflexivity].
Defined.

(** X19.  The channels route never answers with an error: a refresh
    that throws with nothing cached answers with the empty list,
    without the stale flag, and caches nothing; with an entry cached it
    answers with that entry, flagged [cached] and [stale]; and a
    missing health snapshot is not a failure, it gives the empty list
    as a fresh answer. *)
Theorem channels_GET_fallbacks (pf : Platform) (inherits : json -> string -> bool)
    (cache : option CacheEntry) (now : Z) (exec : string -> ExecOutcome)
    (Hexpired : forall c, cache = Some c -> (CACHE_TTL <= now - ts c)%Z) :
  let healthData := Bridge.runCLI (jsonParse pf) (exec "openclaw health --json") in
  (buildChannels pf inherits healthData = None ->
   GET pf inherits cache now exec
   = match cache with
     | Some c => ({| rData := data c; rTimestamp := nowISO pf;
                     rCached := true; rStale := true |}, cache)
     | None => ({| rData := []; rTimestamp := nowISO pf;
                   rCached := false; rStale := false |}, None)
     end)
  /\ (Json.truthyOpt healthData = false ->
      GET pf inherits cache now exec
      = ({| rData := []; rTimestamp := nowISO pf; rCached := false; rStale := false |},
         Some {| data := []; ts := now |})).
Proof.
  intros healthData.
  assert (Hget : GET pf inherits cache now exec
                 = match buildChannels pf inherits healthData with
                   | Some d => ({| rData := d; rTimestamp := nowISO pf;
                                   rCached := false; rStale := false |},
                                Some {| data := d; ts := now |})
                   | None =>
                       match cache with
                       | Some c => ({| rData := data c; rTimestamp := nowISO pf;
                                       rCached := true; rStale := true |}, cache)
                       | None => ({| rData := []; rTimestamp := nowISO pf;
                                     rCached := false; rStale := false |}, None)
                       end
                   end).
  { unfold GET. fold healthData. destruct cache as [c|]; [|reflexivity].
    specialize (Hexpired c eq_refl).
    destruct (now - ts c <? CACHE_TTL)%Z eqn:Hlt; [|reflexivity].
    apply Z.ltb_lt in Hlt. lia. }
  rewrite Hget. split.
  - intros ->. reflexivity.
  - intros Hdead. unfold buildChannels. rewrite Hdead. reflexivity.
Qed.

Lemma channels_GET_fallbacks_witness :
  let pf := Samples.host (Samples.parseOne MoreSamples.nullChannelText
                            MoreSamples.nullChannel) in
  let old := Some {| data := []; ts := 0 |} in
  GET Samples.pf MoreSamples.objectMembers None 0 (fun _ => TimedOut)
  = ({| rData := []; rTimestamp := nowISO Samples.pf;
        rCached := false; rStale := false |},
     Some {| data := []; ts := 0 |})
  /\ GET pf MoreSamples.objectMembers old 40000
       (fun _ => Completed MoreSamples.nullChannelText)
     = ({| rData := []; rTimestamp := nowISO pf;
           rCached := true; rStale := true |}, old).
Proof.
  intros pf old. split.
  - apply (channels_GET_fallbacks Samples.pf MoreSamples.objectMembers None 0
             (fun _ => TimedOut)).
    + intros c Hc. discriminate Hc.
    + reflexivity.
  - apply (channels_GET_fallbacks pf MoreSamples.objectMembers old 40000
             (fun _ => Completed MoreSamples.nullChannelText)).
    + intros c Hc. injection Hc as <-. vm_compute. discriminate.
    + reflexivity.
Defined.

End ChannelsFacts.

(** ** Channels read from the channel summary: statements *)

Module SummaryFacts.

Import ChannelSummary.

Lemma channelMatch_nonEmpty s n : channelMatch s = Some n -> JS.nonEmpty n = true.
Proof.
  destruct s as [|c t]; [discriminate|]. unfold channelMatch.
  destruct (JS.is_word c); [|discriminate].
  destruct (JS.dropWhile nameChar t) as [|e v]; [discriminate|].
  destruct e as [[] [] [] [] [] [] [] []]; try discriminate.
  destruct v as [|d u]; [discriminate|].
  match goal with |- context [if ?b then _ else _] => destruct b end;
    [|discriminate].
  intros H; injection H as <-. reflexivity.
Qed.

Lemma flush_set rs c acc :
  JS.nonEmpty c = true ->
  flush {| results := rs; currentChannel := Some c; accountLines := acc |}
  = {| results := rs ++ [Groups.channelOfGroup (c, acc)];
       currentChannel := Some c;
       accountLines := [] |}.
Proof. intros Hc. unfold flush. cbn [currentChannel]. now rewrite Hc. Qed.

Lemma step_header st line n :
  channelMatch (JS.trim line) = Some n ->
  step st line
  = {| results := results (flush st);
       currentChannel := Some n;
       accountLines := accountLines (flush st) |}.
Proof. intros Hm. unfold step. now rewrite Hm. Qed.

Lemma step_other st line :
  channelMatch (JS.trim line) = None ->
  step st line
  = if isSet (currentChannel st) && JS.startsWith (JS.trim line) "- " then
      {| results := results st;
         currentChannel := currentChannel st;
         accountLines := accountLines st ++ [JS.sliceFrom 2 (JS.trim line)] |}
    else st.
Proof. intros Hm. unfold step. now rewrite Hm. Qed.

Lemma loop_with_channel lines : forall rs c acc,
  JS.nonEmpty c = true ->
  results (flush (fold_left step lines
                    {| results := rs; currentChannel := Some c; accountLines := acc |}))
  = rs ++ Groups.channelOfGroup
            (c, acc ++ Groups.accountsIn (Groups.untilHeader (map JS.trim lines)))
          :: map Groups.channelOfGroup (Groups.groups (map JS.trim lines)).
Proof.
  induction lines as [|line r IH]; intros rs c acc Hc.
  - cbn [fold_left map Groups.untilHeader Groups.groups].
    rewrite (flush_set _ _ _ Hc). unfold Groups.accountsIn.
    cbn [filter map results]. now rewrite app_nil_r.
  - cbn [fold_left map Groups.untilHeader Groups.groups].
    destruct (channelMatch (JS.trim line)) as [n|] eqn:Hm.
    + rewrite (step_header _ _ _ Hm), (flush_set _ _ _ Hc).
      cbn [results accountLines].
      rewrite (IH _ n [] (channelMatch_nonEmpty _ _ Hm)).
      unfold Groups.accountsIn at 2. cbn [filter map app]. rewrite app_nil_r.
      rewrite <- app_assoc. reflexivity.
    + rewrite (step_other _ _ Hm). cbn [currentChannel results accountLines isSet].
      rewrite Hc. cbn [andb]. unfold Groups.accountsIn at 1. cbn [filter].
      destruct (JS.startsWith (JS.trim line) "- ") eqn:Hd.
      * rewrite (IH _ c _ Hc). cbn [map]. rewrite <- app_assoc. reflexivity.
      * rewrite (IH _ c _ Hc). reflexivity.
Qed.

Lemma loop_without_channel lines : forall rs,
  results (flush (fold_left step lines
                    {| results := rs; currentChannel := None; accountLines := [] |}))
  = rs ++ map Groups.channelOfGroup (Groups.groups (map JS.trim lines)).
Proof.
  induction lines as [|line r IH]; intros rs.
  - cbn. now rewrite app_nil_r.
  - cbn [fold_left map Groups.groups].
    destruct (channelMatch (JS.trim line)) as [n|] eqn:Hm.
    + rewrite (step_header _ _ _ Hm). unfold flush at 2 3.
      cbn [currentChannel results accountLines].
      rewrite (loop_with_channel r rs n [] (channelMatch_nonEmpty _ _ Hm)).
      reflexivity.
    + rewrite (step_other _ _ Hm). cbn [currentChannel isSet andb]. apply IH.
Qed.

Lemma systemStep_fold lines : forall acc,
  fold_left systemStep lines acc
  = acc ++ map systemChannel (map fst (Groups.groups (map JS.trim lines))).
Proof.
  induction lines as [|line r IH]; intros acc.
  - cbn. now rewrite app_nil_r.
  - cbn [fold_left map Groups.groups]. unfold systemStep at 2.
    destruct (channelMatch (JS.trim line)) as [n|].
    + rewrite IH. cbn [map fst]. rewrite <- app_assoc. reflexivity.
    + apply IH.
Qed.

(** X20.  The channels route reads the channel summary as groups: one
    channel for every header line, in order, carrying the account lines
    (the trimmed lines that start with a dash and a blank, without that
    prefix) between its header and the next header; account lines before
    the first header are dropped.  The system route lists the same
    names in the same order. *)
Theorem buildChannels_groups (statusData : option json) (lines : list string)
    (Hlive : Json.truthyOpt statusData = true)
    (Hlines : linesOf (Groups.summaryOf statusData) = Some lines) :
  buildChannels statusData
  = Some (map Groups.channelOfGroup (Groups.groups (map JS.trim lines)))
  /\ systemChannels statusData
     = Some (map systemChannel (map fst (Groups.groups (map JS.trim lines)))).
Proof.
  unfold buildChannels, systemChannels. rewrite Hlive. cbn [negb].
  fold (Groups.summaryOf statusData). rewrite Hlines. cbn [option_map].
  rewrite loop_without_channel, systemStep_fold. split; reflexivity.
Qed.

Lemma buildChannels_groups_witness :
  option_map (map (fun c => (name c, accounts c)))
    (buildChannels MoreSamples.summaryStatus)
  = Some [("Telegram", ["default (token:config)"]); ("Discord", [])].
Proof.
  destruct (buildChannels_groups MoreSamples.summaryStatus
              ["- stray"; "Telegram: configured"; "  - default (token:config)";
               "Discord: configured"]
              eq_refl eq_refl) as [H _].
  rewrite H. reflexivity.
Defined.

Lemma snoc_append (l : list ascii) (c : ascii) (x : string) :
  (string_of_list_ascii (l ++ [c]) ++ x
   = string_of_list_ascii l ++ String c x)%string.
Proof. induction l as [|d l IH]; [reflexivity|]. cbn. now rewrite IH. Qed.

Lemma append_empty (s : string) : (s ++ "")%string = s.
Proof. induction s as [|c s IH]; [reflexivity|]. cbn. now rewrite IH. Qed.

Lemma split_hd_go (s : string) : forall cur,
  hd EmptyString (JS.splitGo ":" s 0 cur)
  = (string_of_list_ascii (rev cur) ++ takeWhile Groups.notColon s)%string.
Proof.
  induction s as [|c t IH]; intros cur.
  - cbn. now rewrite append_empty.
  - cbn [JS.splitGo takeWhile]. unfold Groups.notColon at 1.
    cbn [String.prefix]. destruct (ascii_dec ":" c) as [<-|Hne].
    + replace (String.prefix "" t) with true by (now destruct t).
      cbn. now rewrite append_empty.
    + assert (E : Ascii.eqb c ":" = false).
      { apply Ascii.eqb_neq. congruence. }
      rewrite E. cbn [negb]. rewrite IH. cbn [rev]. apply snoc_append.
Qed.

Lemma split_hd (s : string) :
  hd EmptyString (JS.split s ":") = takeWhile Groups.notColon s.
Proof. unfold JS.split. now rewrite split_hd_go. Qed.

Lemma space_notColon c : JS.is_space c = true -> Groups.notColon c = true.
Proof.
  unfold Groups.notColon. destruct (Ascii.eqb_spec c ":") as [->|]; [|reflexivity].
  intros H. vm_compute in H. discriminate.
Qed.

Lemma nameChar_notColon c : nameChar c = true -> Groups.notColon c = true.
Proof.
  unfold Groups.notColon. destruct (Ascii.eqb_spec c ":") as [->|]; [|reflexivity].
  intros H. vm_compute in H. discriminate.
Qed.

Lemma word_notColon c : JS.is_word c = true -> Groups.notColon c = true.
Proof.
  intros H. apply nameChar_notColon. unfold nameChar. now rewrite H.
Qed.

Lemma takeWhile_to_colon (t : string) : forall v,
  JS.dropWhile nameChar t = String ":" v ->
  takeWhile nameChar t = takeWhile Groups.notColon t.
Proof.
  induction t as [|c r IH]; intros v; [reflexivity|].
  cbn [JS.dropWhile takeWhile]. destruct (nameChar c) eqn:Hn.
  - rewrite (nameChar_notColon _ Hn). intros H. now rewrite (IH _ H).
  - intros H. injection H as -> _. reflexivity.
Qed.

Lemma channelMatch_capture s n :
  channelMatch s = Some n -> n = takeWhile Groups.notColon s.
Proof.
  destruct s as [|c t]; [discriminate|]. unfold channelMatch.
  destruct (JS.is_word c) eqn:Hw; [|discriminate].
  destruct (JS.dropWhile nameChar t) as [|e v] eqn:Hd; [discriminate|].
  destruct e as [[] [] [] [] [] [] [] []]; try discriminate.
  destruct v as [|d u]; [discriminate|].
  match goal with |- context [if ?b then _ else _] => destruct b end;
    [|discriminate].
  intros H; injection H as <-. cbn [takeWhile].
  rewrite (word_notColon _ Hw). now rewrite (takeWhile_to_colon _ _ Hd).
Qed.

Lemma configuredLine_match s :
  StatusSummaryRoute.configuredLine s
  = match channelMatch s with Some _ => true | None => false end.
Proof.
  destruct s as [|c t]; [reflexivity|].
  unfold StatusSummaryRoute.configuredLine, channelMatch.
  destruct (JS.is_word c); [|reflexivity]. cbn [andb].
  change (fun d : ascii => JS.is_word d || JS.is_space d) with nameChar.
  destruct (JS.dropWhile nameChar t) as [|e v]; [reflexivity|].
  destruct e as [[] [] [] [] [] [] [] []]; try reflexivity.
  destruct v as [|d u]; [reflexivity|].
  destruct (JS.is_space d
            && String.prefix "configured" (JS.dropWhile JS.is_space (String d u)));
    reflexivity.
Qed.

Lemma takeWhile_trimStart s :
  takeWhile Groups.notColon (JS.trimStart s)
  = JS.trimStart (takeWhile Groups.notColon s).
Proof.
  unfold JS.trimStart. induction s as [|c t IH]; [reflexivity|].
  cbn [JS.dropWhile takeWhile]. destruct (JS.is_space c) eqn:Hs.
  - rewrite (space_notColon _ Hs). cbn [JS.dropWhile]. now rewrite Hs.
  - cbn [takeWhile]. destruct (Groups.notColon c); [|reflexivity].
    cbn [JS.dropWhile]. now rewrite Hs.
Qed.

Lemma trimEnd_cons c t :
  JS.trimEnd (String c t)
  = match JS.trimEnd t with
    | EmptyString => if JS.is_space c then EmptyString else String c EmptyString
    | t' => String c t'
    end.
Proof. reflexivity. Qed.

Lemma trimEnd_takeWhile s :
  JS.trimEnd (takeWhile Groups.notColon (JS.trimEnd s))
  = JS.trimEnd (takeWhile Groups.notColon s).
Proof.
  induction s as [|c t IH]; [reflexivity|].
  rewrite (trimEnd_cons c t). cbn [takeWhile].
  destruct (Groups.notColon c) eqn:Hc.
  - rewrite (trimEnd_cons c (takeWhile Groups.notColon t)), <- IH.
    destruct (JS.trimEnd t) as [|d t'].
    + cbn [takeWhile]. destruct (JS.is_space c) eqn:Hs; [reflexivity|].
      cbn [takeWhile]. rewrite Hc. rewrite trimEnd_cons. cbn [takeWhile JS.trimEnd].
      now rewrite Hs.
    + cbn [takeWhile]. rewrite Hc. now rewrite trimEnd_cons.
  - destruct (JS.trimEnd t) as [|d t'].
    + destruct (JS.is_space c); cbn [takeWhile]; [reflexivity|].
      now rewrite Hc.
    + cbn [takeWhile]. now rewrite Hc.
Qed.

Lemma channelOfLine_capture line n :
  channelMatch (JS.trim line) = Some n ->
  StatusSummaryRoute.channelOfLine line = JS.toLowerCase (JS.trimEnd n).
Proof.
  intros Hm. apply channelMatch_capture in Hm. subst n.
  unfold StatusSummaryRoute.channelOfLine. rewrite split_hd.
  unfold JS.trim at 1 2. now rewrite <- takeWhile_trimStart, trimEnd_takeWhile.
Qed.

Lemma parse_lines (lines : list string) :
  map StatusSummaryRoute.channelOfLine
    (filter (fun line => StatusSummaryRoute.configuredLine (JS.trim line)) lines)
  = map (fun g => JS.toLowerCase (JS.trimEnd (fst g)))
      (Groups.groups (map JS.trim lines)).
Proof.
  induction lines as [|line r IH]; [reflexivity|].
  cbn [filter map Groups.groups]. rewrite configuredLine_match.
  destruct (channelMatch (JS.trim line)) as [n|] eqn:Hm; [|exact IH].
  cbn [map fst]. now rewrite IH, (channelOfLine_capture _ _ Hm).
Qed.

(** X21.  On a summary that is an array, the active channels of the
    status route that reads the summary are the names of the channels
    route in lower case after their trailing blanks are removed, while
    the ids of the channels route keep those blanks.  The two routes
    name the channels alike when no header has a blank before its
    colon. *)
Theorem activeChannels_of_names (statusData : option json) (l : list json)
    (out : list Channel)
    (Hlive : Json.truthyOpt statusData = true)
    (Harr : Groups.summaryOf statusData = JArr l)
    (Hout : buildChannels statusData = Some out) :
  StatusSummaryRoute.parseChannelSummary (Groups.summaryOf statusData)
  = Some (map (fun c => JS.toLowerCase (JS.trimEnd (name c))) out)
  /\ Forall (fun c => id c = JS.toLowerCase (name c)) out
  /\ (Forall (fun c => JS.trimEnd (name c) = name c) out ->
      StatusSummaryRoute.parseChannelSummary (Groups.summaryOf statusData)
      = Some (map id out)).
Proof.
  assert (Hl : exists lines, StatusSummaryRoute.asLines l = Some lines
                 /\ out = map Groups.channelOfGroup (Groups.groups (map JS.trim lines))).
  { unfold buildChannels in Hout. rewrite Hlive in Hout. cbn [negb] in Hout.
    fold (Groups.summaryOf statusData) in Hout. rewrite Harr in Hout.
    cbn [linesOf] in Hout.
    destruct (StatusSummaryRoute.asLines l) as [lines|]; [|discriminate].
    exists lines. split; [reflexivity|]. cbn [option_map] in Hout.
    rewrite loop_without_channel in Hout. now injection Hout as <-. }
  destruct Hl as (lines & Hlines & ->).
  assert (Hparse : StatusSummaryRoute.parseChannelSummary (Groups.summaryOf statusData)
                   = Some (map (fun c => JS.toLowerCase (JS.trimEnd (name c)))
                             (map Groups.channelOfGroup
                                (Groups.groups (map JS.trim lines))))).
  { rewrite Harr. unfold StatusSummaryRoute.parseChannelSummary.
    rewrite Hlines. cbn [option_map]. rewrite parse_lines, map_map. reflexivity. }
  split; [exact Hparse|]. split.
  - apply Forall_forall. intros c Hc. apply in_map_iff in Hc as (g & <- & _).
    reflexivity.
  - intros Hclean. rewrite Hparse. f_equal. apply map_ext_in. intros c Hc.
    rewrite Forall_forall in Hclean. rewrite (Hclean c Hc).
    apply in_map_iff in Hc as (g & <- & _). reflexivity.
Qed.

Lemma activeChannels_of_names_witness :
  StatusSummaryRoute.parseChannelSummary (Groups.summaryOf MoreSamples.spacedSummary)
  = Some ["telegram"]
  /\ option_map (map id) (buildChannels MoreSamples.spacedSummary)
     = Some ["telegram "].
Proof.
  destruct (activeChannels_of_names MoreSamples.spacedSummary _ _
              eq_refl eq_refl eq_refl) as (H & _).
  split; [rewrite H; reflexivity | reflexivity].
Defined.

End SummaryFacts.

(** ** The daily summary: statements *)

Module DailyFacts.

Import DailyRoute.

Lemma prefix_length (a s : string) :
  String.prefix a s = true -> (String.length a <= String.length s)%nat.
Proof.
  revert s. induction a as [|c a IH]; intros s H; [cbn; lia|].
  destruct s as [|d s]; [discriminate|]. cbn in H |- *.
  destruct (ascii_dec c d); [|discriminate]. apply IH in H. lia.
Qed.

Lemma toLowerCase_length (s : string) :
  String.length (JS.toLowerCase s) = String.length s.
Proof.
  unfold JS.toLowerCase. induction s as [|c s IH]; [reflexivity|].
  cbn. now rewrite IH.
Qed.

(** Matches do not overlap: [k] characters at least for each. *)
Lemma countGo_bound (re : Matcher) (k : nat) :
  (forall s len, re s = Some len -> (k <= len <= String.length s)%nat) ->
  forall s skip, (skip <= String.length s)%nat ->
    (k * countGo re s skip + skip <= String.length s)%nat.
Proof.
  intros Hre. induction s as [|c t IH]; intros skip Hskip.
  - cbn in *. lia.
  - cbn [countGo]. destruct skip as [|j].
    + destruct (re (String c t)) as [len|] eqn:Hm.
      * apply Hre in Hm. cbn [String.length] in *.
        assert (Hj : (len - 1 <= String.length t)%nat) by lia.
        specialize (IH _ Hj). nia.
      * specialize (IH 0%nat (Nat.le_0_l _)). cbn [String.length]. lia.
    + cbn [String.length] in *.
      assert (Hj : (j <= String.length t)%nat) by lia.
      specialize (IH _ Hj). lia.
Qed.

Lemma literals_bound (alts : list string) (k : nat) :
  Forall (fun a => (k <= String.length a)%nat) alts ->
  forall s len, literals alts s = Some len -> (k <= len <= String.length s)%nat.
Proof.
  intros Hall s len. unfold literals.
  destruct (find _ alts) as [a|] eqn:Hf; [|discriminate].
  intros H; injection H as <-. apply find_some in Hf as [Hin Hp].
  rewrite Forall_forall in Hall. split; [now apply Hall | now apply prefix_length].
Qed.

Lemma extension_bound (alts : list string) (k : nat) :
  Forall (fun a => (k <= S (String.length a))%nat) alts ->
  forall s len, extension alts s = Some len -> (k <= len <= String.length s)%nat.
Proof.
  intros Hall s len. unfold extension.
  destruct s as [|c t]; [discriminate|].
  destruct c as [[] [] [] [] [] [] [] []]; try discriminate.
  destruct (find _ alts) as [a|] eqn:Hf; [|discriminate].
  intros H; injection H as <-. apply find_some in Hf as [Hin Hp].
  apply andb_true_iff in Hp as [Hp _]. apply prefix_length in Hp.
  rewrite Forall_forall in Hall. specialize (Hall _ Hin).
  cbn [String.length]. lia.
Qed.

Lemma count_bound (re : Matcher) (k : nat) (content : string) :
  (forall s len, re s = Some len -> (k <= len <= String.length s)%nat) ->
  (0 <= count re (JS.toLowerCase content)
   /\ Z.of_nat k * count re (JS.toLowerCase content)
      <= Z.of_nat (String.length content))%Z.
Proof.
  intros Hre. unfold count.
  pose proof (countGo_bound re k Hre (JS.toLowerCase content) 0 (Nat.le_0_l _)) as H.
  rewrite toLowerCase_length in H. split; [lia|]. nia.
Qed.

(** X22.  The hourly figures of a daily summary: twenty-four entries
    for the hours 0 to 23, in order; nothing outside the hours 9 to 22;
    and the messages and tasks of the hours together are the largest
    multiple of fourteen that is not above the day's figure, so up to
    thirteen of either are lost.  No more than five activities are
    listed. *)
Theorem daily_hourly_figures (content date : string) :
  let d := parseDailySummary content date in
  map hour (hourlyActivity d) = map Z.of_nat (seq 0 24)
  /\ (forall e, In e (hourlyActivity d) ->
        (hour e < 9 \/ 22 < hour e)%Z ->
        messages e = 0%Z /\ tasks e = 0%Z)
  /\ (overDay messages d = 14 * (messagesHandled d / 14)
      /\ messagesHandled d - 13 <= overDay messages d <= messagesHandled d)%Z
  /\ (overDay tasks d = 14 * (tasksCompleted d / 14)
      /\ tasksCompleted d - 13 <= overDay tasks d <= tasksCompleted d)%Z
  /\ (List.length (topActivities d) <= 5)%nat.
Proof.
  intros d. subst d. unfold parseDailySummary, overDay.
  cbn [hourlyActivity messagesHandled tasksCompleted topActivities].
  assert (Hm : (0 <= count (literals messageWords) (JS.toLowerCase content))%Z)
    by (unfold count; lia).
  assert (Ht : (0 <= count (literals taskWords) (JS.toLowerCase content))%Z)
    by (unfold count; lia).
  set (m := count (literals messageWords) (JS.toLowerCase content)) in *.
  set (t := count (literals taskWords) (JS.toLowerCase content)) in *.
  rewrite !map_map. cbn [hour messages tasks].
  split; [reflexivity|]. split.
  - intros e He Hh. apply in_map_iff in He as (h & <- & _). cbn [hour messages tasks] in *.
    assert (Hout : inDay h = false).
    { unfold inDay. apply andb_false_iff.
      destruct Hh as [Hh | Hh]; [left | right]; apply Nat.leb_gt; lia. }
    rewrite Hout. split; reflexivity.
  - rewrite (Z.max_l m 0 Hm), (Z.max_l t 0 Ht).
    assert (Hsum : forall q,
               fold_right Z.add 0%Z
                 (map (fun h => if inDay h then q else 0%Z) (seq 0 24))
               = (14 * q)%Z).
    { intros q. cbv [seq map inDay Nat.leb andb fold_right]. lia. }
    rewrite !Hsum.
    pose proof (Z.div_mod m 14 ltac:(lia)) as Hdm.
    pose proof (Z.mod_pos_bound m 14 ltac:(lia)) as Hmm.
    pose proof (Z.div_mod t 14 ltac:(lia)) as Hdt.
    pose proof (Z.mod_pos_bound t 14 ltac:(lia)) as Hmt.
    repeat split; try lia.
    rewrite length_firstn. lia.
Qed.

(** X23.  The keyword figures of a daily summary count matches that do
    not overlap, so each is bounded by the length of the text: a
    message, task, schedule or delegation word takes four characters at
    least, a file extension with its dot and an error word three.  No
    figure is negative. *)
Theorem daily_counts_bounded (content date : string) :
  let d := parseDailySummary content date in
  let n := Z.of_nat (String.length content) in
  (0 <= messagesHandled d /\ 4 * messagesHandled d <= n)%Z
  /\ (0 <= tasksCompleted d /\ 4 * tasksCompleted d <= n)%Z
  /\ (0 <= filesModified d /\ 3 * filesModified d <= n)%Z
  /\ (0 <= cronJobsRun d /\ 4 * cronJobsRun d <= n)%Z
  /\ (0 <= subAgentsSpawned d /\ 4 * subAgentsSpawned d <= n)%Z
  /\ (0 <= errorsEncountered d /\ 3 * errorsEncountered d <= n)%Z.
Proof.
  intros d n. subst d n. unfold parseDailySummary.
  cbn [messagesHandled tasksCompleted filesModified cronJobsRun
       subAgentsSpawned errorsEncountered].
  pose proof (count_bound (literals messageWords) 4 content
                (literals_bound messageWords 4 
                   ltac:(repeat (apply Forall_cons; [cbn; lia|]); apply Forall_nil))) as H1.
  pose proof (count_bound (literals taskWords) 4 content
                (literals_bound taskWords 4 
                   ltac:(repeat (apply Forall_cons; [cbn; lia|]); apply Forall_nil))) as H2.
  pose proof (count_bound (extension fileExtensions) 3 content
                (extension_bound fileExtensions 3 
                   ltac:(repeat (apply Forall_cons; [cbn; lia|]); apply Forall_nil))) as H3.
  pose proof (count_bound (literals cronWords) 4 content
                (literals_bound cronWords 4 
                   ltac:(repeat (apply Forall_cons; [cbn; lia|]); apply Forall_nil))) as H4.
  pose proof (count_bound (literals spawnWords) 4 content
                (literals_bound spawnWords 4 
                   ltac:(repeat (apply Forall_cons; [cbn; lia|]); apply Forall_nil))) as H5.
  pose proof (count_bound (literals errorWords) 3 content
                (literals_bound errorWords 3 
                   ltac:(repeat (apply Forall_cons; [cbn; lia|]); apply Forall_nil))) as H6.
  change (Z.of_nat 4) with 4%Z in *. change (Z.of_nat 3) with 3%Z in *.
  repeat split; lia.
Qed.

End DailyFacts.

(** ** Uptime texts: statements *)

Module PagesFacts.

(** A decimal rendering followed by a character that is not a digit
    determines the number and what follows. *)
Lemma digits_cancel (u : Decimal.uint) : forall (u' : Decimal.uint) c r c' r',
  JS.is_digit c = false -> JS.is_digit c' = false ->
  (NilEmpty.string_of_uint u ++ String c r
   = NilEmpty.string_of_uint u' ++ String c' r')%string ->
  u = u' /\ c = c' /\ r = r'.
Proof.
  induction u as [|u IH|u IH|u IH|u IH|u IH|u IH|u IH|u IH|u IH|u IH];
    intros u' c r c' r' Hc Hc' H;
    destruct u' as [|v|v|v|v|v|v|v|v|v|v]; cbn in H;
    injection H; clear H; intros;
    try congruence;
    try (subst; vm_compute in Hc; discriminate Hc);
    try (subst; vm_compute in Hc'; discriminate Hc');
    try (subst; repeat split; reflexivity);
    match goal with
    | E : (_ ++ _)%string = (_ ++ _)%string |- _ =>
        destruct (IH _ _ _ _ _ Hc Hc' E) as (-> & -> & ->);
        repeat split; reflexivity
    end.
Qed.

Lemma natToString_digits (n : nat) :
  JS.natToString n = NilEmpty.string_of_uint (Pages.nonNil (Nat.to_uint n)).
Proof. unfold JS.natToString. now destruct (Nat.to_uint n). Qed.

Lemma of_uint_nonNil (u : Decimal.uint) : Nat.of_uint (Pages.nonNil u) = Nat.of_uint u.
Proof. now destruct u. Qed.

Lemma natToString_cancel (n n' : nat) c r c' r' :
  JS.is_digit c = false -> JS.is_digit c' = false ->
  (JS.natToString n ++ String c r = JS.natToString n' ++ String c' r')%string ->
  n = n' /\ c = c' /\ r = r'.
Proof.
  intros Hc Hc'. rewrite !natToString_digits. intros H.
  apply digits_cancel in H as (Hu & -> & ->); try assumption.
  repeat split; try reflexivity.
  rewrite <- (DecimalNat.Unsigned.of_to n), <- (DecimalNat.Unsigned.of_to n').
  now rewrite <- (of_uint_nonNil (Nat.to_uint n)), Hu, of_uint_nonNil.
Qed.

Lemma render_cancel (a b : Z) c r c' r' :
  (0 <= a)%Z -> (0 <= b)%Z ->
  JS.is_digit c = false -> JS.is_digit c' = false ->
  (Pages.render a ++ String c r = Pages.render b ++ String c' r')%string ->
  a = b /\ c = c' /\ r = r'.
Proof.
  intros Ha Hb Hc Hc'. unfold Pages.render.
  destruct (Z.ltb_spec a 0) as [?|_]; [lia|].
  destruct (Z.ltb_spec b 0) as [?|_]; [lia|].
  intros E. apply natToString_cancel in E as (Hn & -> & ->); try assumption.
  repeat split; try reflexivity. lia.
Qed.

Lemma parts_nonneg (a : Z) :
  (0 <= a)%Z ->
  (0 <= a / 86400 /\ 0 <= Z.rem a 86400 / 3600
   /\ 0 <= Z.rem a 3600 / 60 /\ 0 <= Z.rem a 60)%Z.
Proof. intros Ha. Z.to_euclidean_division_equations. lia. Qed.

Lemma minutes_of_parts (a : Z) :
  (0 <= a)%Z ->
  (a / 60 = 1440 * (a / 86400) + 60 * (Z.rem a 86400 / 3600) + Z.rem a 3600 / 60)%Z.
Proof. intros Ha. Z.to_euclidean_division_equations. lia. Qed.

Lemma seconds_of_parts (a : Z) :
  (0 <= a)%Z ->
  (a = 86400 * (a / 86400) + 3600 * (Z.rem a 86400 / 3600)
       + 60 * (Z.rem a 3600 / 60) + Z.rem a 60)%Z.
Proof. intros Ha. Z.to_euclidean_division_equations. lia. Qed.

Lemma parts_of_minutes (a b : Z) :
  (0 <= a)%Z -> (0 <= b)%Z -> (a / 60 = b / 60)%Z ->
  (a / 86400 = b / 86400
   /\ Z.rem a 86400 / 3600 = Z.rem b 86400 / 3600
   /\ Z.rem a 3600 / 60 = Z.rem b 3600 / 60)%Z.
Proof. intros Ha Hb H. Z.to_euclidean_division_equations. lia. Qed.

(** Reads the parts off an equation between two uptime texts. *)
Ltac peel :=
  repeat match goal with
    | E : (Pages.render _ ++ String _ _ = Pages.render _ ++ String _ _)%string |- _ =>
        apply render_cancel in E as (? & ? & ?);
        [ | lia | lia | reflexivity | reflexivity ]
    | E : String _ _ = String _ _ |- _ =>
        injection E; clear E; intros
    end.

(** X24.  The uptime text of the home page and of the system page
    loses the seconds and nothing else: two uptimes, given in whole
    seconds, have the same text exactly when they agree to the
    minute. *)
Theorem formatUptime_to_the_minute (a b : Z) (Ha : (0 <= a)%Z) (Hb : (0 <= b)%Z) :
  Pages.formatUptime a = Pages.formatUptime b <-> (a / 60 = b / 60)%Z.
Proof.
  split.
  - pose proof (parts_nonneg a Ha) as (Hd & Hh & Hm & _).
    pose proof (parts_nonneg b Hb) as (Hd' & Hh' & Hm' & _).
    rewrite (minutes_of_parts a Ha), (minutes_of_parts b Hb).
    unfold Pages.formatUptime.
    destruct (Z.ltb_spec 0 (a / 86400)); destruct (Z.ltb_spec 0 (b / 86400));
      try destruct (Z.ltb_spec 0 (Z.rem a 86400 / 3600));
      try destruct (Z.ltb_spec 0 (Z.rem b 86400 / 3600));
      cbn [append]; intros E; peel; try congruence; lia.
  - intros H. destruct (parts_of_minutes a b Ha Hb H) as (H1 & H2 & H3).
    unfold Pages.formatUptime. now rewrite H1, H2, H3.
Qed.

Lemma formatUptime_to_the_minute_witness :
  Pages.formatUptime 3725 = Pages.formatUptime 3779.
Proof.
  apply (formatUptime_to_the_minute 3725 3779); [lia | lia | reflexivity].
Defined.

(** X25.  The uptime text of the status bar is exact below one day and
    loses the seconds from one day on: two uptimes, given in whole
    seconds, have the same text exactly when they are equal, or are
    both of a day or more and agree to the minute. *)
Theorem status_bar_uptime_exact (a b : Z) (Ha : (0 <= a)%Z) (Hb : (0 <= b)%Z) :
  TopStatusBar.formatUptime a = TopStatusBar.formatUptime b
  <-> (a = b \/ (86400 <= a /\ 86400 <= b /\ a / 60 = b / 60))%Z.
Proof.
  split.
  - pose proof (parts_nonneg a Ha) as (Hd & Hh & Hm & Hs).
    pose proof (parts_nonneg b Hb) as (Hd' & Hh' & Hm' & Hs').
    pose proof (seconds_of_parts a Ha) as Hsa.
    pose proof (seconds_of_parts b Hb) as Hsb.
    pose proof (minutes_of_parts a Ha) as Hma.
    pose proof (minutes_of_parts b Hb) as Hmb.
    unfold TopStatusBar.formatUptime.
    destruct (Z.ltb_spec 0 (a / 86400)); destruct (Z.ltb_spec 0 (b / 86400));
      try destruct (Z.ltb_spec 0 (Z.rem a 86400 / 3600));
      try destruct (Z.ltb_spec 0 (Z.rem b 86400 / 3600));
      cbn [append]; intros E; peel; try congruence; lia.
  - intros [-> | (Hda & Hdb & H)]; [reflexivity|].
    destruct (parts_of_minutes a b Ha Hb H) as (H1 & H2 & H3).
    unfold TopStatusBar.formatUptime. rewrite <- H1, <- H2, <- H3.
    assert (Hpos : (0 <? a / 86400)%Z = true).
    { apply Z.ltb_lt. Z.to_euclidean_division_equations. lia. }
    now rewrite Hpos.
Qed.

Lemma status_bar_uptime_exact_witness :
  TopStatusBar.formatUptime 90000 = TopStatusBar.formatUptime 90059.
Proof.
  apply (status_bar_uptime_exact 90000 90059); [lia | lia |].
  right. split; [lia | split; [lia | reflexivity]].
Defined.

End PagesFacts.

(** ** Tags of a memory file: statements *)

Module MemoryFacts.

Import MemoryRoute.

Lemma dash_not_space : JS.is_space "-" = false.
Proof. reflexivity. Qed.

Lemma dashGo_no_space (s : string) : forall inRun,
  allOf (fun c => negb (JS.is_space c)) (dashGo s inRun) = true.
Proof.
  induction s as [|c t IH]; intros inRun; [reflexivity|].
  cbn [dashGo]. destruct (JS.is_space c) eqn:Hc.
  - destruct inRun; [apply IH|]. cbn [allOf]. rewrite dash_not_space. apply IH.
  - cbn [allOf]. rewrite Hc. apply IH.
Qed.

Lemma lower_char_idem (c : ascii) : JS.lower_char (JS.lower_char c) = JS.lower_char c.
Proof. destruct c as [[] [] [] [] [] [] [] []]; reflexivity. Qed.

Lemma lower_char_space (c : ascii) : JS.is_space (JS.lower_char c) = JS.is_space c.
Proof. destruct c as [[] [] [] [] [] [] [] []]; reflexivity. Qed.

Lemma dashGo_lower (s : string) : forall inRun,
  JS.toLowerCase (dashGo (JS.toLowerCase s) inRun) = dashGo (JS.toLowerCase s) inRun.
Proof.
  unfold JS.toLowerCase. induction s as [|c t IH]; intros inRun; [reflexivity|].
  cbn [JS.map_string dashGo]. rewrite lower_char_space.
  destruct (JS.is_space c).
  - destruct inRun; [apply IH|]. cbn [JS.map_string]. now rewrite IH.
  - cbn [JS.map_string]. now rewrite lower_char_idem, IH.
Qed.

Lemma firstn_member {A} (n : nat) (l : list A) (x : A) :
  In x (firstn n l) -> In x l.
Proof.
  revert l. induction n as [|n IH]; intros [|y l] H; try contradiction.
  destruct H as [-> | H]; [now left | right; now apply IH].
Qed.

(** X26.  The tags of a memory file are five at most; a tag holds no
    blank character, every run of blanks having become one dash; and a
    tag is in lower case, so that the search of the memory route, which
    lowers the search text only, finds tags whatever the case of the
    heading. *)
Theorem extractTags_shape (content : string) :
  (List.length (extractTags content) <= 5)%nat
  /\ forall tag, In tag (extractTags content) ->
       allOf (fun c => negb (JS.is_space c)) tag = true
       /\ JS.toLowerCase tag = tag.
Proof.
  unfold extractTags. split.
  - rewrite length_firstn. lia.
  - intros tag Hin. apply firstn_member in Hin.
    apply in_map_iff in Hin as (h & <- & _). unfold tagOf, dashes. split.
    + apply dashGo_no_space.
    + apply dashGo_lower.
Qed.

End MemoryFacts.
